(** * Live-sync pipeline of fplgenieupdate: a shallow embedding

    The update script (the second, validating variant of [updateScript.js])
    polls the FPL API, decides whether a match is live, validates the fetched
    snapshots and writes them to SQL Server through the [tedious] driver.

    The embedding follows the script function by function.  JSON payloads are
    values of [value]; everything outside the script (the HTTP API, the SQL
    server, the clock, the console) lives in [World]; an [async] function is a
    state-and-exception computation [M A].  The behaviour of the two external
    libraries the script relies on but does not contain (the JS built-in
    [parseFloat], the driver's per-type parameter validation) are parameters
    of the development. *)

From Stdlib Require Import ZArith QArith Qcanon Qround List Lia Sorted.
From stdpp Require Import base option list strings gmap pretty sorting.

Set Warnings "-register-all".

Local Open Scope string_scope.
Local Open Scope list_scope.

(** ** JavaScript values *)

Inductive value : Type :=
| VUndefined
| VNull
| VBool (b : bool)
| VNum (x : Qc)
| VNaN
| VStr (s : string)
| VDate (arg : value)                      (* [new Date(arg)] *)
| VArr (items : list value)
| VObj (fields : list (string * value)).

(** The number [n] as a JS value. *)
Definition num (n : nat) : value := VNum (Q2Qc (inject_Z (Z.of_nat n))).
Definition int (z : Z) : value := VNum (Q2Qc (inject_Z z)).

(** [!!v] *)
Definition truthy (v : value) : bool :=
  match v with
  | VUndefined | VNull | VNaN => false
  | VBool b => b
  | VNum x => negb (Qeq_bool x 0)
  | VStr s => negb (String.eqb s "")
  | VDate _ | VArr _ | VObj _ => true
  end.

(** [v == null] *)
Definition nullish (v : value) : bool :=
  match v with VUndefined | VNull => true | _ => false end.

Fixpoint assoc (k : string) (fs : list (string * value)) : value :=
  match fs with
  | [] => VUndefined
  | (k', v) :: rest => if String.eqb k k' then v else assoc k rest
  end.

(** [v.k] for a [v] that is neither [null] nor [undefined]: own fields of an
    object, [length] of an array or a string, [undefined] otherwise. *)
Definition field (k : string) (v : value) : value :=
  match v with
  | VObj fs => assoc k fs
  | VArr l => if String.eqb k "length" then num (length l) else VUndefined
  | VStr s => if String.eqb k "length" then num (String.length s) else VUndefined
  | _ => VUndefined
  end.

(** [a || b] *)
Definition or_else (a b : value) : value := if truthy a then a else b.

(** [Array.isArray(v)] *)
Definition isArray (v : value) : bool :=
  match v with VArr _ => true | _ => false end.

(** [typeof v === 'number'] *)
Definition isNumber (v : value) : bool :=
  match v with VNum _ | VNaN => true | _ => false end.

(** [v === true], [v === false] *)
Definition is_true (v : value) : bool :=
  match v with VBool true => true | _ => false end.
Definition is_false (v : value) : bool :=
  match v with VBool false => true | _ => false end.

(** [a < b] and [a === b] where [b] is a number literal. *)
Definition js_lt (a b : value) : bool :=
  match a, b with
  | VNum x, VNum y => negb (Qle_bool y x)
  | _, _ => false
  end.
Definition js_eq_num (a b : value) : bool :=
  match a, b with
  | VNum x, VNum y => Qeq_bool x y
  | _, _ => false
  end.

(** ** Errors, console lines

    A template literal is kept as the list of its fragments, literal text as
    [VStr] and each interpolated expression as the value it had. *)

Definition text := list value.

Record error := Error {
  message : text;
  response : option (value * value)        (* axios: status, statusText *)
}.

Definition new_Error (msg : text) : error := Error msg None.
Definition TypeError (msg : text) : error := Error msg None.

Inductive level := Info | Warning | Severe.
Definition line : Type := level * text.

(** ** The world outside the script *)

Inductive endpoint :=
| BootstrapStatic                          (* /api/bootstrap-static/ *)
| FixturesOfEvent (event : value)          (* /api/fixtures/?event=${id} *)
| AllFixtures                              (* /api/fixtures/ *)
| EventLive (event : value).               (* /api/event/${id}/live/ *)

(** What [axios.get] settles with: a status-200 response carrying [data], or
    a rejection (other status, transport error, timeout). *)
Inductive reply :=
| Replied (data : value)
| Rejected (e : error).

Inductive sqltype := Int | NVarChar | Bit | DateTime2 | Decimal.

(** Right-hand side of a column assignment in the SQL text. *)
Inductive source :=
| Param (name : string)                    (* @name *)
| GetUtcDate.                              (* GETUTCDATE() *)

(** The two statement shapes the script sends.
    [Merge t k set ins]:
      MERGE dbo.t AS target USING (SELECT @k AS id) AS source
      ON target.id = source.id
      WHEN MATCHED THEN UPDATE SET set
      WHEN NOT MATCHED THEN INSERT (cols of ins) VALUES (sources of ins);
    [Update t set k]:
      UPDATE dbo.t SET set WHERE id = @k; *)
Inductive statement :=
| Merge (table key : string) (matched not_matched : list (string * source))
| Update (table : string) (set : list (string * source)) (key : string).

Record request := Request {
  sql_text : statement;
  parameters : list (string * (sqltype * value))
}.

(** What becomes of the n-th request on the connection.  The driver is
    not part of the repository; the cases are told apart by the handler of
    the script that runs first.  [Refuse] is every course on which the
    callback of the request gets an error before anything else settles the
    promise of [updateDatabase]: a constraint, a timeout, and also a lost
    connection when the driver fails the request before it emits 'error'.
    [Drop] is the course on which the connection emits 'error' while the
    callback of the request has not been called. *)
Inductive verdict :=
| Accept                                   (* run the statement *)
| Refuse (e : error)                       (* callback(err) *)
| Drop (e : error).                        (* the connection emits 'error' first *)

Inductive outcome := Applied | Failed (e : error) | Lost (e : error).

Definition row := gmap string value.
Definition database := gmap (string * Z) row.

Record Net := mkNet {
  api : nat -> endpoint -> reply;          (* reply to the n-th request *)
  fetched : nat                            (* requests made so far *)
}.

Record Sql := mkSql {
  login : option error;                    (* error of the 'connect' event, if any *)
  server : nat -> verdict;
  utc : nat -> value;                      (* GETUTCDATE() during the n-th request *)
  tables : database;
  journal : list (request * outcome);      (* every request passed to execSql *)
  opened : nat;                            (* connections established *)
  closed : nat                             (* calls of connection.close() *)
}.

Record World := mkWorld {
  net : Net;
  console : list line;
  sql : Sql
}.

(** ** The SQL server

    The statements are run on tables keyed by the integer primary key [id].
    A row maps column names to values; a column that was never assigned is
    absent (it holds the schema's default). *)

Fixpoint declared (name : string) (ps : list (string * value)) : option value :=
  match ps with
  | [] => None
  | (n, v) :: rest => if String.eqb name n then Some v else declared name rest
  end.

(** The key a validated [Int] parameter denotes: [Some None] is SQL NULL. *)
Definition key_of (v : value) : option (option Z) :=
  match v with
  | VNull | VUndefined => Some None
  | VNum x => if Pos.eqb (Qden x) 1 then Some (Some (Qnum x)) else None
  | _ => None
  end.

Definition eval (s : source) (ps : list (string * value)) (now : value) : option value :=
  match s with
  | Param n => declared n ps
  | GetUtcDate => Some now
  end.

(** The right-hand sides of [c1 = s1, c2 = s2, ...] (a SET list, or the
    column and VALUES lists of an INSERT); [None] when a parameter is not
    declared. *)
Fixpoint values (cols : list (string * source)) (ps : list (string * value))
    (now : value) : option (list (string * value)) :=
  match cols with
  | [] => Some []
  | (c, s) :: rest =>
      match eval s ps now, values rest ps now with
      | Some v, Some vs => Some ((c, v) :: vs)
      | _, _ => None
      end
  end.

(** The columns written into a row, in order. *)
Fixpoint write (vs : list (string * value)) (r : row) : row :=
  match vs with
  | [] => r
  | (c, v) :: rest => write rest (<[c := v]> r)
  end.

Section SqlServer.

(** The driver checks (and coerces) every parameter against its declared
    type before the request is sent; [None] is a validation error. *)
Variable validate : sqltype -> value -> option value.

Fixpoint bound (ps : list (string * (sqltype * value))) : option (list (string * value)) :=
  match ps with
  | [] => Some []
  | (n, (t, v)) :: rest =>
      match validate t v, bound rest with
      | Some v', Some rest' => Some ((n, v') :: rest')
      | _, _ => None
      end
  end.

(** The statement of [q] run at server time [now]: the new tables, or [None]
    when the request is in error.  Every table of the schema declares
    [last_updated DATETIME2 DEFAULT GETUTCDATE()], which an INSERT that does
    not list the column fills in. *)
Definition run (now : value) (q : request) (db : database) : option database :=
  match bound (parameters q) with
  | None => None
  | Some ps =>
      match sql_text q with
      | Merge t k set ins =>
          match values set ps now, values ins ps now, declared k ps ≫= key_of with
          | Some vset, Some vins, Some (Some z) =>
              match db !! (t, z) with
              | Some r => Some (<[(t, z) := write vset r]> db)
              | None => Some (<[(t, z) := write vins {["last_updated" := now]}]> db)
              end
          | _, _, _ => None                (* NULL never matches; id is the primary key *)
          end
      | Update t set k =>
          match values set ps now, declared k ps ≫= key_of with
          | Some vset, Some (Some z) =>
              match db !! (t, z) with
              | Some r => Some (<[(t, z) := write vset r]> db)
              | None => Some db            (* 0 rows affected *)
              end
          | Some _, Some None => Some db   (* id = NULL holds for no row *)
          | _, _ => None
          end
      end
  end.

End SqlServer.

(** The error the driver hands to the callback of a request it rejects. *)
Definition RequestError : error := Error [VStr "RequestError"] None.

(** ** Computations *)

Inductive result (A : Type) :=
| Ok (a : A)
| Throw (e : error)                        (* exception / rejected promise *)
| Abandon (e : error).                     (* 'error' event while a request is in flight *)
Arguments Ok {A} a.
Arguments Throw {A} e.
Arguments Abandon {A} e.

Definition M (A : Type) : Type := World -> World * result A.

Definition ret {A} (a : A) : M A := fun w => (w, Ok a).

Definition bind {A B} (m : M A) (k : A -> M B) : M B := fun w =>
  match m w with
  | (w', Ok a) => k a w'
  | (w', Throw e) => (w', Throw e)
  | (w', Abandon e) => (w', Abandon e)
  end.

Declare Scope js_scope.
Delimit Scope js_scope with js.
Bind Scope js_scope with M.
Notation "x ← y ; z" := (bind y (fun x => z))
  (at level 20, y at level 100, z at level 200, only parsing) : js_scope.
Notation "y ;; z" := (bind y (fun _ => z))
  (at level 100, z at level 200, only parsing, right associativity) : js_scope.
Local Open Scope js_scope.

Definition throw {A} (e : error) : M A := fun w => (w, Throw e).

(** [try { m } catch (e) { h e }]: an abandoned run is not resumed. *)
Definition try_catch {A} (m : M A) (h : error -> M A) : M A := fun w =>
  match m w with
  | (w', Throw e) => h e w'
  | r => r
  end.

Definition print (l : level) (t : text) : M unit := fun w =>
  (mkWorld (net w) (console w ++ [(l, t)]) (sql w), Ok tt).
Definition console_log := print Info.
Definition console_warn := print Warning.
Definition console_error := print Severe.

(** [v.k], throwing when [v] is [null] or [undefined]. *)
Definition prop (k : string) (v : value) : M value :=
  if nullish v
  then throw (TypeError [VStr "Cannot read properties of "; v; VStr (" (reading '" +:+ k +:+ "')")])
  else ret (field k v).

(** [await axios.get(url, { timeout: 30000, validateStatus: s => s === 200 })] *)
Definition axios_get (url : endpoint) : M value := fun w =>
  let n := fetched (net w) in
  let w' := mkWorld (mkNet (api (net w)) (S n)) (console w) (sql w) in
  match api (net w) n url with
  | Replied data => (w', Ok data)
  | Rejected e => (w', Throw e)
  end.

(** The [catch] block every fetch function ends with. *)
Definition report {A} (label : string) (e : error) : M A :=
  console_error (VStr label :: message e);;
  match response e with
  | Some (status, statusText) =>
      console_error [VStr "API returned status "; status; VStr ": "; statusText]
  | None => ret tt
  end;;
  throw e.

(** [arr.find(x => x.k)]: the first element whose [k] is truthy. *)
Fixpoint find_by (k : string) (l : list value) : M value :=
  match l with
  | [] => ret VUndefined
  | x :: rest =>
      c ← prop k x;
      if truthy c then ret x else find_by k rest
  end.

(** [fixture.started === true && fixture.finished === false] *)
Definition live (fixture : value) : bool :=
  is_true (field "started" fixture) && is_false (field "finished" fixture).

(** [arr.filter(fixture => fixture.started === true && fixture.finished === false)] *)
Fixpoint filter_live (l : list value) : M (list value) :=
  match l with
  | [] => ret ([] : list value)
  | x :: rest =>
      started ← prop "started" x;
      keep ← (if is_true started
              then finished ← prop "finished" x; ret (is_false finished)
              else ret false : M bool);
      tl ← filter_live rest;
      ret (if keep then x :: tl else tl)
  end.

(** [events.find(...)] on an arbitrary value. *)
Definition find_current (events : value) : M value :=
  match events with
  | VArr l => find_by "is_current" l
  | VUndefined | VNull =>
      throw (TypeError [VStr "Cannot read properties of "; events; VStr " (reading 'find')"])
  | _ => throw (TypeError [VStr "events.find is not a function"])
  end.

(** *** checkIfGameIsLive (part_000, lines 374-429) *)
Definition checkIfGameIsLive : M bool :=
  try_catch
    (data ← axios_get BootstrapStatic;
     (if negb (truthy data) || negb (truthy (field "events" data))
      then throw (new_Error [VStr "Bootstrap API returned invalid events data"])
      else ret tt);;
     let events := field "events" data in
     currentGameweek ← find_current events;
     if negb (truthy currentGameweek)
     then console_log [VStr "No current gameweek found"];; ret false
     else
       console_log [VStr "Current gameweek: "; field "id" currentGameweek];;
       fixtures ← axios_get (FixturesOfEvent (field "id" currentGameweek));
       match fixtures with
       | VArr l =>
           liveFixtures ← filter_live l;
           if js_lt (num 0) (num (length liveFixtures))
           then console_log [VStr "Found "; num (length liveFixtures); VStr " live fixture(s)"];;
                ret true
           else console_log [VStr "No live fixtures at this time"];; ret false
       | _ => throw (new_Error [VStr "Fixtures API returned invalid data"])
       end)
    (report "Error checking if game is live:").

(** The first variant of the script ([src/updateScript.js], lines 35-71)
    differs in what it checks on the responses. *)
Module Legacy.

Definition checkIfGameIsLive : M bool :=
  try_catch
    (data ← axios_get BootstrapStatic;
     events ← prop "events" data;
     currentGameweek ← find_current events;
     if negb (truthy currentGameweek)
     then console_log [VStr "No current gameweek found"];; ret false
     else
       console_log [VStr "Current gameweek: "; field "id" currentGameweek];;
       fixtures ← axios_get (FixturesOfEvent (field "id" currentGameweek));
       liveFixtures ←
         match fixtures with
         | VArr l => filter_live l
         | VUndefined | VNull =>
             throw (TypeError [VStr "Cannot read properties of "; fixtures; VStr " (reading 'filter')"])
         | _ => throw (TypeError [VStr "fixtures.filter is not a function"])
         end;
       if js_lt (num 0) (num (length liveFixtures))
       then console_log [VStr "Found "; num (length liveFixtures); VStr " live fixture(s)"];;
            ret true
       else console_log [VStr "No live fixtures at this time"];; ret false)
    (fun e => console_error (VStr "Error checking if game is live:" :: message e);; throw e).

(** [getCurrentGameweekData] of the first variant (lines 74-99): the
    responses are used as they come. *)
Definition getCurrentGameweekData : M value :=
  try_catch
    (data ← axios_get BootstrapStatic;
     events ← prop "events" data;
     currentGameweek ← find_current events;
     if negb (truthy currentGameweek)
     then throw (new_Error [VStr "No current gameweek found"])
     else
       console_log [VStr "Fetching live data for gameweek "; field "id" currentGameweek; VStr "..."];;
       liveData ← axios_get (EventLive (field "id" currentGameweek));
       elements ← prop "elements" liveData;
       len ← prop "length" elements;
       console_log [VStr "Retrieved data for "; len; VStr " players"];;
       ret (VObj [("gameweekId", field "id" currentGameweek); ("elements", elements)]))
    (fun e => console_error (VStr "Error fetching gameweek data:" :: message e);; throw e).

End Legacy.

(** ** Fetching (part_000, lines 431-523) *)

(** [v?.length || 0] *)
Definition length_or_0 (v : value) : value :=
  or_else (if nullish v then VUndefined else field "length" v) (num 0).

Definition getBootstrapData : M value :=
  try_catch
    (console_log [VStr "Fetching bootstrap data..."];;
     data ← axios_get BootstrapStatic;
     if negb (truthy data)
     then throw (new_Error [VStr "Bootstrap API returned empty response"])
     else
       console_log [VStr "Retrieved "; length_or_0 (field "teams" data); VStr " teams, ";
                    length_or_0 (field "elements" data); VStr " players, ";
                    length_or_0 (field "events" data); VStr " events"];;
       ret data)
    (report "Error fetching bootstrap data:").

Definition getCurrentGameweekData : M value :=
  try_catch
    (data ← axios_get BootstrapStatic;
     (if negb (truthy data) || negb (truthy (field "events" data))
      then throw (new_Error [VStr "Bootstrap API returned invalid events data"])
      else ret tt);;
     currentGameweek ← find_current (field "events" data);
     if negb (truthy currentGameweek)
     then throw (new_Error [VStr "No current gameweek found"])
     else
       console_log [VStr "Fetching live data for gameweek "; field "id" currentGameweek; VStr "..."];;
       liveData ← axios_get (EventLive (field "id" currentGameweek));
       if negb (truthy liveData) || negb (truthy (field "elements" liveData))
       then throw (new_Error [VStr "Live API returned invalid player data"])
       else
         console_log [VStr "Retrieved live stats for "; field "length" (field "elements" liveData);
                      VStr " players"];;
         ret (VObj [("gameweekId", field "id" currentGameweek);
                    ("elements", field "elements" liveData)]))
    (report "Error fetching gameweek data:").

Definition getFixturesData : M value :=
  try_catch
    (console_log [VStr "Fetching fixtures data..."];;
     data ← axios_get AllFixtures;
     if negb (truthy data) || negb (isArray data)
     then throw (new_Error [VStr "Fixtures API returned invalid data"])
     else
       console_log [VStr "Retrieved "; field "length" data; VStr " fixtures"];;
       ret data)
    (report "Error fetching fixtures data:").

(** ** Validation (part_000, lines 291-371) *)

(** [!x || !Array.isArray(x) || x.length === 0] *)
Definition invalid_or_empty (x : value) : bool :=
  negb (truthy x) || negb (isArray x) || js_eq_num (field "length" x) (num 0).

Definition expectedTeamsCount : nat := 20.
Definition minPlayersCount : nat := 400.
Definition minEventsCount : nat := 38.

Definition validateData (bootstrapData gameweekData fixturesData : value) : M bool :=
  console_log [VStr "Validating data before database update..."];;
  if negb (truthy bootstrapData)
  then console_error [VStr "Bootstrap data is null or undefined"];; ret false
  else if invalid_or_empty (field "teams" bootstrapData)
  then console_error [VStr "Invalid or empty teams data"];; ret false
  else if invalid_or_empty (field "elements" bootstrapData)
  then console_error [VStr "Invalid or empty players (elements) data"];; ret false
  else if invalid_or_empty (field "events" bootstrapData)
  then console_error [VStr "Invalid or empty events data"];; ret false
  else if invalid_or_empty (field "element_types" bootstrapData)
  then console_error [VStr "Invalid or empty element_types data"];; ret false
  else if negb (truthy gameweekData)
  then console_error [VStr "Gameweek data is null or undefined"];; ret false
  else if negb (truthy (field "gameweekId" gameweekData))
          || negb (isNumber (field "gameweekId" gameweekData))
  then console_error [VStr "Invalid gameweek ID"];; ret false
  else if invalid_or_empty (field "elements" gameweekData)
  then console_error [VStr "Invalid or empty gameweek elements data"];; ret false
  else if invalid_or_empty fixturesData
  then console_error [VStr "Invalid or empty fixtures data"];; ret false
  else
    (if negb (js_eq_num (field "length" (field "teams" bootstrapData)) (num expectedTeamsCount))
     then console_warn [VStr "Warning: Expected "; num expectedTeamsCount; VStr " teams, but got ";
                        field "length" (field "teams" bootstrapData)]
     else ret tt);;
    if js_lt (field "length" (field "elements" bootstrapData)) (num minPlayersCount)
    then console_error [VStr "Invalid player count: Expected at least "; num minPlayersCount;
                        VStr " players, but got ";
                        field "length" (field "elements" bootstrapData)];;
         ret false
    else
      (if js_lt (field "length" (field "events" bootstrapData)) (num minEventsCount)
       then console_warn [VStr "Warning: Expected "; num minEventsCount; VStr " events, but got ";
                          field "length" (field "events" bootstrapData)]
       else ret tt);;
      console_log [VStr "Data validation passed:"];;
      console_log [VStr "- "; field "length" (field "teams" bootstrapData); VStr " teams"];;
      console_log [VStr "- "; field "length" (field "elements" bootstrapData); VStr " players"];;
      console_log [VStr "- "; field "length" (field "events" bootstrapData); VStr " events"];;
      console_log [VStr "- "; field "length" (field "element_types" bootstrapData);
                   VStr " element types"];;
      console_log [VStr "- "; field "length" fixturesData; VStr " fixtures"];;
      console_log [VStr "- "; field "length" (field "elements" gameweekData);
                   VStr " live player stats for gameweek "; field "gameweekId" gameweekData];;
      ret true.

(** ** Persistence (part_000, lines 525-976) *)

Definition cols (names : list string) : list (string * source) :=
  map (fun n => (n, Param n)) names.

(** Parameter bindings: [addParameter(k, t, r.k)] and its defaulting forms. *)
Definition plain (t : sqltype) (k : string) (r : value) : string * (sqltype * value) :=
  (k, (t, field k r)).
Definition defaulted (t : sqltype) (k : string) (d : value) (r : value)
  : string * (sqltype * value) :=
  (k, (t, or_else (field k r) d)).
(** [r.k ? new Date(r.k) : null] *)
Definition dated (k : string) (r : value) : string * (sqltype * value) :=
  (k, (DateTime2, if truthy (field k r) then VDate (field k r) else VNull)).

Definition team_columns : list string :=
  ["name"; "short_name"; "code"; "position"; "strength";
   "strength_overall_home"; "strength_overall_away";
   "strength_attack_home"; "strength_attack_away";
   "strength_defence_home"; "strength_defence_away"; "pulse_id"].

Definition teams_merge : statement :=
  Merge "teams" "id"
    (cols team_columns ++ [("last_updated", GetUtcDate)])
    (cols ("id" :: team_columns)).

Definition team_request (team : value) : request :=
  Request teams_merge
    [plain Int "id" team; plain NVarChar "name" team; plain NVarChar "short_name" team;
     plain Int "code" team;
     defaulted Int "position" VNull team; defaulted Int "strength" VNull team;
     defaulted Int "strength_overall_home" VNull team;
     defaulted Int "strength_overall_away" VNull team;
     defaulted Int "strength_attack_home" VNull team;
     defaulted Int "strength_attack_away" VNull team;
     defaulted Int "strength_defence_home" VNull team;
     defaulted Int "strength_defence_away" VNull team;
     defaulted Int "pulse_id" VNull team].

Definition element_type_columns : list string :=
  ["plural_name"; "plural_name_short"; "singular_name"; "singular_name_short";
   "squad_select"; "squad_min_play"; "squad_max_play"].

Definition element_types_merge : statement :=
  Merge "element_types" "id"
    (cols element_type_columns ++ [("last_updated", GetUtcDate)])
    (cols ("id" :: element_type_columns)).

Definition element_type_request (type : value) : request :=
  Request element_types_merge
    [plain Int "id" type; plain NVarChar "plural_name" type;
     plain NVarChar "plural_name_short" type; plain NVarChar "singular_name" type;
     plain NVarChar "singular_name_short" type;
     defaulted Int "squad_select" VNull type; defaulted Int "squad_min_play" VNull type;
     defaulted Int "squad_max_play" VNull type].

Definition event_columns : list string :=
  ["name"; "deadline_time"; "average_entry_score"; "finished"; "data_checked";
   "highest_scoring_entry"; "highest_score"; "is_previous"; "is_current"; "is_next";
   "most_selected"; "most_transferred_in"; "top_element"; "transfers_made";
   "most_captained"; "most_vice_captained"].

Definition events_merge : statement :=
  Merge "events" "id"
    (cols event_columns ++ [("last_updated", GetUtcDate)])
    (cols ("id" :: event_columns)).

Definition event_request (event : value) : request :=
  Request events_merge
    [plain Int "id" event; plain NVarChar "name" event; dated "deadline_time" event;
     defaulted Int "average_entry_score" VNull event;
     defaulted Bit "finished" (VBool false) event;
     defaulted Bit "data_checked" (VBool false) event;
     defaulted Int "highest_scoring_entry" VNull event;
     defaulted Int "highest_score" VNull event;
     defaulted Bit "is_previous" (VBool false) event;
     defaulted Bit "is_current" (VBool false) event;
     defaulted Bit "is_next" (VBool false) event;
     defaulted Int "most_selected" VNull event;
     defaulted Int "most_transferred_in" VNull event;
     defaulted Int "top_element" VNull event;
     defaulted Int "transfers_made" VNull event;
     defaulted Int "most_captained" VNull event;
     defaulted Int "most_vice_captained" VNull event].

Definition fixture_columns : list string :=
  ["code"; "event"; "finished"; "finished_provisional"; "kickoff_time"; "minutes";
   "started"; "team_a"; "team_h"; "team_a_score"; "team_h_score";
   "team_a_difficulty"; "team_h_difficulty"; "pulse_id"].

Definition fixtures_merge : statement :=
  Merge "fixtures" "id"
    (cols fixture_columns ++ [("last_updated", GetUtcDate)])
    (cols ("id" :: fixture_columns)).

Definition fixture_request (fixture : value) : request :=
  Request fixtures_merge
    [plain Int "id" fixture; plain Int "code" fixture;
     defaulted Int "event" VNull fixture;
     defaulted Bit "finished" (VBool false) fixture;
     defaulted Bit "finished_provisional" (VBool false) fixture;
     dated "kickoff_time" fixture;
     defaulted Int "minutes" (num 0) fixture;
     defaulted Bit "started" (VBool false) fixture;
     plain Int "team_a" fixture; plain Int "team_h" fixture;
     defaulted Int "team_a_score" VNull fixture;
     defaulted Int "team_h_score" VNull fixture;
     defaulted Int "team_a_difficulty" VNull fixture;
     defaulted Int "team_h_difficulty" VNull fixture;
     defaulted Int "pulse_id" VNull fixture].

(** The columns the MATCHED branch of the players MERGE sets; the INSERT
    branch also fills [code]. *)
Definition player_columns : list string :=
  ["web_name"; "first_name"; "second_name"; "team"; "element_type"; "now_cost";
   "total_points"; "form"; "points_per_game"; "selected_by_percent"; "status"].

Definition players_merge : statement :=
  Merge "players" "id"
    (cols player_columns ++ [("last_updated", GetUtcDate)])
    (cols ["id"; "web_name"; "first_name"; "second_name"; "team"; "element_type"; "code";
           "now_cost"; "total_points"; "form"; "points_per_game"; "selected_by_percent";
           "status"]).

Definition stat_columns : list string :=
  ["event_points"; "minutes"; "goals_scored"; "assists"; "clean_sheets";
   "goals_conceded"; "own_goals"; "penalties_saved"; "penalties_missed";
   "yellow_cards"; "red_cards"; "saves"; "bonus"; "bps";
   "influence"; "creativity"; "threat"; "ict_index"].

Definition players_update : statement :=
  Update "players" (cols stat_columns ++ [("last_updated", GetUtcDate)]) "player_id".

(** [for (const x of v)]: the values the loop visits. *)
Definition iterate (v : value) : M (list value) :=
  match v with
  | VArr l => ret l
  | VStr s => ret (map (fun c => VStr (String c EmptyString)) (String.list_ascii_of_string s))
  | _ => throw (TypeError [v; VStr " is not iterable"])
  end.

(** [for (let i = 0; i < v.length; i++) ... v[i]] on a [v] that is not
    [null] or [undefined]: the values [v[i]] the loop visits.  An array-like
    object is followed when its [length] is a number. *)
Definition indexed (v : value) : list value :=
  match v with
  | VArr l => l
  | VStr s => map (fun c => VStr (String c EmptyString)) (String.list_ascii_of_string s)
  | VObj fs =>
      match assoc "length" fs with
      | VNum x => map (fun i : nat => assoc (pretty i) fs) (seq 0 (Z.to_nat (Qceiling x)))
      | _ => []
      end
  | _ => []
  end.

Fixpoint for_each {S : Type} (l : list value) (body : value -> S -> M S) (s : S) : M S :=
  match l with
  | [] => ret s
  | x :: rest => s' ← body x s; for_each rest body s'
  end.

Section Script.

Variable parseFloat : value -> value.
Variable validate : sqltype -> value -> option value.

Definition player_request (player : value) : request :=
  Request players_merge
    [plain Int "id" player; plain NVarChar "web_name" player;
     defaulted NVarChar "first_name" VNull player;
     defaulted NVarChar "second_name" VNull player;
     plain Int "team" player; plain Int "element_type" player; plain Int "code" player;
     plain Int "now_cost" player;
     defaulted Int "total_points" (num 0) player;
     ("form", (Decimal, or_else (parseFloat (field "form" player)) VNull));
     ("points_per_game", (Decimal, or_else (parseFloat (field "points_per_game" player)) VNull));
     ("selected_by_percent",
       (Decimal, or_else (parseFloat (field "selected_by_percent" player)) VNull));
     defaulted NVarChar "status" (VStr "a") player].

Definition stats_request (element stats : value) : request :=
  Request players_update
    [("player_id", (Int, field "id" element));
     ("event_points", (Int, or_else (field "total_points" stats) (num 0)));
     defaulted Int "minutes" (num 0) stats; defaulted Int "goals_scored" (num 0) stats;
     defaulted Int "assists" (num 0) stats; defaulted Int "clean_sheets" (num 0) stats;
     defaulted Int "goals_conceded" (num 0) stats; defaulted Int "own_goals" (num 0) stats;
     defaulted Int "penalties_saved" (num 0) stats;
     defaulted Int "penalties_missed" (num 0) stats;
     defaulted Int "yellow_cards" (num 0) stats; defaulted Int "red_cards" (num 0) stats;
     defaulted Int "saves" (num 0) stats; defaulted Int "bonus" (num 0) stats;
     defaulted Int "bps" (num 0) stats;
     ("influence", (Decimal, or_else (parseFloat (field "influence" stats)) (num 0)));
     ("creativity", (Decimal, or_else (parseFloat (field "creativity" stats)) (num 0)));
     ("threat", (Decimal, or_else (parseFloat (field "threat" stats)) (num 0)));
     ("ict_index", (Decimal, or_else (parseFloat (field "ict_index" stats)) (num 0)))].

(** *** The connection *)

Definition journaled (w : World) (q : request) (o : outcome) (db : database) : World :=
  let s := sql w in
  mkWorld (net w) (console w)
    (mkSql (login s) (server s) (utc s) db (journal s ++ [(q, o)]) (opened s) (closed s)).

(** [connection.execSql(request)] and the settling of the promise around it:
    the callback's [err] rejects, no [err] resolves.  When the connection
    itself emits 'error' before that callback is called, the handler of lines
    574-577 rejects the promise of [updateDatabase] while the request is
    still in flight, and [main] ends the process from its [catch]. *)
Definition execSql (q : request) : M unit := fun w =>
  let s := sql w in
  let n := length (journal s) in
  match server s n with
  | Accept =>
      match run validate (utc s n) q (tables s) with
      | Some db => (journaled w q Applied db, Ok tt)
      | None => (journaled w q (Failed RequestError) (tables s), Throw RequestError)
      end
  | Refuse e => (journaled w q (Failed e) (tables s), Throw e)
  | Drop e =>
      (console_error (VStr "Connection error:" :: message e);; fun w' => (w', Abandon e))
        (journaled w q (Lost e) (tables s))
  end.

(** [connection.close()] *)
Definition close : M unit := fun w =>
  let s := sql w in
  (mkWorld (net w) (console w)
     (mkSql (login s) (server s) (utc s) (tables s) (journal s) (opened s) (S (closed s))),
   Ok tt).

Definition established : M unit := fun w =>
  let s := sql w in
  (mkWorld (net w) (console w)
     (mkSql (login s) (server s) (utc s) (tables s) (journal s) (S (opened s)) (closed s)),
   Ok tt).

(** [await new Promise((resolve, reject) => { ... addParameter(.., x.k) ...;
    connection.execSql(request) })]: reading a field of [x] throws inside the
    executor when [x] is [null] or [undefined]. *)
Definition submit (build : value -> request) (x : value) : M unit :=
  if nullish x
  then throw (TypeError [VStr "Cannot read properties of "; x])
  else execSql (build x).

(** *** The five merge-upserts *)

Definition updateTeams (teams : value) : M unit :=
  n ← prop "length" teams;
  console_log [VStr "Updating "; n; VStr " teams..."];;
  l ← iterate teams;
  updateCount ← for_each l (fun team updateCount =>
                   submit team_request team;; ret (S updateCount)) 0;
  console_log [VStr "Teams updated: "; num updateCount].

Definition updateElementTypes (elementTypes : value) : M unit :=
  n ← prop "length" elementTypes;
  console_log [VStr "Updating "; n; VStr " element types..."];;
  l ← iterate elementTypes;
  updateCount ← for_each l (fun type updateCount =>
                   submit element_type_request type;; ret (S updateCount)) 0;
  console_log [VStr "Element types updated: "; num updateCount].

Definition updateEvents (events : value) : M unit :=
  n ← prop "length" events;
  console_log [VStr "Updating "; n; VStr " events..."];;
  l ← iterate events;
  updateCount ← for_each l (fun event updateCount =>
                   submit event_request event;; ret (S updateCount)) 0;
  console_log [VStr "Events updated: "; num updateCount].

Definition updateFixtures (fixtures : value) : M unit :=
  n ← prop "length" fixtures;
  console_log [VStr "Updating "; n; VStr " fixtures..."];;
  l ← iterate fixtures;
  updateCount ← for_each l (fun fixture updateCount =>
                   submit fixture_request fixture;; ret (S updateCount)) 0;
  console_log [VStr "Fixtures updated: "; num updateCount].

Definition updatePlayers (players : value) : M unit :=
  n ← prop "length" players;
  console_log [VStr "Updating "; n; VStr " players (bootstrap data)..."];;
  l ← iterate players;
  updateCount ← for_each l (fun player updateCount =>
                   submit player_request player;;
                   (if Nat.eqb (S updateCount mod 100) 0
                    then console_log [VStr "Progress: "; num (S updateCount); VStr "/"; n;
                                      VStr " players updated"]
                    else ret tt);;
                   ret (S updateCount)) 0;
  console_log [VStr "Players updated: "; num updateCount].

(** *** The live statistics *)

(** One turn of the loop of [updatePlayerStats]; the state is
    [(updateCount, errorCount)]. *)
Definition updateOne (len : value) (element : value) (counts : nat * nat) : M (nat * nat) :=
  let '(updateCount, errorCount) := counts in
  stats ← prop "stats" element;
  try_catch
    ((if nullish stats
      then throw (TypeError [VStr "Cannot read properties of "; stats;
                             VStr " (reading 'total_points')"])
      else execSql (stats_request element stats));;
     (if Nat.eqb (S updateCount mod 100) 0
      then console_log [VStr "Progress: "; num (S updateCount); VStr "/"; len;
                        VStr " players updated"]
      else ret tt);;
     ret (S updateCount, errorCount))
    (fun err =>
       console_error ([VStr "Error updating player "; field "id" element; VStr ":"]
                        ++ message err);;
       ret (updateCount, S errorCount)).

(** The loop and the summary line, returning both counters. *)
Definition updateAll (elements : value) : M (nat * nat) :=
  console_log [VStr "Updating "; field "length" elements; VStr " players..."];;
  counts ← for_each (indexed elements) (updateOne (field "length" elements)) (0, 0);
  console_log [VStr "Update complete: "; num (fst counts); VStr " successful, ";
               num (snd counts); VStr " errors"];;
  ret counts.

Definition updatePlayerStats (gameweekData : value) : M unit :=
  gameweekId ← prop "gameweekId" gameweekData;
  elements ← prop "elements" gameweekData;
  len ← prop "length" elements;
  if js_eq_num len (num 0)
  then console_log [VStr "No player data to update"]
  else
    counts ← updateAll elements;
    if Nat.ltb 0 (snd counts)
    then throw (new_Error [VStr "Failed to update "; num (snd counts); VStr " players"])
    else ret tt.

(** *** updateDatabase (lines 526-581) *)

(** The promise [updateDatabase] returns is settled by whichever handler
    calls [resolve] or [reject] first. *)
Definition settled {A} (m : M A) : M A := fun w =>
  match m w with
  | (w', Abandon e) => (w', Throw e)
  | r => r
  end.

Definition updateDatabase (bootstrapData gameweekData fixturesData : value) : M unit :=
  fun w =>
    match login (sql w) with
    | Some err =>
        (console_error (VStr "Database connection error:" :: message err);; throw err) w
    | None =>
        (established;;
         console_log [VStr "Connected to SQL database"];;
         settled
           (try_catch
              (teams ← prop "teams" bootstrapData;
               updateTeams teams;;
               element_types ← prop "element_types" bootstrapData;
               updateElementTypes element_types;;
               events ← prop "events" bootstrapData;
               updateEvents events;;
               updateFixtures fixturesData;;
               elements ← prop "elements" bootstrapData;
               updatePlayers elements;;
               updatePlayerStats gameweekData;;
               close)
              (fun error => close;; throw error))) w
    end.

(** *** main (lines 253-288)

    Every path of [main] ends in [process.exit]; the model returns the exit
    code. *)
Definition run_main : M Z :=
  console_log [VStr "*** Update script started at:"; VDate VUndefined];;
  try_catch
    (isGameLive ← checkIfGameIsLive;
     if negb isGameLive
     then console_log [VStr "No live games. Skipping update."];; ret 0%Z
     else
       console_log [VStr "Live game detected! Updating database..."];;
       bootstrapData ← getBootstrapData;
       gameweekData ← getCurrentGameweekData;
       fixturesData ← getFixturesData;
       valid ← validateData bootstrapData gameweekData fixturesData;
       if negb valid
       then console_error [VStr "Data validation failed. Skipping database update to prevent data corruption."];;
            ret 1%Z
       else
         updateDatabase bootstrapData gameweekData fixturesData;;
         console_log [VStr "Database update completed successfully"];;
         ret 0%Z)
    (fun error => console_error (VStr "Error in update script:" :: message error);; ret 1%Z).

Definition main (w : World) : World * Z :=
  match run_main w with
  | (w', Ok code) => (w', code)
  | (w', Throw _) | (w', Abandon _) => (w', 1%Z)
  end.

End Script.

(** ** The schema (schema.sql)

    The [CREATE TABLE] statements, column by column; the indexes are left
    out. *)

Inductive coltype :=
| INT
| NVARCHAR (size : option nat)             (* [None] is NVARCHAR(MAX) *)
| BIT
| DATETIME2
| DECIMAL (precision scale : nat).

Inductive default_clause :=
| NoDefault
| DefaultZero                              (* DEFAULT 0 *)
| DefaultNow.                              (* DEFAULT GETUTCDATE() *)

Record column := Column {
  column_name : string;
  column_type : coltype;
  not_null : bool;                         (* NOT NULL, or PRIMARY KEY *)
  column_default : default_clause
}.

Record table := Table {
  table_name : string;
  primary_key : string;
  columns : list column;
  foreign_keys : list (string * string)    (* column, referenced table *)
}.

Definition nullable (n : string) (t : coltype) : column := Column n t false NoDefault.
Definition required (n : string) (t : coltype) : column := Column n t true NoDefault.
Definition zeroed (n : string) (t : coltype) : column := Column n t false DefaultZero.
Definition stamp : column := Column "last_updated" DATETIME2 false DefaultNow.

Definition teams_table : table :=
  Table "teams" "id"
    [required "id" INT; required "name" (NVARCHAR (Some 100));
     required "short_name" (NVARCHAR (Some 10)); required "code" INT;
     nullable "position" INT; nullable "strength" INT;
     nullable "strength_overall_home" INT; nullable "strength_overall_away" INT;
     nullable "strength_attack_home" INT; nullable "strength_attack_away" INT;
     nullable "strength_defence_home" INT; nullable "strength_defence_away" INT;
     nullable "pulse_id" INT; stamp]
    [].

Definition element_types_table : table :=
  Table "element_types" "id"
    [required "id" INT; required "plural_name" (NVARCHAR (Some 50));
     required "plural_name_short" (NVARCHAR (Some 10));
     required "singular_name" (NVARCHAR (Some 50));
     required "singular_name_short" (NVARCHAR (Some 10));
     nullable "squad_select" INT; nullable "squad_min_play" INT;
     nullable "squad_max_play" INT; stamp]
    [].

Definition players_table : table :=
  Table "players" "id"
    [required "id" INT; required "web_name" (NVARCHAR (Some 100));
     nullable "first_name" (NVARCHAR (Some 100)); nullable "second_name" (NVARCHAR (Some 100));
     required "team" INT; required "element_type" INT; required "code" INT;
     required "now_cost" INT; zeroed "cost_change_event" INT; zeroed "cost_change_start" INT;
     zeroed "total_points" INT; zeroed "event_points" INT;
     nullable "form" (DECIMAL 5 2); nullable "points_per_game" (DECIMAL 5 2);
     nullable "selected_by_percent" (DECIMAL 5 2);
     nullable "status" (NVARCHAR (Some 1)); nullable "news" (NVARCHAR None);
     nullable "news_added" DATETIME2;
     nullable "chance_of_playing_next_round" INT; nullable "chance_of_playing_this_round" INT;
     zeroed "minutes" INT; zeroed "goals_scored" INT; zeroed "assists" INT;
     zeroed "clean_sheets" INT; zeroed "goals_conceded" INT; zeroed "own_goals" INT;
     zeroed "penalties_saved" INT; zeroed "penalties_missed" INT;
     zeroed "yellow_cards" INT; zeroed "red_cards" INT; zeroed "saves" INT;
     zeroed "bonus" INT; zeroed "bps" INT;
     zeroed "expected_goals" (DECIMAL 10 2); zeroed "expected_assists" (DECIMAL 10 2);
     zeroed "expected_goal_involvements" (DECIMAL 10 2);
     zeroed "expected_goals_conceded" (DECIMAL 10 2);
     zeroed "influence" (DECIMAL 10 2); zeroed "creativity" (DECIMAL 10 2);
     zeroed "threat" (DECIMAL 10 2); zeroed "ict_index" (DECIMAL 10 2);
     zeroed "starts" INT;
     nullable "influence_rank" INT; nullable "influence_rank_type" INT;
     nullable "creativity_rank" INT; nullable "creativity_rank_type" INT;
     nullable "threat_rank" INT; nullable "threat_rank_type" INT;
     nullable "ict_index_rank" INT; nullable "ict_index_rank_type" INT;
     nullable "corners_and_indirect_freekicks_order" INT;
     nullable "corners_and_indirect_freekicks_text" (NVARCHAR (Some 100));
     nullable "direct_freekicks_order" INT;
     nullable "direct_freekicks_text" (NVARCHAR (Some 100));
     nullable "penalties_order" INT; nullable "penalties_text" (NVARCHAR (Some 100));
     zeroed "in_dreamteam" BIT; zeroed "dreamteam_count" INT; zeroed "special" BIT;
     nullable "photo" (NVARCHAR (Some 200)); stamp]
    [("team", "teams"); ("element_type", "element_types")].

Definition events_table : table :=
  Table "events" "id"
    [required "id" INT; required "name" (NVARCHAR (Some 50));
     nullable "deadline_time" DATETIME2; nullable "average_entry_score" INT;
     zeroed "finished" BIT; zeroed "data_checked" BIT;
     nullable "highest_scoring_entry" INT; nullable "highest_score" INT;
     zeroed "is_previous" BIT; zeroed "is_current" BIT; zeroed "is_next" BIT;
     zeroed "cup_leagues_created" BIT; zeroed "h2h_ko_matches_created" BIT;
     nullable "chip_plays" (NVARCHAR None);
     nullable "most_selected" INT; nullable "most_transferred_in" INT;
     nullable "top_element" INT; nullable "top_element_info" (NVARCHAR None);
     nullable "transfers_made" INT; nullable "most_captained" INT;
     nullable "most_vice_captained" INT; stamp]
    [].

Definition fixtures_table : table :=
  Table "fixtures" "id"
    [required "id" INT; required "code" INT; nullable "event" INT;
     zeroed "finished" BIT; zeroed "finished_provisional" BIT;
     nullable "kickoff_time" DATETIME2; zeroed "minutes" INT;
     zeroed "provisional_start_time" BIT; zeroed "started" BIT;
     required "team_a" INT; required "team_h" INT;
     nullable "team_a_score" INT; nullable "team_h_score" INT;
     nullable "team_a_difficulty" INT; nullable "team_h_difficulty" INT;
     nullable "stats" (NVARCHAR None); nullable "pulse_id" INT; stamp]
    [("team_a", "teams"); ("team_h", "teams"); ("event", "events")].

Definition metadata_table : table :=
  Table "metadata" "key_name"
    [required "key_name" (NVARCHAR (Some 100)); nullable "value_text" (NVARCHAR None);
     nullable "value_int" INT; nullable "value_datetime" DATETIME2; stamp]
    [].

(** The tables in the order the script creates them. *)
Definition schema : list table :=
  [teams_table; element_types_table; players_table; events_table; fixtures_table;
   metadata_table].

(** ** initDatabase.js

    The check run before the first deployment: log in, ask the server
    whether [dbo.players] exists, exit with 0 or 1. *)
Module Init.

(** What happens to the one request once it is handed to the driver. *)
Inductive course :=
| Answered (callback : bool)               (* the 'row' event; then, unless the process
                                              has exited by then, the callback without error *)
| Errored (err : error)                    (* callback(err), no row *)
| Broken (err : error) (callback : option (bool * error)).
    (* the connection emits 'error' with the request in flight; [callback] is
       what the driver does with the request before the process exits:
       nothing, or its callback with an error, before the 'error' handler
       ([true]) or after it *)

Record Server := mkServer {
  connect_error : option error;            (* err of the 'connect' event *)
  has_players : bool;                      (* dbo.players is a user table *)
  request_course : course
}.

Record State := mkState {
  out : list line;
  closes : nat;                            (* calls of connection.close() *)
  promise : option (option error)          (* pending / resolved / rejected *)
}.

Definition log (l : level) (t : text) (s : State) : State :=
  mkState (out s ++ [(l, t)]) (closes s) (promise s).

Definition close (s : State) : State := mkState (out s) (S (closes s)) (promise s).

(** [resolve()] and [reject(e)]: only the first call settles the promise. *)
Definition settle (v : option error) (s : State) : State :=
  match promise s with
  | None => mkState (out s) (closes s) (Some v)
  | Some _ => s
  end.
Definition resolve : State -> State := settle None.
Definition reject (e : error) : State -> State := settle (Some e).

(** The row [checkTableQuery] selects: one of its two messages. *)
Definition checkTableQuery (players : bool) : string :=
  if players then "Database ready: players table found"
  else "ERROR: players table not found. Please run the schema.sql file first.".

(** [request.on('row', ...)] *)
Definition on_row (message : string) (s : State) : State :=
  let s := log Info [VStr message] s in
  if String.prefix "ERROR" message then reject (new_Error [VStr message]) s else s.

(** The callback of [new sql.Request(checkTableQuery, ...)]. *)
Definition on_done (err : option error) (s : State) : State :=
  match err with
  | Some e => reject e (close (log Severe (VStr "Query error:" :: message e) s))
  | None => resolve (close s)
  end.

(** [connection.on('error', ...)] *)
Definition on_error (e : error) (s : State) : State :=
  reject e (log Severe (VStr "Connection error:" :: message e) s).

(** [connection.on('connect', ...)] and what follows [execSql]. *)
Definition initDatabase (srv : Server) (s : State) : State :=
  match connect_error srv with
  | Some e => reject e (log Severe (VStr "Database connection error:" :: message e) s)
  | None =>
      let s := log Info [VStr "Connected to SQL database"] s in
      match request_course srv with
      | Answered callback =>
          let s := on_row (checkTableQuery (has_players srv)) s in
          match promise s with
          | Some _ => if callback then on_done None s else s
          | None => on_done None s
          end
      | Errored e => on_done (Some e) s
      | Broken e None => on_error e s
      | Broken e (Some (true, e')) => on_error e (on_done (Some e') s)
      | Broken e (Some (false, e')) => on_done (Some e') (on_error e s)
      end
  end.

(** [initDatabase().then(...).catch(...)]: the exit code, if the promise is
    ever settled. *)
Definition script (srv : Server) : State * option Z :=
  let s := initDatabase srv (mkState [] 0 None) in
  match promise s with
  | Some None =>
      (log Info [VStr "Database initialization check completed"] s, Some 0%Z)
  | Some (Some e) =>
      (log Severe (VStr "Database initialization failed:" :: message e) s, Some 1%Z)
  | None => (s, None)
  end.

End Init.

(** ** Sample worlds

    Concrete payloads and environments on which the script can be run. *)
Module Sample.

(** A runtime whose [parseFloat] reads numbers only. *)
Definition parseFloat (v : value) : value :=
  match v with VNum _ => v | _ => VNaN end.

(** A driver that turns [undefined] into NULL, demands an integral number
    for [Int] and accepts everything else as it is. *)
Definition validate (t : sqltype) (v : value) : option value :=
  match t, v with
  | _, (VNull | VUndefined) => Some VNull
  | Int, VNum x => if Pos.eqb (Qden x) 1 then Some v else None
  | Int, _ => None
  | _, _ => Some v
  end.

Definition team (i : nat) : value :=
  VObj [("id", num i); ("name", VStr "Club"); ("short_name", VStr "CLB"); ("code", num i);
        ("strength", num 3)].

Definition player (i : nat) : value :=
  VObj [("id", num i); ("web_name", VStr "Player"); ("team", num 1);
        ("element_type", num 1); ("code", num i); ("now_cost", num 50);
        ("form", num 2)].

Definition event (i : nat) (current : bool) : value :=
  VObj [("id", num i); ("name", VStr "Gameweek"); ("is_current", VBool current)].

Definition position (i : nat) : value :=
  VObj [("id", num i); ("plural_name", VStr "Goalkeepers");
        ("plural_name_short", VStr "GKP"); ("singular_name", VStr "Goalkeeper");
        ("singular_name_short", VStr "GKP")].

Definition fixture (i : nat) (started finished : bool) : value :=
  VObj [("id", num i); ("code", num i); ("event", num 5); ("started", VBool started);
        ("finished", VBool finished); ("team_a", num 1); ("team_h", num 2)].

Definition stat (i minutes : nat) : value :=
  VObj [("id", num i); ("stats", VObj [("minutes", num minutes); ("total_points", num 2)])].

Definition bootstrap (nteams nplayers : nat) (current : bool) : value :=
  VObj [("teams", VArr (map team (seq 1 nteams)));
        ("elements", VArr (map player (seq 1 nplayers)));
        ("events", VArr [event 4 false; event 5 current; event 6 false]);
        ("element_types", VArr [position 1])].

Definition live_data (rows : list value) : value := VObj [("elements", VArr rows)].

Definition gameweek (rows : list value) : value :=
  VObj [("gameweekId", num 5); ("elements", VArr rows)].

(** An API that answers every request with the same snapshots. *)
Definition api (b : value) (fixtures : value) (rows : list value)
    (n : nat) (e : endpoint) : reply :=
  match e with
  | BootstrapStatic => Replied b
  | FixturesOfEvent _ | AllFixtures => Replied fixtures
  | EventLive _ => Replied (live_data rows)
  end.

Definition world (a : nat -> endpoint -> reply) (srv : nat -> verdict) : World :=
  mkWorld (mkNet a 0) [] (mkSql None srv (fun n => num n) ∅ [] 0 0).

Definition accepting (n : nat) : verdict := Accept.

(** A server that refuses the request number [k]. *)
Definition refusing (k : nat) (n : nat) : verdict :=
  if Nat.eqb n k then Refuse (Error [VStr "Timeout: Request failed to complete"] None)
  else Accept.

(** A server whose connection is lost during the request number [k]. *)
Definition dropping (k : nat) (n : nat) : verdict :=
  if Nat.eqb n k then Drop (Error [VStr "Connection lost - read ECONNRESET"] None)
  else Accept.

Definition rows11 : list value := map (fun i => stat i 90) (seq 1 11).

(** A match in progress, a full snapshot, eleven live rows. *)
Definition matchday : World :=
  world (api (bootstrap 20 400 true) (VArr [fixture 1 true false; fixture 2 false false]) rows11)
        accepting.

(** No gameweek is current (off-season). *)
Definition off_season : World :=
  world (api (bootstrap 20 400 false) (VArr [fixture 1 true false]) rows11) accepting.

(** The current gameweek has no fixture. *)
Definition no_fixture : World :=
  world (api (bootstrap 20 400 true) (VArr []) rows11) accepting.

(** A match in progress, but the snapshot is cut short at 399 players. *)
Definition truncated : World :=
  world (api (bootstrap 20 399 true) (VArr [fixture 1 true false]) rows11) accepting.

(** A match in progress, nineteen teams. *)
Definition nineteen : World :=
  world (api (bootstrap 19 400 true) (VArr [fixture 1 true false]) rows11) accepting.

(** A live row for player 999, who is not in the snapshot. *)
Definition stranger : World :=
  world (api (bootstrap 20 400 true) (VArr [fixture 1 true false]) [stat 1 90; stat 999 45])
        accepting.

(** A match day on which the server refuses request number 20, the
    first one for element_types (requests 0 to 19 are the teams). *)
Definition refused_position : World :=
  world (api (bootstrap 20 400 true) (VArr [fixture 1 true false]) rows11) (refusing 20).

(** A match day on which the connection is lost during request number 3. *)
Definition connection_lost : World :=
  world (api (bootstrap 20 400 true) (VArr [fixture 1 true false]) rows11) (dropping 3).

(** A match day on which the server refuses request number 427, the
    third of the live rows (the 425 reference requests are numbered 0 to
    424). *)
Definition refused_row : World :=
  world (api (bootstrap 20 400 true) (VArr [fixture 1 true false]) rows11) (refusing 427).

(** A match day on which the server refuses the login. *)
Definition locked_out : World :=
  mkWorld (mkNet (api (bootstrap 20 400 true) (VArr [fixture 1 true false]) rows11) 0) []
    (mkSql (Some (Error [VStr "Login failed for user 'sqladmin'."] None)) accepting
       (fun n => num n) ∅ [] 0 0).

(** What an earlier run left for player 1. *)
Definition old_row : row :=
  <["code" := num 7]> (<["minutes" := num 12]> (<["web_name" := VStr "Before"]> ∅)).

(** A match day on tables that hold that row. *)
Definition seeded : World :=
  mkWorld (mkNet (api (bootstrap 20 400 true) (VArr [fixture 1 true false]) rows11) 0) []
    (mkSql None accepting (fun n => num n) {[ ("players", 1%Z) := old_row ]} [] 0 0).

(** The tables of [seeded] behind a server that refuses request number 1. *)
Definition seeded_refusing : World :=
  mkWorld (net seeded) []
    (mkSql None (refusing 1) (fun n => num n) {[ ("players", 1%Z) := old_row ]} [] 0 0).

(** Three teams, the last of which is the first under a new name. *)
Definition renamed : value :=
  VObj [("id", num 1); ("name", VStr "Renamed"); ("short_name", VStr "REN"); ("code", num 1);
        ("strength", num 4)].

(** A goalless fixture after full time. *)
Definition goalless : value :=
  VObj [("id", num 9); ("code", num 9); ("event", num 5); ("started", VBool true);
        ("finished", VBool true); ("team_a", num 1); ("team_h", num 2);
        ("team_a_score", num 0); ("team_h_score", num 0)].

End Sample.

(** * Properties *)

Arguments num : simpl never.
Arguments int : simpl never.

(** ** Numbers *)

Lemma this_inject (z : Z) : this (Q2Qc (inject_Z z)) = inject_Z z.
Proof.
  simpl. unfold inject_Z. apply Qred_identity. apply Z.gcd_1_r.
Qed.

Lemma js_lt_num (n m : nat) : js_lt (num n) (num m) = Nat.ltb n m.
Proof.
  unfold js_lt, num. rewrite !this_inject.
  unfold Qle_bool, inject_Z; simpl. rewrite !Z.mul_1_r.
  destruct (Nat.ltb_spec n m); destruct (Z.leb_spec (Z.of_nat m) (Z.of_nat n));
    simpl; auto; lia.
Qed.

Lemma js_eq_num_num (n m : nat) : js_eq_num (num n) (num m) = Nat.eqb n m.
Proof.
  unfold js_eq_num, num. rewrite !this_inject.
  unfold Qeq_bool, inject_Z; simpl. rewrite !Z.mul_1_r.
  destruct (Nat.eqb_spec n m); destruct (Z.eqb_spec (Z.of_nat n) (Z.of_nat m));
    simpl; auto; lia.
Qed.

(** ** The live-state check *)

Definition is_current (event : value) : bool := truthy (field "is_current" event).

Lemma truthy_of_field (k : string) (v : value) :
  k <> "length" -> truthy (field k v) = true -> exists fs, v = VObj fs.
Proof.
  intros Hk. destruct v; simpl; try discriminate; eauto;
    destruct (String.eqb_spec k "length"); try contradiction; discriminate.
Qed.

Lemma find_by_spec (k : string) (l : list value) (w : World) :
  Forall (fun x => nullish x = false) l ->
  find_by k l w = (w, Ok (default VUndefined (find (fun x => truthy (field k x)) l))).
Proof.
  induction 1 as [|x l Hx _ IH]; simpl; [reflexivity|].
  unfold bind, prop. rewrite Hx. unfold ret.
  destruct (truthy (field k x)); [reflexivity | apply IH].
Qed.

Lemma filter_live_spec (l : list value) (w : World) :
  Forall (fun x => nullish x = false) l ->
  filter_live l w = (w, Ok (List.filter live l)).
Proof.
  induction 1 as [|x l Hx _ IH]; simpl; [reflexivity|].
  unfold bind, prop. rewrite Hx. unfold ret, live.
  destruct (is_true (field "started" x)); simpl; rewrite IH; reflexivity.
Qed.

Lemma live_iff (f : value) :
  live f = true <-> field "started" f = VBool true /\ field "finished" f = VBool false.
Proof.
  unfold live, is_true, is_false. rewrite andb_true_iff.
  destruct (field "started" f) as [| |[|]| | | | | |];
    destruct (field "finished" f) as [| |[|]| | | | | |];
    split; intros [? ?]; try discriminate; auto.
Qed.

Lemma some_live_iff (l : list value) :
  Nat.ltb 0 (length (List.filter live l)) = true <->
  exists f, In f l /\ field "started" f = VBool true /\ field "finished" f = VBool false.
Proof.
  rewrite Nat.ltb_lt. split.
  - intros H. destruct (List.filter live l) as [|f l'] eqn:E; [simpl in H; lia|].
    assert (Hin : In f (List.filter live l)) by (rewrite E; left; reflexivity).
    apply filter_In in Hin as [Hin Hl]. exists f. split; [exact Hin | now apply live_iff].
  - intros (f & Hin & Hs). assert (Hf : In f (List.filter live l)).
    { apply filter_In. split; [exact Hin | now apply live_iff]. }
    destruct (List.filter live l); [contradiction | simpl; lia].
Qed.

Lemma object_of_array_field (k : string) (v : value) (l : list value) :
  field k v = VArr l -> exists fs, v = VObj fs.
Proof.
  destruct v; simpl; try discriminate; eauto;
    destruct (String.eqb k "length"); discriminate.
Qed.

Lemma find_current_truthy (events : list value) (gw : value) :
  find is_current events = Some gw -> truthy gw = true.
Proof.
  intros H. apply find_some in H as [_ H].
  apply truthy_of_field in H as [fs ->]; [reflexivity | discriminate].
Qed.

(** C1. With the bootstrap snapshot carrying the event list [events]: when
    no event has [is_current] set, the check returns [false] without raising
    (one informational console line, nothing else touched); otherwise, with
    [fixtures] the fixture list of the current gameweek, it returns [true]
    iff some fixture has [started === true] and [finished === false], hence
    [false] for the empty list.  Both variants of the script agree. *)
Theorem live_check_decides (w : World) (data : value) (events : list value) :
  api (net w) (fetched (net w)) BootstrapStatic = Replied data ->
  field "events" data = VArr events ->
  Forall (fun e => nullish e = false) events ->
  (find is_current events = None ->
   exists w',
     checkIfGameIsLive w = (w', Ok false) /\
     Legacy.checkIfGameIsLive w = (w', Ok false) /\
     console w' = console w ++ [(Info, [VStr "No current gameweek found"])] /\
     sql w' = sql w) /\
  (forall (gw : value) (fixtures : list value),
     find is_current events = Some gw ->
     api (net w) (S (fetched (net w))) (FixturesOfEvent (field "id" gw))
       = Replied (VArr fixtures) ->
     Forall (fun f => nullish f = false) fixtures ->
     exists (b : bool) (w' : World),
       checkIfGameIsLive w = (w', Ok b) /\
       Legacy.checkIfGameIsLive w = (w', Ok b) /\
       (b = true <->
        exists f, In f fixtures /\
                  field "started" f = VBool true /\ field "finished" f = VBool false) /\
       (fixtures = [] -> b = false)).
Proof.
  intros Hapi Hev Hobj.
  destruct (object_of_array_field _ _ _ Hev) as [fs ->].
  split.
  - intros Hnone. eexists.
    unfold checkIfGameIsLive, Legacy.checkIfGameIsLive, try_catch, bind, axios_get, prop.
    rewrite Hapi. cbn [truthy nullish negb orb]. rewrite Hev.
    cbn [truthy negb ret find_current]. rewrite (find_by_spec _ _ _ Hobj).
    fold is_current. rewrite Hnone. cbn [default from_option id]. cbn.
    repeat split; reflexivity.
  - intros gw fixtures Hgw Hfix Hfobj.
    exists (Nat.ltb 0 (length (List.filter live fixtures))).
    assert (Hiff := some_live_iff fixtures).
    destruct (Nat.ltb 0 (length (List.filter live fixtures))) eqn:E; eexists;
      unfold checkIfGameIsLive, Legacy.checkIfGameIsLive, try_catch, bind, axios_get, prop;
      rewrite Hapi; cbn [truthy nullish negb orb]; rewrite Hev;
      cbn [truthy negb ret find_current]; rewrite (find_by_spec _ _ _ Hobj);
      fold is_current; rewrite Hgw; cbn [default from_option id];
      rewrite (find_current_truthy _ _ Hgw);
      cbn [negb console_log print net fetched api sql console]; rewrite Hfix;
      rewrite !filter_live_spec by exact Hfobj;
      rewrite js_lt_num, E; cbn [console_log print ret].
    + repeat split; try reflexivity; try apply Hiff; auto.
      intros ->. discriminate E.
    + repeat split; try reflexivity; try apply Hiff; auto.
Qed.

(** ** Validation *)

(** The hard rules in the order [validateData] tests them: whether the rule
    is violated, and the reason it prints. *)
Definition hard_rules (b g f : value) : list (bool * text) :=
  [ (negb (truthy b), [VStr "Bootstrap data is null or undefined"]);
    (invalid_or_empty (field "teams" b), [VStr "Invalid or empty teams data"]);
    (invalid_or_empty (field "elements" b), [VStr "Invalid or empty players (elements) data"]);
    (invalid_or_empty (field "events" b), [VStr "Invalid or empty events data"]);
    (invalid_or_empty (field "element_types" b), [VStr "Invalid or empty element_types data"]);
    (negb (truthy g), [VStr "Gameweek data is null or undefined"]);
    (negb (truthy (field "gameweekId" g)) || negb (isNumber (field "gameweekId" g)),
     [VStr "Invalid gameweek ID"]);
    (invalid_or_empty (field "elements" g), [VStr "Invalid or empty gameweek elements data"]);
    (invalid_or_empty f, [VStr "Invalid or empty fixtures data"]);
    (js_lt (field "length" (field "elements" b)) (num minPlayersCount),
     [VStr "Invalid player count: Expected at least "; num minPlayersCount;
      VStr " players, but got "; field "length" (field "elements" b)]) ].

(** Following the spec's words ("all reasons collected, not just the
    first"): the reason of every violated rule. *)
Definition all_reasons (b g f : value) : list text :=
  map snd (List.filter fst (hard_rules b g f)).

(** What the code reports: the reason of the first violated rule, if any. *)
Definition first_reason (b g f : value) : list text :=
  map snd (firstn 1 (List.filter fst (hard_rules b g f))).

Definition is_severe (l : line) : bool :=
  match fst l with Severe => true | _ => false end.
Definition is_warning (l : line) : bool :=
  match fst l with Warning => true | _ => false end.

(** The texts printed with [console.error] / [console.warn]. *)
Definition errors (c : list line) : list text := map snd (List.filter is_severe c).
Definition warnings (c : list line) : list text := map snd (List.filter is_warning c).

(** The lines a computation adds to the console. *)
Definition printed {A} (m : M A) (w : World) : list line :=
  drop (length (console w)) (console (fst (m w))).

Lemma drop_console (c added : list line) : drop (length c) (c ++ added) = added.
Proof. rewrite drop_app_length. reflexivity. Qed.

(** The soft rules: whether the count deviates, and the warning printed. *)
Definition soft_rules (b : value) : list (bool * text) :=
  [ (negb (js_eq_num (field "length" (field "teams" b)) (num expectedTeamsCount)),
     [VStr "Warning: Expected "; num expectedTeamsCount; VStr " teams, but got ";
      field "length" (field "teams" b)]);
    (js_lt (field "length" (field "events" b)) (num minEventsCount),
     [VStr "Warning: Expected "; num minEventsCount; VStr " events, but got ";
      field "length" (field "events" b)]) ].

Definition all_warnings (b : value) : list text :=
  map snd (List.filter fst (soft_rules b)).

(** One hard rule: when it is violated the function stops there. *)
Ltac hard_rule c :=
  destruct c eqn:?;
  [ eexists; split;
    [ cbv [bind console_log console_error console_warn print ret];
      cbn [List.filter fst snd map net console sql]; rewrite <- ?app_assoc; reflexivity
    | split; [ reflexivity | intros; discriminate ] ] | ].

Lemma validateData_outcome (b g f : value) (w : World) :
  exists added,
    validateData b g f w
      = (mkWorld (net w) (console w ++ added) (sql w),
         Ok (match all_reasons b g f with [] => true | _ => false end)) /\
    errors added = first_reason b g f /\
    (all_reasons b g f = [] -> warnings added = all_warnings b).
Proof.
  unfold validateData, all_reasons, first_reason, hard_rules, all_warnings, soft_rules.
  hard_rule (negb (truthy b)).
  hard_rule (invalid_or_empty (field "teams" b)).
  hard_rule (invalid_or_empty (field "elements" b)).
  hard_rule (invalid_or_empty (field "events" b)).
  hard_rule (invalid_or_empty (field "element_types" b)).
  hard_rule (negb (truthy g)).
  hard_rule (negb (truthy (field "gameweekId" g)) || negb (isNumber (field "gameweekId" g))).
  hard_rule (invalid_or_empty (field "elements" g)).
  hard_rule (invalid_or_empty f).
  destruct (negb (js_eq_num (field "length" (field "teams" b)) (num expectedTeamsCount)));
    hard_rule (js_lt (field "length" (field "elements" b)) (num minPlayersCount));
    destruct (js_lt (field "length" (field "events" b)) (num minEventsCount));
    eexists;
    (split; [ cbv [bind console_log console_error console_warn print ret];
              cbn [List.filter fst snd map net console sql]; rewrite <- ?app_assoc;
              reflexivity
            | split; [ reflexivity | intros _; reflexivity ] ]).
Qed.

(** C3 as the spec words it, at a snapshot that breaks three rules (no
    team, no player, fewer than 400 players): the rules name three reasons,
    the validator prints the first. *)
Lemma two_violations_one_reason :
  let b := VObj [("teams", VArr []); ("elements", VArr []);
                 ("events", VArr [Sample.event 5 true]);
                 ("element_types", VArr [Sample.position 1])] in
  let g := Sample.gameweek Sample.rows11 in
  let f := VArr [Sample.fixture 1 true false] in
  all_reasons b g f
    = [ [VStr "Invalid or empty teams data"];
        [VStr "Invalid or empty players (elements) data"];
        [VStr "Invalid player count: Expected at least "; num 400;
         VStr " players, but got "; num 0] ] /\
  errors (printed (validateData b g f) Sample.matchday)
    = [ [VStr "Invalid or empty teams data"] ] /\
  snd (validateData b g f Sample.matchday) = Ok false.
Proof. vm_compute. repeat split; reflexivity. Qed.

(** C3, amended: the validator tests the hard rules in a fixed order and
    stops at the first one that is violated; it prints that rule's reason
    and no other, and answers [false] exactly when some rule is violated.
    It never raises and touches only the console. *)
Theorem validateData_reports_first_violation (b g f : value) (w : World) :
  exists ok : bool,
    snd (validateData b g f w) = Ok ok /\
    (ok = true <-> all_reasons b g f = []) /\
    errors (printed (validateData b g f) w) = first_reason b g f /\
    length (errors (printed (validateData b g f) w)) <= 1 /\
    sql (fst (validateData b g f w)) = sql w /\
    net (fst (validateData b g f w)) = net w.
Proof.
  destruct (validateData_outcome b g f w) as (added & Hrun & Herr & _).
  unfold printed. rewrite Hrun. cbn [fst snd console sql net].
  rewrite drop_console, Herr.
  eexists. split; [reflexivity|]. repeat split.
  - destruct (all_reasons b g f); [reflexivity | discriminate].
  - intros ->. reflexivity.
  - unfold first_reason. rewrite length_map, length_firstn. lia.
Qed.

(** ** What a computation leaves alone *)

(** [m] never changes the part [view] of the world. *)
Definition preserves {T A} (view : World -> T) (m : M A) : Prop :=
  forall w, view (fst (m w)) = view w.

(** The counters of the connection: established, closed. *)
Definition link (w : World) : nat * nat := (opened (sql w), closed (sql w)).

Section Preserved.

Context {T : Type} (view : World -> T).

Lemma preserves_ret {A} (a : A) : preserves view (ret a).
Proof. intros w. reflexivity. Qed.

Lemma preserves_throw {A} (e : error) : preserves view (@throw A e).
Proof. intros w. reflexivity. Qed.

Lemma preserves_bind {A B} (m : M A) (k : A -> M B) :
  preserves view m -> (forall a, preserves view (k a)) -> preserves view (bind m k).
Proof.
  intros Hm Hk w. unfold bind. specialize (Hm w).
  destruct (m w) as [w' [a|e|e]]; cbn [fst] in *; try exact Hm.
  rewrite Hk. exact Hm.
Qed.

Lemma preserves_try {A} (m : M A) (h : error -> M A) :
  preserves view m -> (forall e, preserves view (h e)) -> preserves view (try_catch m h).
Proof.
  intros Hm Hh w. unfold try_catch. specialize (Hm w).
  destruct (m w) as [w' [a|e|e]]; cbn [fst] in *; try exact Hm.
  rewrite Hh. exact Hm.
Qed.

Lemma preserves_for_each {S : Type} (l : list value) (body : value -> S -> M S) :
  (forall x s, preserves view (body x s)) -> forall s, preserves view (for_each l body s).
Proof.
  intros Hbody. induction l as [|x l IH]; intros s; simpl.
  - apply preserves_ret.
  - apply preserves_bind; auto.
Qed.

End Preserved.

Lemma sql_print (l : level) (t : text) : preserves sql (print l t).
Proof. intros w. reflexivity. Qed.

Lemma sql_axios (url : endpoint) : preserves sql (axios_get url).
Proof. intros w. unfold axios_get. destruct (api _ _ _); reflexivity. Qed.

Lemma link_print (l : level) (t : text) : preserves link (print l t).
Proof. intros w. reflexivity. Qed.

(** The server the script talks to: login answer, verdicts, clock. *)
Definition env (w : World) : option error * (nat -> verdict) * (nat -> value) :=
  (login (sql w), server (sql w), utc (sql w)).

Lemma env_print (l : level) (t : text) : preserves env (print l t).
Proof. intros w. reflexivity. Qed.

Create HintDb keeps.
#[export] Hint Resolve preserves_ret preserves_throw sql_print sql_axios link_print env_print
  : keeps.

(** Follows the structure of a computation down to its primitive steps. *)
Ltac keeps :=
  repeat first
    [ progress intros
    | apply preserves_bind
    | apply preserves_try
    | apply preserves_for_each
    | solve [auto with keeps]
    | progress unfold console_log, console_warn, console_error
    | match goal with
      | |- preserves _ (if ?c then _ else _) => destruct c
      | |- preserves _ (match ?x with _ => _ end) => destruct x
      end ].

Lemma preserves_prop {T} (view : World -> T) (k : string) (v : value) :
  preserves view (prop k v).
Proof. unfold prop. keeps. Qed.

#[export] Hint Resolve preserves_prop : keeps.

Lemma keeps_report {A} (label : string) (e : error) : preserves sql (@report A label e).
Proof. unfold report. keeps. Qed.

Lemma keeps_find_by (k : string) (l : list value) : preserves sql (find_by k l).
Proof. induction l; simpl; keeps. Qed.

Lemma keeps_filter_live (l : list value) : preserves sql (filter_live l).
Proof. induction l; simpl; keeps. Qed.

#[export] Hint Resolve keeps_report keeps_find_by keeps_filter_live : keeps.

Lemma keeps_find_current (events : value) : preserves sql (find_current events).
Proof. unfold find_current. keeps. Qed.

#[export] Hint Resolve keeps_find_current : keeps.

Lemma keeps_checkIfGameIsLive : preserves sql checkIfGameIsLive.
Proof. unfold checkIfGameIsLive. keeps. Qed.

Lemma keeps_getBootstrapData : preserves sql getBootstrapData.
Proof. unfold getBootstrapData. keeps. Qed.

Lemma keeps_getCurrentGameweekData : preserves sql getCurrentGameweekData.
Proof. unfold getCurrentGameweekData. keeps. Qed.

Lemma keeps_getFixturesData : preserves sql getFixturesData.
Proof. unfold getFixturesData. keeps. Qed.

Lemma keeps_validateData (b g f : value) : preserves sql (validateData b g f).
Proof.
  intros w. destruct (validateData_outcome b g f w) as (added & -> & _ & _). reflexivity.
Qed.

#[export] Hint Resolve keeps_checkIfGameIsLive keeps_getBootstrapData
  keeps_getCurrentGameweekData keeps_getFixturesData keeps_validateData : keeps.

(** ** The stages of a run *)

(** The world after the opening console line of [main]. *)
Definition started (w : World) : World :=
  fst (console_log [VStr "*** Update script started at:"; VDate VUndefined] w).

(** The world in which the fetches begin, once a live game was detected. *)
Definition detected (w : World) : World :=
  fst (console_log [VStr "Live game detected! Updating database..."]
         (fst (checkIfGameIsLive (started w)))).

(** The three fetches of [main], in its order. *)
Definition fetch_all : M (value * value * value) :=
  bootstrapData ← getBootstrapData;
  gameweekData ← getCurrentGameweekData;
  fixturesData ← getFixturesData;
  ret (bootstrapData, gameweekData, fixturesData).

(** The world in which validation runs. *)
Definition fetched_world (w : World) : World := fst (fetch_all (detected w)).

(** The run of [main] from [w] detects a live game and fetches [b], [g], [f]. *)
Definition reaches_validation (w : World) (b g f : value) : Prop :=
  snd (checkIfGameIsLive (started w)) = Ok true /\
  snd (fetch_all (detected w)) = Ok (b, g, f).

(** ... and validation accepts them: [updateDatabase] is called in
    [validated_world]. *)
Definition validated_world (w : World) (b g f : value) : World :=
  fst (validateData b g f (fetched_world w)).

Definition reaches_write (w : World) (b g f : value) : Prop :=
  reaches_validation w b g f /\
  snd (validateData b g f (fetched_world w)) = Ok true.

Lemma keeps_fetch_all : preserves sql fetch_all.
Proof. unfold fetch_all. keeps. Qed.

Lemma sql_started (w : World) : sql (started w) = sql w.
Proof. reflexivity. Qed.

Lemma sql_detected (w : World) : sql (detected w) = sql w.
Proof.
  unfold detected. cbn [console_log print fst sql].
  rewrite keeps_checkIfGameIsLive. reflexivity.
Qed.

Lemma sql_fetched_world (w : World) : sql (fetched_world w) = sql w.
Proof. unfold fetched_world. rewrite keeps_fetch_all. apply sql_detected. Qed.

Lemma sql_validated_world (w : World) (b g f : value) :
  sql (validated_world w b g f) = sql w.
Proof. unfold validated_world. rewrite keeps_validateData. apply sql_fetched_world. Qed.

Section Orchestrator.

Variable parseFloat : value -> value.
Variable validate : sqltype -> value -> option value.

Local Abbreviation main := (main parseFloat validate).
Local Abbreviation updateDatabase := (updateDatabase parseFloat validate).

(** The run stops where the live check does not answer [true]. *)
Lemma main_without_live_game (w : World) :
  snd (checkIfGameIsLive (started w)) <> Ok true ->
  sql (fst (main w)) = sql w /\
  snd (main w) = (match snd (checkIfGameIsLive (started w)) with Ok _ => 0 | _ => 1 end)%Z.
Proof.
  intros Hnot. unfold main, run_main, bind, try_catch.
  pose proof (keeps_checkIfGameIsLive (started w)) as Hk. rewrite sql_started in Hk.
  unfold started in *. cbn [console_log print fst] in *.
  destruct (checkIfGameIsLive _) as [w1 [[|]|e|e]]; cbn [fst snd negb ret sql] in *;
    try (split; [exact Hk | reflexivity]).
  contradiction.
Qed.

(** A fetch that fails ends the run with exit code 1 before validation. *)
Lemma main_fetch_fails (w : World) :
  snd (checkIfGameIsLive (started w)) = Ok true ->
  (forall x, snd (fetch_all (detected w)) <> Ok x) ->
  sql (fst (main w)) = sql w /\ snd (main w) = 1%Z.
Proof.
  intros Hlive Hfail. unfold main, run_main, bind, try_catch.
  pose proof (keeps_fetch_all (detected w)) as Hk. rewrite sql_detected in Hk.
  revert Hfail Hk. unfold fetch_all, detected, bind.
  unfold started in *. cbn [console_log print fst] in *.
  destruct (checkIfGameIsLive _) as [w1 r1]. cbn [snd] in Hlive. subst r1.
  cbn [negb console_log print fst].
  destruct (getBootstrapData _) as [w2 [b|e|e]]; cbn [fst snd ret sql];
    try (intros _ Hk; split; [exact Hk | reflexivity]).
  destruct (getCurrentGameweekData _) as [w3 [g|e|e]]; cbn [fst snd ret sql];
    try (intros _ Hk; split; [exact Hk | reflexivity]).
  destruct (getFixturesData _) as [w4 [f|e|e]]; cbn [fst snd ret sql];
    try (intros _ Hk; split; [exact Hk | reflexivity]).
  intros Hfail. exfalso. apply (Hfail (b, g, f)). reflexivity.
Qed.

(** Once validation is reached, the run is decided by [validateData] and
    then by [updateDatabase]. *)
Lemma main_after_fetch (w : World) (b g f : value) :
  reaches_validation w b g f ->
  match snd (validateData b g f (fetched_world w)) with
  | Ok true =>
      sql (fst (main w)) = sql (fst (updateDatabase b g f (validated_world w b g f))) /\
      snd (main w) = (match snd (updateDatabase b g f (validated_world w b g f)) with
                      | Ok _ => 0 | _ => 1 end)%Z
  | _ => sql (fst (main w)) = sql w /\ snd (main w) = 1%Z
  end.
Proof.
  intros [Hlive Hfetch].
  pose proof (sql_validated_world w b g f) as Hk.
  unfold validated_world, fetched_world in *.
  unfold main, run_main, bind, try_catch.
  revert Hfetch Hk. unfold fetch_all, detected, bind.
  unfold started in *. cbn [console_log print fst] in *.
  destruct (checkIfGameIsLive _) as [w1 r1]. cbn [snd] in Hlive. subst r1.
  cbn [negb console_log print fst].
  destruct (getBootstrapData _) as [w2 [b'|e|e]]; cbn [fst snd ret]; try discriminate.
  destruct (getCurrentGameweekData _) as [w3 [g'|e|e]]; cbn [fst snd ret]; try discriminate.
  destruct (getFixturesData _) as [w4 [f'|e|e]]; cbn [fst snd ret]; try discriminate.
  intros [= -> -> ->].
  destruct (validateData b g f w4) as [w5 [[|]|e|e]]; cbn [fst snd negb ret sql];
    intros Hk; try (split; [exact Hk | reflexivity]).
  destruct (updateDatabase b g f w5) as [w6 [[]|e|e]]; cbn [fst snd ret sql];
    split; reflexivity.
Qed.

End Orchestrator.

(** ** The order of the writes *)

(** The place of a statement in the sequence of [updateDatabase]: the five
    merges in the order teams, element_types, events, fixtures, players,
    then the update of the live statistics. *)
Definition phase (q : request) : nat :=
  match sql_text q with
  | Merge t _ _ _ =>
      if String.eqb t "teams" then 0
      else if String.eqb t "element_types" then 1
      else if String.eqb t "events" then 2
      else if String.eqb t "fixtures" then 3
      else 4
  | Update _ _ _ => 5
  end.

Definition phases (ext : list (request * outcome)) : list nat :=
  map (fun e => phase (fst e)) ext.

(** A journal entry after which the run goes on: an applied request, or a
    failed request of the live-statistics phase. *)
Definition harmless (e : request * outcome) : Prop :=
  match snd e with
  | Applied => True
  | Failed _ => phase (fst e) = 5
  | Lost _ => False
  end.

(** How a computation ended, whatever it returns. *)
Inductive signal := Fine | Raised (e : error) | Dropped (e : error).

Definition signal_of {A} (r : result A) : signal :=
  match r with
  | Ok _ => Fine
  | Throw e => Raised e
  | Abandon e => Dropped e
  end.

Definition raised (o : outcome) : signal :=
  match o with
  | Applied => Fine
  | Failed e => Raised e
  | Lost e => Dropped e
  end.

(** The journal a computation appends: either every entry is harmless, or
    the last one is not and the computation ends with its error. *)
Inductive orderly : list (request * outcome) -> signal -> Prop :=
| orderly_clean (ext : list (request * outcome)) (s : signal) :
    Forall harmless ext -> (forall e, s <> Dropped e) -> orderly ext s
| orderly_broken (pre : list (request * outcome)) (q : request) (o : outcome) :
    Forall harmless pre -> ~ harmless (q, o) -> orderly (pre ++ [(q, o)]) (raised o).

(** [m] appends requests of the phases [lo..hi], in order, orderly. *)
Definition journals (lo hi : nat) {A} (m : M A) : Prop :=
  forall w, exists ext,
    journal (sql (fst (m w))) = journal (sql w) ++ ext /\
    Forall (fun p => lo <= p <= hi) (phases ext) /\
    StronglySorted le (phases ext) /\
    orderly ext (signal_of (snd (m w))).

(** [m] sends no request and is not abandoned. *)
Definition quiet {A} (m : M A) : Prop :=
  forall w, journal (sql (fst (m w))) = journal (sql w) /\
            forall e, snd (m w) <> Abandon e.

Lemma orderly_fine (ext : list (request * outcome)) :
  orderly ext Fine -> Forall harmless ext.
Proof.
  inversion 1 as [? ? H1 _|pre q o H1 H2 H3 H4]; subst; [exact H1|].
  destruct o; try discriminate. exfalso. apply H2. exact I.
Qed.

Lemma quiet_journals (lo hi : nat) {A} (m : M A) : quiet m -> journals lo hi m.
Proof.
  intros Hq w. destruct (Hq w) as [Hj Hn]. exists []. rewrite app_nil_r.
  repeat split; [exact Hj | constructor | constructor |].
  apply orderly_clean; [constructor|].
  intros e He. destruct (snd (m w)); try discriminate.
  injection He as ->. eapply Hn. reflexivity.
Qed.

Lemma journals_weaken (lo hi lo' hi' : nat) {A} (m : M A) :
  lo' <= lo -> hi <= hi' -> journals lo hi m -> journals lo' hi' m.
Proof.
  intros Hlo Hhi Hm w. destruct (Hm w) as (ext & Hj & Hb & Hs & Ho).
  exists ext. repeat split; auto.
  eapply Forall_impl; [exact Hb|]. cbn. intros p Hp. lia.
Qed.

Lemma journals_bind (lo1 hi1 lo2 hi2 : nat) {A B} (m : M A) (k : A -> M B) :
  journals lo1 hi1 m -> (forall a, journals lo2 hi2 (k a)) ->
  lo1 <= lo2 -> hi1 <= lo2 -> hi1 <= hi2 ->
  journals lo1 hi2 (bind m k).
Proof.
  intros Hm Hk H1 H2 H3 w. destruct (Hm w) as (ext1 & Hj1 & Hb1 & Hs1 & Ho1).
  unfold bind. destruct (m w) as [w1 [a|e|e]]; cbn [fst snd signal_of] in *.
  - destruct (Hk a w1) as (ext2 & Hj2 & Hb2 & Hs2 & Ho2).
    exists (ext1 ++ ext2). rewrite Hj2, Hj1, <- app_assoc.
    apply orderly_fine in Ho1. unfold phases in *. rewrite map_app.
    repeat split.
    + apply Forall_app. split.
      * eapply Forall_impl; [exact Hb1|]. cbn. intros p Hp. lia.
      * eapply Forall_impl; [exact Hb2|]. cbn. intros p Hp. lia.
    + apply StronglySorted_app. repeat split; auto.
      intros p1 p2 Hp1 Hp2.
      rewrite Forall_forall in Hb1, Hb2.
      apply Hb1 in Hp1. apply Hb2 in Hp2. lia.
    + inversion Ho2 as [? ? G1 G2|pre q o G1 G2 G3 G4]; subst.
      * apply orderly_clean; [apply Forall_app; auto | exact G2].
      * rewrite app_assoc. apply orderly_broken; [apply Forall_app; auto | exact G2].
  - exists ext1. repeat split; auto.
    eapply Forall_impl; [exact Hb1|]. cbn. intros p Hp. lia.
  - exists ext1. repeat split; auto.
    eapply Forall_impl; [exact Hb1|]. cbn. intros p Hp. lia.
Qed.

Lemma quiet_ret {A} (a : A) : quiet (ret a).
Proof. intros w. split; [reflexivity | discriminate]. Qed.

Lemma quiet_throw {A} (e : error) : quiet (@throw A e).
Proof. intros w. split; [reflexivity | discriminate]. Qed.

Lemma quiet_print (l : level) (t : text) : quiet (print l t).
Proof. intros w. split; [reflexivity | discriminate]. Qed.

Lemma quiet_bind {A B} (m : M A) (k : A -> M B) :
  quiet m -> (forall a, quiet (k a)) -> quiet (bind m k).
Proof.
  intros Hm Hk w. unfold bind. destruct (Hm w) as [Hj Hn].
  destruct (m w) as [w1 [a|e|e]]; cbn [fst snd] in *.
  - destruct (Hk a w1) as [Hj' Hn']. split; [congruence | exact Hn'].
  - split; [exact Hj | discriminate].
  - exfalso. eapply Hn. reflexivity.
Qed.

Create HintDb quiet.
#[export] Hint Resolve quiet_ret quiet_throw quiet_print : quiet.

Ltac quiet :=
  repeat first
    [ progress intros
    | apply quiet_bind
    | solve [auto with quiet]
    | progress unfold console_log, console_warn, console_error
    | match goal with
      | |- quiet (if ?c then _ else _) => destruct c
      | |- quiet (match ?x with _ => _ end) => destruct x
      end ].

Lemma quiet_prop (k : string) (v : value) : quiet (prop k v).
Proof. unfold prop. quiet. Qed.

Lemma quiet_iterate (v : value) : quiet (iterate v).
Proof. unfold iterate. quiet. Qed.

#[export] Hint Resolve quiet_prop quiet_iterate : quiet.

Lemma journals_for_each (p : nat) {S : Type} (l : list value) (body : value -> S -> M S) :
  (forall x s, journals p p (body x s)) -> forall s, journals p p (for_each l body s).
Proof.
  intros Hbody. induction l as [|x l IH]; intros s; simpl.
  - apply quiet_journals. quiet.
  - apply (journals_bind p p p p); auto.
Qed.

(** In the live-statistics phase a [catch] that sends nothing keeps the
    journal orderly: the failures it swallows are harmless there. *)
Lemma journals_try_stats {A} (m : M A) (h : error -> M A) :
  journals 5 5 m -> (forall e, quiet (h e)) -> journals 5 5 (try_catch m h).
Proof.
  intros Hm Hh w. destruct (Hm w) as (ext & Hj & Hb & Hs & Ho).
  unfold try_catch. destruct (m w) as [w1 [a|e|e]]; cbn [fst snd signal_of] in *;
    try (exists ext; repeat split; assumption).
  destruct (Hh e w1) as [Hj' Hn]. exists ext. rewrite Hj', Hj.
  repeat split; auto.
  apply orderly_clean.
  - inversion Ho as [? ? G1 G2|pre q o G1 G2 G3 G4]; subst; [exact G1|].
    exfalso. apply G2. destruct o; try discriminate. cbn.
    unfold phases in Hb. rewrite map_app in Hb. apply Forall_app in Hb as [_ Hb].
    inversion Hb; subst. cbn in *. lia.
  - intros e' He'. destruct (snd (h e w1)) eqn:E; try discriminate.
    eapply Hn. reflexivity.
Qed.

(** A [catch] that sends nothing and rethrows. *)
Lemma journals_try_rethrow (lo hi : nat) {A} (m : M A) (h : error -> M A) :
  journals lo hi m ->
  (forall e w, journal (sql (fst (h e w))) = journal (sql w) /\ snd (h e w) = Throw e) ->
  journals lo hi (try_catch m h).
Proof.
  intros Hm Hh w. destruct (Hm w) as (ext & Hj & Hb & Hs & Ho).
  unfold try_catch. destruct (m w) as [w1 [a|e|e]]; cbn [fst snd signal_of] in *;
    try (exists ext; repeat split; assumption).
  destruct (Hh e w1) as [Hj' Hr]. exists ext. rewrite Hj', Hj, Hr.
  repeat split; auto.
Qed.

(** ** The connection *)

Section Connection.

Variable parseFloat : value -> value.
Variable validate : sqltype -> value -> option value.

Local Abbreviation execSql := (execSql validate).
Local Abbreviation submit := (submit validate).
Local Abbreviation updateTeams := (updateTeams validate).
Local Abbreviation updateElementTypes := (updateElementTypes validate).
Local Abbreviation updateEvents := (updateEvents validate).
Local Abbreviation updateFixtures := (updateFixtures validate).
Local Abbreviation updatePlayers := (updatePlayers parseFloat validate).
Local Abbreviation updateOne := (updateOne parseFloat validate).
Local Abbreviation updateAll := (updateAll parseFloat validate).
Local Abbreviation updatePlayerStats := (updatePlayerStats parseFloat validate).
Local Abbreviation updateDatabase := (updateDatabase parseFloat validate).
Local Abbreviation main := (main parseFloat validate).

(** What the promise around a request settles with. *)
Definition settles (o : outcome) : result unit :=
  match o with
  | Applied => Ok tt
  | Failed e => Throw e
  | Lost e => Abandon e
  end.

(** One request: it is journaled with its outcome, the tables change only
    when it is applied, and nothing else of the connection moves. *)
Lemma execSql_spec (q : request) (w : World) :
  exists o,
    journal (sql (fst (execSql q w))) = journal (sql w) ++ [(q, o)] /\
    snd (execSql q w) = settles o /\
    match o with
    | Applied =>
        server (sql w) (length (journal (sql w))) = Accept /\
        run validate (utc (sql w) (length (journal (sql w)))) q (tables (sql w))
          = Some (tables (sql (fst (execSql q w))))
    | Failed e =>
        tables (sql (fst (execSql q w))) = tables (sql w) /\
        (server (sql w) (length (journal (sql w))) = Refuse e \/
         server (sql w) (length (journal (sql w))) = Accept /\
         run validate (utc (sql w) (length (journal (sql w)))) q (tables (sql w)) = None)
    | Lost e =>
        tables (sql (fst (execSql q w))) = tables (sql w) /\
        server (sql w) (length (journal (sql w))) = Drop e
    end.
Proof.
  unfold execSql.
  destruct (server (sql w) (length (journal (sql w)))) as [|e|e] eqn:Hs.
  - destruct (run validate _ q (tables (sql w))) as [db|] eqn:Hr.
    + exists Applied. cbn. repeat split; auto.
    + exists (Failed RequestError). cbn. repeat split; auto.
  - exists (Failed e). cbn. repeat split; auto.
  - exists (Lost e). cbn. repeat split; auto.
Qed.

Lemma link_execSql (q : request) : preserves link (execSql q).
Proof.
  intros w. unfold execSql.
  destruct (server _ _); [destruct (run _ _ _ _)| |]; reflexivity.
Qed.

Lemma env_execSql (q : request) : preserves env (execSql q).
Proof.
  intros w. unfold execSql.
  destruct (server _ _); [destruct (run _ _ _ _)| |]; reflexivity.
Qed.

Lemma link_iterate (v : value) : preserves link (iterate v).
Proof. unfold iterate. keeps. Qed.

Lemma env_iterate (v : value) : preserves env (iterate v).
Proof. unfold iterate. keeps. Qed.

Hint Resolve link_execSql env_execSql link_iterate env_iterate : keeps.

Lemma link_submit (build : value -> request) (x : value) : preserves link (submit build x).
Proof. unfold submit. keeps. Qed.

Lemma env_submit (build : value -> request) (x : value) : preserves env (submit build x).
Proof. unfold submit. keeps. Qed.

Hint Resolve link_submit env_submit : keeps.

Lemma link_updateTeams (v : value) : preserves link (updateTeams v).
Proof. unfold updateTeams. keeps. Qed.
Lemma link_updateElementTypes (v : value) : preserves link (updateElementTypes v).
Proof. unfold updateElementTypes. keeps. Qed.
Lemma link_updateEvents (v : value) : preserves link (updateEvents v).
Proof. unfold updateEvents. keeps. Qed.
Lemma link_updateFixtures (v : value) : preserves link (updateFixtures v).
Proof. unfold updateFixtures. keeps. Qed.
Lemma link_updatePlayers (v : value) : preserves link (updatePlayers v).
Proof. unfold updatePlayers. keeps. Qed.

Lemma link_updateOne (len x : value) (c : nat * nat) : preserves link (updateOne len x c).
Proof. unfold updateOne. destruct c. keeps. Qed.

Lemma env_updateOne (len x : value) (c : nat * nat) : preserves env (updateOne len x c).
Proof. unfold updateOne. destruct c. keeps. Qed.

Hint Resolve link_updateOne env_updateOne : keeps.

Lemma link_updatePlayerStats (g : value) : preserves link (updatePlayerStats g).
Proof.
  unfold updatePlayerStats, updateAll. keeps.
Qed.

(** *** The journal of each step *)

Lemma journals_execSql (q : request) : journals (phase q) (phase q) (execSql q).
Proof.
  intros w. destruct (execSql_spec q w) as (o & Hj & Hr & _).
  exists [(q, o)]. rewrite Hr. repeat split; auto.
  - repeat constructor; cbn; lia.
  - repeat constructor.
  - destruct o as [|e|e]; cbn.
    + apply orderly_clean; [repeat constructor | discriminate].
    + destruct (Nat.eq_dec (phase q) 5) as [H5|H5].
      * apply orderly_clean; [repeat constructor; exact H5 | discriminate].
      * apply (orderly_broken [] q (Failed e)); [constructor | exact H5].
    + apply (orderly_broken [] q (Lost e)); [constructor | intros []].
Qed.

Lemma journals_submit (p : nat) (build : value -> request) (x : value) :
  (forall y, phase (build y) = p) -> journals p p (submit build x).
Proof.
  intros Hp. unfold submit. destruct (nullish x).
  - apply quiet_journals. quiet.
  - rewrite <- (Hp x). apply journals_execSql.
Qed.

(** The shape shared by the five merge-upserts. *)
Ltac merge_journal p :=
  repeat first
    [ progress intros
    | apply (journals_bind p p p p); [ | | lia | lia | lia ]
    | apply journals_for_each
    | apply journals_submit; reflexivity
    | apply quiet_journals; solve [quiet] ].

Lemma journals_updateTeams (v : value) : journals 0 0 (updateTeams v).
Proof. unfold updateTeams. merge_journal 0. Qed.

Lemma journals_updateElementTypes (v : value) : journals 1 1 (updateElementTypes v).
Proof. unfold updateElementTypes. merge_journal 1. Qed.

Lemma journals_updateEvents (v : value) : journals 2 2 (updateEvents v).
Proof. unfold updateEvents. merge_journal 2. Qed.

Lemma journals_updateFixtures (v : value) : journals 3 3 (updateFixtures v).
Proof. unfold updateFixtures. merge_journal 3. Qed.

Lemma journals_updatePlayers (v : value) : journals 4 4 (updatePlayers v).
Proof. unfold updatePlayers. merge_journal 4. Qed.

Lemma journals_updateOne (len x : value) (c : nat * nat) : journals 5 5 (updateOne len x c).
Proof.
  unfold updateOne. destruct c as [u e].
  apply (journals_bind 5 5 5 5); try lia; [apply quiet_journals; quiet|].
  intros stats. apply journals_try_stats; [|quiet].
  apply (journals_bind 5 5 5 5); try lia; [|intros; apply quiet_journals; quiet].
  destruct (nullish stats); [apply quiet_journals; quiet | apply journals_execSql].
Qed.

Lemma journals_updatePlayerStats (g : value) : journals 5 5 (updatePlayerStats g).
Proof.
  unfold updatePlayerStats, updateAll.
  repeat first
    [ progress intros
    | apply (journals_bind 5 5 5 5); [ | | lia | lia | lia ]
    | apply journals_for_each
    | apply journals_updateOne
    | apply quiet_journals; solve [quiet]
    | match goal with |- journals _ _ (if ?c then _ else _) => destruct c end ].
Qed.

Lemma quiet_close : quiet close.
Proof. intros w. split; [reflexivity | discriminate]. Qed.

(** The [try] block of [updateDatabase]. *)
Definition persist (b g f : value) : M unit :=
  teams ← prop "teams" b;
  updateTeams teams;;
  element_types ← prop "element_types" b;
  updateElementTypes element_types;;
  events ← prop "events" b;
  updateEvents events;;
  updateFixtures f;;
  elements ← prop "elements" b;
  updatePlayers elements;;
  updatePlayerStats g;;
  close.

Lemma journals_persist (b g f : value) : journals 0 5 (persist b g f).
Proof.
  unfold persist.
  apply (journals_bind 0 0 0 5); try lia; [apply quiet_journals; quiet | intros teams].
  apply (journals_bind 0 0 1 5); try lia; [apply journals_updateTeams | intros _].
  apply (journals_bind 1 1 1 5); try lia; [apply quiet_journals; quiet | intros types].
  apply (journals_bind 1 1 2 5); try lia; [apply journals_updateElementTypes | intros _].
  apply (journals_bind 2 2 2 5); try lia; [apply quiet_journals; quiet | intros events].
  apply (journals_bind 2 2 3 5); try lia; [apply journals_updateEvents | intros _].
  apply (journals_bind 3 3 4 5); try lia; [apply journals_updateFixtures | intros _].
  apply (journals_bind 4 4 4 5); try lia; [apply quiet_journals; quiet | intros elements].
  apply (journals_bind 4 4 5 5); try lia; [apply journals_updatePlayers | intros _].
  apply (journals_bind 5 5 5 5); try lia; [apply journals_updatePlayerStats | intros _].
  apply quiet_journals, quiet_close.
Qed.

(** [updateDatabase] on a server that lets the script log in. *)
Lemma updateDatabase_connected (b g f : value) (w : World) :
  login (sql w) = None ->
  updateDatabase b g f w
    = settled (try_catch (persist b g f) (fun error => close;; throw error))
        (fst (console_log [VStr "Connected to SQL database"] (fst (established w)))).
Proof. intros H. unfold updateDatabase. rewrite H. reflexivity. Qed.

Lemma updateDatabase_refused (b g f : value) (w : World) (err : error) :
  login (sql w) = Some err ->
  sql (fst (updateDatabase b g f w)) = sql w /\ snd (updateDatabase b g f w) = Throw err.
Proof. intros H. unfold updateDatabase. rewrite H. split; reflexivity. Qed.

Lemma orderly_fatal (ext pre post : list (request * outcome)) (s : signal)
    (q : request) (o : outcome) :
  orderly ext s -> ext = pre ++ (q, o) :: post -> phase q < 5 -> o <> Applied ->
  post = [] /\ s = raised o.
Proof.
  intros Ho -> Hp Hna.
  assert (Hbad : ~ harmless (q, o)).
  { unfold harmless; cbn. destruct o; [congruence | lia | tauto]. }
  inversion Ho as [? ? G1 G2|pre' q' o' G1 G2 G3 G4]; subst.
  - exfalso. apply Hbad. rewrite Forall_app, Forall_cons in G1. tauto.
  - destruct post as [|z post0 _] using rev_ind.
    + apply app_inj_tail in G3 as [_ [= -> ->]]. auto.
    + exfalso. apply Hbad.
      change (pre' ++ [(q', o')] = pre ++ ((q, o) :: post0) ++ [z]) in G3.
      rewrite app_assoc in G3. apply app_inj_tail in G3 as [-> _].
      rewrite Forall_app, Forall_cons in G1. tauto.
Qed.

(** The journal of one call of [updateDatabase]: sorted by phase, and a
    request of a reference phase that is not applied is the last one, its
    error rejecting the promise. *)
Lemma updateDatabase_journal (b g f : value) (w : World) :
  exists ext,
    journal (sql (fst (updateDatabase b g f w))) = journal (sql w) ++ ext /\
    StronglySorted le (phases ext) /\
    forall pre q o post,
      ext = pre ++ (q, o) :: post -> phase q < 5 -> o <> Applied ->
      post = [] /\
      exists e, (o = Failed e \/ o = Lost e) /\ snd (updateDatabase b g f w) = Throw e.
Proof.
  destruct (login (sql w)) as [err|] eqn:Hlogin.
  - destruct (updateDatabase_refused b g f w err Hlogin) as [Hs _].
    exists []. rewrite Hs, app_nil_r.
    split; [reflexivity|]. split; [apply SSorted_nil|].
    intros pre q o post H. destruct pre; discriminate.
  - rewrite (updateDatabase_connected b g f w Hlogin).
    set (w0 := fst (console_log _ (fst (established w)))).
    assert (Hw0 : journal (sql w0) = journal (sql w)) by reflexivity.
    destruct (journals_try_rethrow 0 5 (persist b g f) (fun error => close;; throw error)
                (journals_persist b g f)
                (fun e w1 => conj eq_refl eq_refl) w0) as (ext & Hj & _ & Hs & Ho).
    exists ext. unfold settled.
    destruct (try_catch _ _ w0) as [w1 [a|e|e]]; cbn [fst snd signal_of] in *;
      (split; [congruence|]); (split; [exact Hs|]);
      intros pre q o post Hext Hp Hna;
      destruct (orderly_fatal _ _ _ _ _ _ Ho Hext Hp Hna) as [-> Hsig];
      (split; [reflexivity|]); destruct o as [|e'|e']; try congruence;
      cbn in Hsig; try discriminate; injection Hsig as <-; eauto.
Qed.

(** *** Releasing the connection *)

Definition lost (e : request * outcome) : bool :=
  match snd e with Lost _ => true | _ => false end.

(** [m] calls [connection.close()] exactly once when it returns, and not at
    all when it does not. *)
Definition releases {A} (m : M A) : Prop :=
  forall w, link (fst (m w)) = match snd (m w) with
                               | Ok _ => (opened (sql w), S (closed (sql w)))
                               | _ => link w
                               end.

Lemma releases_close : releases close.
Proof. intros w. reflexivity. Qed.

Lemma releases_bind {A B} (m : M A) (k : A -> M B) :
  preserves link m -> (forall a, releases (k a)) -> releases (bind m k).
Proof.
  intros Hm Hk w. unfold bind. specialize (Hm w).
  destruct (m w) as [w1 [a|e|e]]; cbn [fst snd] in *; try exact Hm.
  rewrite Hk. unfold link in *. injection Hm as H1 H2. rewrite H1, H2. reflexivity.
Qed.

Lemma releases_persist (b g f : value) : releases (persist b g f).
Proof.
  unfold persist.
  repeat (apply releases_bind;
          [ first [ apply preserves_prop | apply link_updateTeams
                  | apply link_updateElementTypes | apply link_updateEvents
                  | apply link_updateFixtures | apply link_updatePlayers
                  | apply link_updatePlayerStats ]
          | intros ]).
  apply releases_close.
Qed.

Lemma harmless_not_lost (ext : list (request * outcome)) :
  Forall harmless ext -> existsb lost ext = false.
Proof.
  induction 1 as [|[q o] l Hx _ IH]; [reflexivity|].
  cbn. rewrite IH. destruct o; try reflexivity. destruct Hx.
Qed.

(** One call of [updateDatabase] after a successful login: a connection is
    established, and it is closed once unless the connection raised 'error'
    during a request, in which case it is not closed at all. *)
Lemma updateDatabase_release (b g f : value) (w : World) :
  login (sql w) = None ->
  exists ext,
    journal (sql (fst (updateDatabase b g f w))) = journal (sql w) ++ ext /\
    opened (sql (fst (updateDatabase b g f w))) = S (opened (sql w)) /\
    closed (sql (fst (updateDatabase b g f w)))
      = closed (sql w) + (if existsb lost ext then 0 else 1).
Proof.
  intros Hlogin. rewrite (updateDatabase_connected b g f w Hlogin).
  set (w0 := fst (console_log _ (fst (established w)))).
  assert (Hw0 : journal (sql w0) = journal (sql w)) by reflexivity.
  assert (Ho0 : opened (sql w0) = S (opened (sql w))) by reflexivity.
  assert (Hc0 : closed (sql w0) = closed (sql w)) by reflexivity.
  clearbody w0.
  destruct (journals_persist b g f w0) as (ext & Hj & _ & _ & Ho).
  pose proof (releases_persist b g f w0) as Hrel.
  exists ext. unfold settled, try_catch, link in *.
  destruct (persist b g f w0) as [w1 [[]|e|e]]; cbn [fst snd signal_of] in *.
  - apply orderly_fine, harmless_not_lost in Ho. rewrite Ho.
    injection Hrel as H1 H2. repeat split; [congruence | congruence | lia].
  - assert (Hnl : existsb lost ext = false).
    { inversion Ho as [? ? G1 G2|pre q o G1 G2 G3 G4]; subst.
      - apply harmless_not_lost; assumption.
      - rewrite existsb_app, (harmless_not_lost _ G1). destruct o; try discriminate.
        reflexivity. }
    rewrite Hnl. cbn. injection Hrel as H1 H2.
    repeat split; [congruence | congruence | lia].
  - assert (Hl : existsb lost ext = true).
    { inversion Ho as [? ? G1 G2|pre q o G1 G2 G3 G4]; subst.
      - exfalso. eapply G2. reflexivity.
      - rewrite existsb_app. destruct o; try discriminate. cbn. apply orb_true_r. }
    rewrite Hl. cbn. injection Hrel as H1 H2.
    repeat split; [congruence | congruence | lia].
Qed.

End Connection.

(** ** The live-statistics batch *)

Definition applied (e : request * outcome) : bool :=
  match snd e with Applied => true | _ => false end.

Definition failed (e : request * outcome) : bool :=
  match snd e with Failed _ => true | _ => false end.

(** A row of the live payload the loop can read: [{ id, stats: {...} }]. *)
Definition readable (x : value) : Prop :=
  nullish x = false /\ nullish (field "stats" x) = false.

(** The connection does not raise 'error' during the next [n] requests. *)
Definition holds_for (w : World) (n : nat) : Prop :=
  forall i err, i < n -> server (sql w) (length (journal (sql w)) + i) <> Drop err.

Section LiveStatistics.

Variable parseFloat : value -> value.
Variable validate : sqltype -> value -> option value.

Local Abbreviation execSql := (execSql validate).
Local Abbreviation stats_request := (stats_request parseFloat).
Local Abbreviation updateOne := (updateOne parseFloat validate).
Local Abbreviation updateAll := (updateAll parseFloat validate).
Local Abbreviation updatePlayerStats := (updatePlayerStats parseFloat validate).

(** The request the loop sends for a row. *)
Definition request_of (x : value) : request := stats_request x (field "stats" x).

Lemma updateOne_spec (len x : value) (u e : nat) (w : World) :
  readable x -> holds_for w 1 ->
  exists o,
    (forall err, o <> Lost err) /\
    journal (sql (fst (updateOne len x (u, e) w))) = journal (sql w) ++ [(request_of x, o)] /\
    snd (updateOne len x (u, e) w)
      = Ok (if applied (request_of x, o) then (S u, e) else (u, S e)) /\
    env (fst (updateOne len x (u, e) w)) = env w /\
    snd (execSql (request_of x) w) = settles o /\
    tables (sql (fst (updateOne len x (u, e) w)))
      = tables (sql (fst (execSql (request_of x) w))).
Proof.
  intros [Hx Hstats] Hhold.
  pose proof (env_updateOne parseFloat validate len x (u, e) w) as Henv.
  destruct (execSql_spec validate (request_of x) w) as (o & Hj & Hr & Hcase).
  exists o. revert Henv. unfold updateOne, bind, prop, try_catch.
  rewrite Hx. cbn [ret]. rewrite Hstats. fold (request_of x).
  destruct (execSql (request_of x) w) as [w1 r1]. cbn [fst snd] in *. subst r1.
  destruct o as [|err|err]; cbn [settles applied snd].
  - destruct (Nat.eqb (S u mod 100) 0); cbn; intros Henv;
      repeat split; auto; discriminate.
  - cbn. intros Henv. repeat split; auto; discriminate.
  - exfalso. destruct Hcase as [_ Hdrop].
    apply (Hhold 0 err); [lia|]. rewrite Nat.add_0_r. exact Hdrop.
Qed.

Lemma holds_for_next (w w1 : World) (n : nat) (entry : request * outcome) :
  holds_for w (S n) ->
  journal (sql w1) = journal (sql w) ++ [entry] -> env w1 = env w ->
  holds_for w1 n.
Proof.
  intros Hhold Hj Henv i err Hi. unfold env in Henv. injection Henv as _ Hs _.
  rewrite Hs, Hj, length_app. cbn [length].
  replace (length (journal (sql w)) + 1 + i) with (length (journal (sql w)) + S i) by lia.
  apply Hhold. lia.
Qed.

(** The loop over readable rows: one journaled request per row, in order,
    each counted as a success or as an error. *)
Lemma stats_loop (len : value) (rows : list value) :
  Forall readable rows ->
  forall (u e : nat) (w : World),
    holds_for w (length rows) ->
    exists ext,
      journal (sql (fst (for_each rows (updateOne len) (u, e) w))) = journal (sql w) ++ ext /\
      map fst ext = map request_of rows /\
      Forall (fun en => forall err, snd en <> Lost err) ext /\
      snd (for_each rows (updateOne len) (u, e) w)
        = Ok (u + length (List.filter applied ext), e + length (List.filter failed ext)) /\
      env (fst (for_each rows (updateOne len) (u, e) w)) = env w.
Proof.
  induction 1 as [|x rows Hx _ IH]; intros u e w Hhold.
  - exists []. cbn. rewrite app_nil_r, !Nat.add_0_r. repeat split; auto.
  - assert (H1 : holds_for w 1) by (intros i err Hi; apply Hhold; cbn; lia).
    destruct (updateOne_spec len x u e w Hx H1) as (o & Hno & Hj & Hr & Henv & _).
    cbn [for_each]. unfold bind.
    destruct (updateOne len x (u, e) w) as [w1 r1]. cbn [fst snd] in *. subst r1.
    pose proof (holds_for_next w w1 (length rows) _ Hhold Hj Henv) as Hhold1.
    destruct (applied (request_of x, o)) eqn:Ha.
    + destruct (IH (S u) e w1 Hhold1) as (ext & Hj' & Hm & Hnl & Hr' & Henv').
      exists ((request_of x, o) :: ext). rewrite Hj', Hj, <- app_assoc, Hr'.
      cbn [map fst List.filter length app]. rewrite Ha.
      assert (Hf : failed (request_of x, o) = false) by (destruct o; cbn in *; congruence).
      rewrite Hf. cbn [length].
      split; [reflexivity|]. split; [f_equal; exact Hm|].
      split; [constructor; [exact Hno | exact Hnl]|].
      split; [f_equal; f_equal; lia | congruence].
    + destruct (IH u (S e) w1 Hhold1) as (ext & Hj' & Hm & Hnl & Hr' & Henv').
      exists ((request_of x, o) :: ext). rewrite Hj', Hj, <- app_assoc, Hr'.
      cbn [map fst List.filter length app]. rewrite Ha.
      assert (Hf : failed (request_of x, o) = true).
      { destruct o as [|err|err]; cbn in *; try congruence; destruct (Hno err eq_refl). }
      rewrite Hf. cbn [length].
      split; [reflexivity|]. split; [f_equal; exact Hm|].
      split; [constructor; [exact Hno | exact Hnl]|].
      split; [f_equal; f_equal; lia | congruence].
Qed.

Lemma applied_or_failed (ext : list (request * outcome)) :
  Forall (fun en => forall err, snd en <> Lost err) ext ->
  length (List.filter applied ext) + length (List.filter failed ext) = length ext.
Proof.
  induction 1 as [|[q o] ext Hno _ IH]; [reflexivity|].
  cbn [List.filter]. destruct o as [|err|err]; cbn in *; try lia.
  destruct (Hno err eq_refl).
Qed.

End LiveStatistics.

(** ** Reaching the live-statistics phase *)

Lemma bind_assoc {A B C} (m : M A) (k : A -> M B) (h : B -> M C) (w : World) :
  bind (bind m k) h w = bind m (fun a => bind (k a) h) w.
Proof. unfold bind. destruct (m w) as [w1 [a|e|e]]; reflexivity. Qed.

Lemma bind_cong {A B} (m : M A) (k k' : A -> M B) (w : World) :
  (forall a w1, k a w1 = k' a w1) -> bind m k w = bind m k' w.
Proof. intros H. unfold bind. destruct (m w) as [w1 [a|e|e]]; auto. Qed.

(** The world in which the [try] block of [updateDatabase] starts. *)
Definition connected (w : World) : World :=
  fst (console_log [VStr "Connected to SQL database"] (fst (established w))).

Section Reference.

Variable parseFloat : value -> value.
Variable validate : sqltype -> value -> option value.

(** The five merge-upserts of the [try] block, in its order. *)
Definition reference (b f : value) : M unit :=
  teams ← prop "teams" b;
  updateTeams validate teams;;
  element_types ← prop "element_types" b;
  updateElementTypes validate element_types;;
  events ← prop "events" b;
  updateEvents validate events;;
  updateFixtures validate f;;
  elements ← prop "elements" b;
  updatePlayers parseFloat validate elements.

Lemma persist_split (b g f : value) (w : World) :
  persist parseFloat validate b g f w
    = bind (reference b f)
        (fun _ => updatePlayerStats parseFloat validate g;; close) w.
Proof.
  unfold persist, reference.
  do 8 (rewrite bind_assoc; apply bind_cong; intros ? ?).
  reflexivity.
Qed.

(** The world in which the live-statistics phase of the run from [w] starts. *)
Definition stats_world (w : World) (b g f : value) : World :=
  fst (reference b f (connected (validated_world w b g f))).

(** The run from [w] validates [b], [g], [f], logs in and completes the
    five merge-upserts. *)
Definition reaches_stats (w : World) (b g f : value) : Prop :=
  reaches_write w b g f /\
  login (sql w) = None /\
  snd (reference b f (connected (validated_world w b g f))) = Ok tt.

(** From there the exit code is decided by [updatePlayerStats]. *)
Lemma main_after_reference (w : World) (b g f : value) :
  reaches_stats w b g f ->
  snd (main parseFloat validate w)
    = (match snd (updatePlayerStats parseFloat validate g (stats_world w b g f)) with
       | Ok _ => 0 | _ => 1 end)%Z /\
  tables (sql (fst (main parseFloat validate w)))
    = tables (sql (fst (updatePlayerStats parseFloat validate g (stats_world w b g f)))).
Proof.
  intros ([Hreach Hvalid] & Hlogin & Href).
  pose proof (main_after_fetch parseFloat validate w b g f Hreach) as Hmain.
  rewrite Hvalid in Hmain. destruct Hmain as [Hsql Hcode].
  rewrite Hcode, Hsql. clear Hcode Hsql.
  assert (Hrun : updateDatabase parseFloat validate b g f (validated_world w b g f)
                 = match updatePlayerStats parseFloat validate g (stats_world w b g f) with
                   | (w2, Ok _) => (fst (close w2), Ok tt)
                   | (w2, Throw e) => (fst (close w2), Throw e)
                   | (w2, Abandon e) => (w2, Throw e)
                   end).
  { rewrite updateDatabase_connected
      by (rewrite sql_validated_world; exact Hlogin).
    fold (connected (validated_world w b g f)).
    unfold settled, try_catch. rewrite persist_split.
    unfold stats_world. unfold bind at 1.
    destruct (reference b f (connected (validated_world w b g f))) as [w1 r1].
    cbn [fst snd] in *. subst r1. unfold bind.
    destruct (updatePlayerStats parseFloat validate g w1) as [w2 [[]|e|e]]; reflexivity. }
  rewrite Hrun.
  destruct (updatePlayerStats parseFloat validate g (stats_world w b g f))
    as [w2 [[]|e|e]]; split; reflexivity.
Qed.

End Reference.

Section Batch.

Variable parseFloat : value -> value.
Variable validate : sqltype -> value -> option value.

Local Abbreviation request_of := (request_of parseFloat).
Local Abbreviation updateOne := (updateOne parseFloat validate).
Local Abbreviation updateAll := (updateAll parseFloat validate).
Local Abbreviation updatePlayerStats := (updatePlayerStats parseFloat validate).
Local Abbreviation main := (main parseFloat validate).

Lemma updateAll_spec (rows : list value) (w : World) :
  Forall readable rows -> holds_for w (length rows) ->
  exists ext,
    journal (sql (fst (updateAll (VArr rows) w))) = journal (sql w) ++ ext /\
    map fst ext = map request_of rows /\
    Forall (fun en => forall err, snd en <> Lost err) ext /\
    snd (updateAll (VArr rows) w)
      = Ok (length (List.filter applied ext), length (List.filter failed ext)).
Proof.
  intros Hrows Hhold. unfold updateAll, bind. cbn [console_log print indexed].
  set (w1 := mkWorld _ _ _).
  destruct (stats_loop parseFloat validate (field "length" (VArr rows)) rows Hrows 0 0 w1 Hhold)
    as (ext & Hj & Hm & Hnl & Hr & _).
  exists ext.
  destruct (for_each rows _ (0, 0) w1) as [w2 r2]. cbn [fst snd] in *. subst r2.
  cbn. repeat split; auto.
Qed.

(** A batch of N readable rows on a connection that stays up: every row
    is sent, once and in order; with K the number of requests that failed,
    N - K rows are counted as updated and K as errors; the function raises
    "Failed to update K players" after the whole batch iff K > 0, and a run
    whose live-statistics phase this is exits with code 1 iff K > 0. *)
Lemma batch_counts (g : value) (rows : list value) (w : World) :
  nullish g = false ->
  field "elements" g = VArr rows ->
  Forall readable rows ->
  holds_for w (length rows) ->
  exists ext,
    let K := length (List.filter failed ext) in
    journal (sql (fst (updatePlayerStats g w))) = journal (sql w) ++ ext /\
    map fst ext = map request_of rows /\
    length (List.filter applied ext) = length rows - K /\
    K <= length rows /\
    snd (updateAll (VArr rows) w) = Ok (length rows - K, K) /\
    snd (updatePlayerStats g w)
      = (if Nat.eqb K 0 then Ok tt
         else Throw (new_Error [VStr "Failed to update "; num K; VStr " players"])) /\
    (forall w0 b f,
       reaches_stats parseFloat validate w0 b g f ->
       w = stats_world parseFloat validate w0 b g f ->
       snd (main w0) = if Nat.eqb K 0 then 0%Z else 1%Z).
Proof.
  intros Hg Hel Hrows Hhold.
  destruct (updateAll_spec rows w Hrows Hhold) as (ext & Hj & Hm & Hnl & Hr).
  pose proof (applied_or_failed ext Hnl) as Hsum.
  assert (Hlen : length ext = length rows).
  { rewrite <- (length_map fst ext), Hm, length_map. reflexivity. }
  exists ext. cbn zeta.
  assert (Hstats :
    journal (sql (fst (updatePlayerStats g w))) = journal (sql w) ++ ext /\
    snd (updatePlayerStats g w)
      = (if Nat.eqb (length (List.filter failed ext)) 0 then Ok tt
         else Throw (new_Error [VStr "Failed to update ";
                                num (length (List.filter failed ext)); VStr " players"]))).
  { unfold updatePlayerStats, bind, prop. rewrite Hg. cbn [ret]. rewrite Hel.
    cbn [nullish ret].
    change (field "length" (VArr rows)) with (num (length rows)).
    rewrite js_eq_num_num.
    destruct rows as [|x rows'].
    - destruct ext; [|discriminate]. cbn. rewrite app_nil_r. split; reflexivity.
    - cbn [length Nat.eqb].
      destruct (updateAll (VArr (x :: rows')) w) as [w2 r2]. cbn [fst snd] in *. subst r2.
      cbn [snd].
      destruct (length (List.filter failed ext)); (split; [exact Hj | reflexivity]). }
  destruct Hstats as [Hj' Hr'].
  repeat split.
  - exact Hj'.
  - exact Hm.
  - lia.
  - lia.
  - rewrite Hr. f_equal. f_equal. lia.
  - exact Hr'.
  - intros w0 b f Hreach ->.
    destruct (main_after_reference parseFloat validate w0 b g f Hreach) as [-> _].
    rewrite Hr'. destruct (Nat.eqb _ 0); reflexivity.
Qed.

End Batch.

(** ** Rows and statements *)

(** The value the last assignment to column [c] in [vs] gives it. *)
Fixpoint written (vs : list (string * value)) (c : string) : option value :=
  match vs with
  | [] => None
  | (c', v) :: rest =>
      match written rest c with
      | Some v' => Some v'
      | None => if String.eqb c c' then Some v else None
      end
  end.

Lemma write_lookup (vs : list (string * value)) (r : row) (c : string) :
  write vs r !! c = match written vs c with Some v => Some v | None => r !! c end.
Proof.
  revert r. induction vs as [|[c' v] vs IH]; intros r; cbn [write written].
  - reflexivity.
  - rewrite IH. destruct (written vs c); [reflexivity|].
    destruct (String.eqb_spec c c') as [->|Hne].
    + apply lookup_insert_eq.
    + apply lookup_insert_ne. congruence.
Qed.

Lemma written_app (vs vs' : list (string * value)) (c : string) :
  written (vs ++ vs') c = match written vs' c with
                          | Some v => Some v
                          | None => written vs c
                          end.
Proof.
  induction vs as [|[c' v] vs IH]; cbn [app written].
  - destruct (written vs' c); reflexivity.
  - rewrite IH. destruct (written vs' c); reflexivity.
Qed.

Lemma values_app (l1 l2 : list (string * source)) (ps : list (string * value))
    (now : value) (vs : list (string * value)) :
  values (l1 ++ l2) ps now = Some vs ->
  exists v1 v2, values l1 ps now = Some v1 /\ values l2 ps now = Some v2 /\ vs = v1 ++ v2.
Proof.
  revert vs. induction l1 as [|[c s] l1 IH]; intros vs; cbn [app values].
  - intros H. exists [], vs. auto.
  - destruct (eval s ps now) as [v|]; [|discriminate].
    destruct (values (l1 ++ l2) ps now) as [vs'|]; [|discriminate].
    intros [= <-]. destruct (IH vs' eq_refl) as (v1 & v2 & -> & -> & ->).
    exists ((c, v) :: v1), v2. auto.
Qed.

(** The columns [names], each assigned from the parameter of its name. *)
Lemma values_cols (names : list string) (ps : list (string * value)) (now : value)
    (vs : list (string * value)) :
  values (cols names) ps now = Some vs ->
  forall c, written vs c = if decide (c ∈ names) then declared c ps else None.
Proof.
  revert vs. induction names as [|n names IH]; intros vs; cbn [cols map values eval].
  - intros [= <-] c. cbn. destruct (decide (c ∈ [])) as [H|]; [|reflexivity].
    inversion H.
  - destruct (declared n ps) as [v|] eqn:Hn; [|discriminate].
    fold (cols names). destruct (values (cols names) ps now) as [vs'|] eqn:Hvs; [|discriminate].
    intros [= <-] c. cbn [written]. rewrite (IH vs' eq_refl c).
    destruct (decide (c ∈ names)) as [Hin|Hnin].
    + assert (Hsome : is_Some (declared c ps)).
      { clear -Hvs Hin. revert vs' Hvs. induction names as [|m names IH]; intros vs' Hvs.
        - inversion Hin.
        - cbn [cols map values eval] in Hvs. fold (cols names) in Hvs.
          destruct (declared m ps) eqn:Hm; [|discriminate].
          destruct (values (cols names) ps now) eqn:Hv; [|discriminate].
          apply elem_of_cons in Hin as [->|Hin]; [rewrite Hm; eauto | eauto]. }
      destruct Hsome as [v' Hv']. rewrite Hv'.
      destruct (decide (c ∈ n :: names)) as [_|Hn']; [reflexivity|].
      exfalso. apply Hn'. right. exact Hin.
    + destruct (String.eqb_spec c n) as [->|Hne].
      * rewrite Hn. destruct (decide (n ∈ n :: names)) as [_|Hn']; [reflexivity|].
        exfalso. apply Hn'. left.
      * destruct (decide (c ∈ n :: names)) as [Hin|_]; [|reflexivity].
        exfalso. apply elem_of_cons in Hin as [?|?]; contradiction.
Qed.

(** What a MERGE does to the tables once its parameters are accepted. *)
Record effect := Effect {
  cell : string * Z;                       (* table, id *)
  vset : list (string * value);            (* SET list, evaluated *)
  vins : list (string * value);            (* INSERT columns and values *)
  at_time : value                          (* GETUTCDATE() *)
}.

Definition upsert (e : effect) (x : option row) : row :=
  match x with
  | Some r => write (vset e) r
  | None => write (vins e) {["last_updated" := at_time e]}
  end.

Definition apply_effect (db : database) (e : effect) : database :=
  <[cell e := upsert e (db !! cell e)]> db.

Section Effects.

Variable validate : sqltype -> value -> option value.

Definition effect_of (q : request) (now : value) : option effect :=
  match sql_text q, bound validate (parameters q) with
  | Merge t k set ins, Some ps =>
      match values set ps now, values ins ps now, declared k ps ≫= key_of with
      | Some vs, Some vi, Some (Some z) => Some (Effect (t, z) vs vi now)
      | _, _, _ => None
      end
  | _, _ => None
  end.

Lemma run_merge (q : request) (now : value) (db : database) (t k : string)
    (set ins : list (string * source)) :
  sql_text q = Merge t k set ins ->
  run validate now q db = apply_effect db <$> effect_of q now.
Proof.
  intros Hq. unfold run, effect_of. rewrite Hq.
  destruct (bound validate (parameters q)) as [ps|]; [|reflexivity].
  destruct (values set ps now) as [vs|]; [|reflexivity].
  destruct (values ins ps now) as [vi|]; [|reflexivity].
  destruct (declared k ps ≫= key_of) as [[z|]|]; try reflexivity.
  unfold apply_effect, upsert. cbn [cell vset vins at_time fmap option_fmap option_map].
  destruct (db !! (t, z)); reflexivity.
Qed.

End Effects.

(** ** Replaying a list of merges *)

(** Two rows that agree on every column but the timestamp. *)
Definition similar (r r' : row) : Prop :=
  forall c, c <> "last_updated" -> r !! c = r' !! c.

(** The same rows in every table, up to the timestamp column. *)
Definition same_rows (d d' : database) : Prop :=
  forall (table : string) (id : Z),
    match d !! (table, id), d' !! (table, id) with
    | Some r, Some r' => similar r r'
    | None, None => True
    | _, _ => False
    end.

(** The same merge at another time. *)
Definition twin (e e' : effect) : Prop :=
  cell e = cell e' /\ vins e = vins e' /\
  forall c, c <> "last_updated" -> written (vset e) c = written (vset e') c.

(** What the UPDATE branch sets, the INSERT branch sets to the same value. *)
Definition shaped (e : effect) : Prop :=
  forall c v, c <> "last_updated" ->
              written (vset e) c = Some v -> written (vins e) c = Some v.

(** Two merges set the same columns. *)
Definition akin (e e' : effect) : Prop :=
  forall c, c <> "last_updated" ->
            written (vset e) c = None <-> written (vset e') c = None.

(** Merges of one row set the same columns. *)
Definition coherent (E : list effect) : Prop :=
  forall e e', e ∈ E -> e' ∈ E -> cell e = cell e' -> akin e e'.

Definition touch (k : string * Z) (x : option row) (e : effect) : option row :=
  if decide (cell e = k) then Some (upsert e x) else x.

Definition last_writer (k : string * Z) (acc : option effect) (E : list effect)
  : option effect :=
  foldl (fun acc e => if decide (cell e = k) then Some e else acc) acc E.

Lemma apply_lookup (db : database) (e : effect) (k : string * Z) :
  apply_effect db e !! k = touch k (db !! k) e.
Proof.
  unfold apply_effect, touch. destruct (decide (cell e = k)) as [<-|Hne].
  - apply lookup_insert_eq.
  - apply lookup_insert_ne. exact Hne.
Qed.

Lemma replay_lookup (E : list effect) (db : database) (k : string * Z) :
  foldl apply_effect db E !! k = foldl (touch k) (db !! k) E.
Proof.
  revert db. induction E as [|e E IH]; intros db; cbn [foldl]; [reflexivity|].
  rewrite IH, apply_lookup. reflexivity.
Qed.

Lemma last_writer_snoc (k : string * Z) (E : list effect) (e : effect) :
  last_writer k None (E ++ [e])
    = if decide (cell e = k) then Some e else last_writer k None E.
Proof. unfold last_writer. rewrite foldl_app. reflexivity. Qed.

Lemma last_writer_in (k : string * Z) (E : list effect) (e : effect) :
  last_writer k None E = Some e -> e ∈ E /\ cell e = k.
Proof.
  induction E as [|e' E IH] using rev_ind; [discriminate|].
  rewrite last_writer_snoc. destruct (decide (cell e' = k)) as [Hk|Hk].
  - intros [= <-]. split; [apply elem_of_app; right; left | exact Hk].
  - intros H. destruct (IH H) as [Hin Hc]. split; [apply elem_of_app; left; exact Hin | exact Hc].
Qed.

Lemma last_writer_twin (k : string * Z) (E1 E2 : list effect) :
  Forall2 twin E1 E2 ->
  forall a1 a2, option_Forall2 twin a1 a2 ->
  option_Forall2 twin (last_writer k a1 E1) (last_writer k a2 E2).
Proof.
  induction 1 as [|e1 e2 E1 E2 Ht _ IH]; intros a1 a2 Ha; cbn; [exact Ha|].
  apply IH. destruct Ht as (Hc & Hrest). rewrite <- Hc.
  destruct (decide (cell e1 = k)); [constructor; split; auto | exact Ha].
Qed.

(** The first pass leaves in a row what its last merge wrote. *)
Lemma first_pass (k : string * Z) (E : list effect) (x : option row) :
  Forall shaped E ->
  match last_writer k None E with
  | Some e =>
      exists r1, foldl (touch k) x E = Some r1 /\
                 forall c v, c <> "last_updated" ->
                             written (vset e) c = Some v -> r1 !! c = Some v
  | None => foldl (touch k) x E = x
  end.
Proof.
  induction E as [|e E IH] using rev_ind; intros Hs; [reflexivity|].
  apply Forall_app in Hs as [Hs He]. apply Forall_cons in He as [He _].
  specialize (IH Hs).
  rewrite last_writer_snoc, foldl_app. cbn [foldl].
  set (y := foldl (touch k) x E) in *.
  destruct (decide (cell e = k)) as [Hk|Hk].
  - unfold touch. rewrite decide_True by exact Hk.
    eexists. split; [reflexivity|]. intros c v Hc Hw.
    unfold upsert. destruct y as [r|]; rewrite write_lookup.
    + rewrite Hw. reflexivity.
    + rewrite (He c v Hc Hw). reflexivity.
  - assert (Hy : touch k y e = y) by (unfold touch; rewrite decide_False; auto).
    rewrite Hy. exact IH.
Qed.

(** A pass over a row that exists only overwrites the columns of its last
    merge. *)
Lemma second_pass (k : string * Z) (F : list effect) (r : row) :
  coherent F ->
  exists r', foldl (touch k) (Some r) F = Some r' /\
             forall c, c <> "last_updated" ->
               r' !! c = match last_writer k None F with
                         | Some e => match written (vset e) c with
                                     | Some v => Some v
                                     | None => r !! c
                                     end
                         | None => r !! c
                         end.
Proof.
  induction F as [|e F IH] using rev_ind; intros Hco.
  - exists r. split; reflexivity.
  - destruct IH as (r'' & Hr'' & Hlook).
    { intros e1 e2 H1 H2. apply Hco; apply elem_of_app; left; assumption. }
    rewrite last_writer_snoc, foldl_app, Hr''. cbn [foldl]. unfold touch.
    destruct (decide (cell e = k)) as [Hk|Hk]; [|exists r''; split; [reflexivity | exact Hlook]].
    eexists. split; [reflexivity|]. intros c Hc. cbn [upsert]. rewrite write_lookup.
    destruct (written (vset e) c) eqn:Hw; [reflexivity|].
    rewrite (Hlook c Hc).
    destruct (last_writer k None F) as [e1|] eqn:Hl; [|reflexivity].
    apply last_writer_in in Hl as [Hin Hk1].
    assert (Hakin : akin e e1).
    { apply Hco; [apply elem_of_app; right; left | apply elem_of_app; left; exact Hin
                 | congruence]. }
    apply (Hakin c Hc) in Hw. rewrite Hw. reflexivity.
Qed.

(** Replaying the same merges on the tables they produced changes no row
    but for its timestamp. *)
Lemma replay_same_rows (E1 E2 : list effect) (db : database) :
  Forall2 twin E1 E2 -> Forall shaped E1 -> coherent E2 ->
  same_rows (foldl apply_effect db E1) (foldl apply_effect (foldl apply_effect db E1) E2).
Proof.
  intros Htwin Hshaped Hco table id. set (k := (table, id)).
  rewrite (replay_lookup E2), !(replay_lookup E1).
  pose proof (first_pass k E1 (db !! k) Hshaped) as H1.
  pose proof (last_writer_twin k E1 E2 Htwin None None ltac:(constructor)) as Hlw.
  destruct (last_writer k None E1) as [e1|] eqn:Hl1;
    inversion Hlw as [? e2 Ht Ha Hb|Ha Hb]; subst.
  - destruct H1 as (r1 & -> & Hr1).
    destruct (second_pass k E2 r1 Hco) as (r2 & -> & Hr2).
    intros c Hc. rewrite (Hr2 c Hc), <- Hb.
    destruct Ht as (_ & _ & Hw). rewrite <- (Hw c Hc).
    destruct (written (vset e1) c) as [v|] eqn:Hv; [|reflexivity].
    apply (Hr1 c v Hc Hv).
  - rewrite H1.
    pose proof (first_pass k E2 (db !! k)) as H2.
    assert (Hnone : forall x, foldl (touch k) x E2 = x).
    { clear -Hb. intros x. symmetry in Hb. revert Hb.
      induction E2 as [|e E2 IH] using rev_ind; [reflexivity|].
      rewrite last_writer_snoc, foldl_app. cbn [foldl]. unfold touch at 1.
      destruct (decide (cell e = k)); [discriminate | exact IH]. }
    rewrite Hnone. destruct (db !! k); [intros c _; reflexivity | exact I].
Qed.

(** ** The five MERGE statements *)

Definition merge_of (t : string) (cs ics : list string) : statement :=
  Merge t "id" (cols cs ++ [("last_updated", GetUtcDate)]) (cols ics).

(** Table, columns of the UPDATE branch, columns of the INSERT branch. *)
Definition shapes : list (string * list string * list string) :=
  [ ("teams", team_columns, "id" :: team_columns);
    ("element_types", element_type_columns, "id" :: element_type_columns);
    ("events", event_columns, "id" :: event_columns);
    ("fixtures", fixture_columns, "id" :: fixture_columns);
    ("players", player_columns,
     ["id"; "web_name"; "first_name"; "second_name"; "team"; "element_type"; "code";
      "now_cost"; "total_points"; "form"; "points_per_game"; "selected_by_percent";
      "status"]) ].

(** [q] is one of the five merge-upserts. *)
Definition upserts (q : request) : Prop :=
  exists t cs ics, (t, cs, ics) ∈ shapes /\ sql_text q = merge_of t cs ics.

Lemma shapes_cover (t : string) (cs ics : list string) :
  (t, cs, ics) ∈ shapes -> forall c, c ∈ cs -> c ∈ ics.
Proof.
  intros H c Hc. unfold shapes in H.
  repeat (apply elem_of_cons in H as [[= -> -> ->]|H]); try (right; exact Hc).
  - unfold player_columns in Hc. rewrite !elem_of_cons, elem_of_nil in Hc.
    rewrite !elem_of_cons. tauto.
  - inversion H.
Qed.

Lemma shapes_by_table (t : string) (cs ics cs' ics' : list string) :
  (t, cs, ics) ∈ shapes -> (t, cs', ics') ∈ shapes -> cs = cs'.
Proof.
  intros H H'. unfold shapes in H, H'.
  repeat (apply elem_of_cons in H as [[= -> -> ->]|H]); try (inversion H; fail);
    repeat (apply elem_of_cons in H' as [[= <- _]|H']); try (inversion H'; fail);
    reflexivity.
Qed.

Lemma values_cols_now (names : list string) (ps : list (string * value)) (now now' : value) :
  values (cols names) ps now = values (cols names) ps now'.
Proof.
  induction names as [|n names IH]; [reflexivity|].
  cbn [cols map values eval]. fold (cols names). rewrite IH. reflexivity.
Qed.

Section Shapes.

Variable validate : sqltype -> value -> option value.

Local Abbreviation effect_of := (effect_of validate).

(** The effect of a merge of shape [(t, cs, ics)], column by column. *)
Lemma effect_columns (q : request) (now : value) (e : effect) (t : string)
    (cs ics : list string) :
  sql_text q = merge_of t cs ics -> effect_of q now = Some e ->
  exists ps z,
    bound validate (parameters q) = Some ps /\
    declared "id" ps ≫= key_of = Some (Some z) /\
    cell e = (t, z) /\
    values (cols ics) ps now = Some (vins e) /\
    (forall c, c <> "last_updated" ->
               written (vset e) c = if decide (c ∈ cs) then declared c ps else None) /\
    (forall c, written (vins e) c = if decide (c ∈ ics) then declared c ps else None) /\
    (forall c, c ∈ cs -> is_Some (declared c ps)).
Proof.
  intros Hq. unfold effect_of. rewrite Hq. unfold merge_of.
  destruct (bound validate (parameters q)) as [ps|]; [|discriminate].
  destruct (values (cols cs ++ _) ps now) as [vs|] eqn:Hvs; [|discriminate].
  destruct (values (cols ics) ps now) as [vi|] eqn:Hvi; [|discriminate].
  destruct (declared "id" ps ≫= key_of) as [[z|]|] eqn:Hk; try discriminate.
  intros [= <-]. cbn [cell vset vins].
  apply values_app in Hvs as (v1 & v2 & Hv1 & Hv2 & ->).
  cbn in Hv2. injection Hv2 as <-.
  pose proof (values_cols cs ps now v1 Hv1) as Hw1.
  pose proof (values_cols ics ps now vi Hvi) as Hwi.
  exists ps, z. repeat split; auto.
  - intros c Hc. rewrite written_app. cbn [written].
    destruct (String.eqb_spec c "last_updated"); [contradiction|]. apply Hw1.
  - intros c Hc. specialize (Hw1 c). rewrite decide_True in Hw1 by exact Hc.
    clear -Hv1 Hc. revert v1 Hv1. induction cs as [|n cs IH]; intros v1 Hv1.
    + inversion Hc.
    + cbn [cols map values eval] in Hv1. fold (cols cs) in Hv1.
      destruct (declared n ps) eqn:Hn; [|discriminate].
      destruct (values (cols cs) ps now) eqn:Hv; [|discriminate].
      apply elem_of_cons in Hc as [->|Hc]; [rewrite Hn; eauto | eauto].
Qed.

Lemma effect_shaped (q : request) (now : value) (e : effect) :
  upserts q -> effect_of q now = Some e -> shaped e.
Proof.
  intros (t & cs & ics & Hin & Hq) He c v Hc Hw.
  destruct (effect_columns q now e t cs ics Hq He)
    as (ps & z & _ & _ & _ & _ & Hset & Hins & _).
  rewrite (Hset c Hc) in Hw. rewrite Hins.
  destruct (decide (c ∈ cs)) as [Hcs|]; [|discriminate].
  rewrite decide_True by (eapply shapes_cover; eauto). exact Hw.
Qed.

Lemma effect_twin (q : request) (now now' : value) (e e' : effect) :
  upserts q -> effect_of q now = Some e -> effect_of q now' = Some e' -> twin e e'.
Proof.
  intros (t & cs & ics & Hin & Hq) He He'.
  destruct (effect_columns q now e t cs ics Hq He)
    as (ps & z & Hb & Hk & Hc & Hv & Hset & _).
  destruct (effect_columns q now' e' t cs ics Hq He')
    as (ps' & z' & Hb' & Hk' & Hc' & Hv' & Hset' & _).
  rewrite Hb in Hb'. injection Hb' as <-.
  rewrite Hk in Hk'. injection Hk' as <-.
  rewrite (values_cols_now ics ps now' now), Hv in Hv'. injection Hv' as Hv'.
  repeat split; [congruence | exact Hv' |].
  intros c Hne. rewrite (Hset c Hne), (Hset' c Hne). reflexivity.
Qed.

Lemma effect_akin (q q' : request) (now now' : value) (e e' : effect) :
  upserts q -> upserts q' ->
  effect_of q now = Some e -> effect_of q' now' = Some e' ->
  cell e = cell e' -> akin e e'.
Proof.
  intros (t & cs & ics & Hin & Hq) (t' & cs' & ics' & Hin' & Hq') He He' Hcell.
  destruct (effect_columns q now e t cs ics Hq He)
    as (ps & z & _ & _ & Hc & _ & Hset & _ & Hdecl).
  destruct (effect_columns q' now' e' t' cs' ics' Hq' He')
    as (ps' & z' & _ & _ & Hc' & _ & Hset' & _ & Hdecl').
  rewrite Hc, Hc' in Hcell. injection Hcell as <- <-.
  assert (cs' = cs) as -> by (eapply shapes_by_table; eauto).
  intros c Hne. rewrite (Hset c Hne), (Hset' c Hne).
  destruct (decide (c ∈ cs)) as [Hcs|]; [|tauto].
  destruct (Hdecl c Hcs) as [v ->]. destruct (Hdecl' c Hcs) as [v' ->].
  split; discriminate.
Qed.

(** The tables of [w1] are those of [w] after the merges [qs], each at some
    server time. *)
Definition replays (qs : list request) (w w1 : World) : Prop :=
  exists E,
    Forall2 (fun q e => exists now, effect_of q now = Some e) qs E /\
    tables (sql w1) = foldl apply_effect (tables (sql w)) E.

Lemma replays_nil (w w1 : World) : tables (sql w1) = tables (sql w) -> replays [] w w1.
Proof. intros H. exists []. split; [constructor | exact H]. Qed.

Lemma replays_app (qs qs' : list request) (w w1 w2 : World) :
  replays qs w w1 -> replays qs' w1 w2 -> replays (qs ++ qs') w w2.
Proof.
  intros (E & HE & Ht) (E' & HE' & Ht'). exists (E ++ E'). split.
  - apply Forall2_app; assumption.
  - rewrite foldl_app, <- Ht. exact Ht'.
Qed.

(** Idempotence at the level of journals of merges. *)
Lemma replays_twice (qs : list request) (w w1 w2 : World) :
  Forall upserts qs -> replays qs w w1 -> replays qs w1 w2 ->
  same_rows (tables (sql w1)) (tables (sql w2)).
Proof.
  intros Hqs (E1 & HE1 & Ht1) (E2 & HE2 & Ht2). rewrite Ht2, Ht1.
  apply replay_same_rows.
  - clear Ht1 Ht2. revert E2 HE2.
    induction HE1 as [|q e1 qs E1 (now & He1) _ IH]; intros E2 HE2.
    + inversion HE2. constructor.
    + inversion HE2 as [|? e2 ? E2' (now' & He2) HE2']; subst.
      apply Forall_cons in Hqs as [Hq Hqs].
      constructor; [eapply effect_twin; eauto | apply IH; assumption].
  - clear -Hqs HE1. induction HE1 as [|q e1 qs E1 (now & He1) _ IH]; [constructor|].
    apply Forall_cons in Hqs as [Hq Hqs].
    constructor; [eapply effect_shaped; eauto | apply IH; assumption].
  - intros e e' Hin Hin' Hcell.
    assert (Hsrc : forall x, x ∈ E2 -> exists q now, upserts q /\ effect_of q now = Some x).
    { clear -Hqs HE2. induction HE2 as [|q e2 qs E2 (now & He2) _ IH]; intros x Hx.
      - inversion Hx.
      - apply Forall_cons in Hqs as [Hq Hqs].
        apply elem_of_cons in Hx as [->|Hx]; [eauto | apply IH; assumption]. }
    destruct (Hsrc e Hin) as (q & now & Hq & He).
    destruct (Hsrc e' Hin') as (q' & now' & Hq' & He').
    exact (effect_akin q q' now now' e e' Hq Hq' He He' Hcell).
Qed.

End Shapes.

(** ** The merge-upserts as replays *)

(** The values [for (const x of v)] visits. *)
Definition items (v : value) : list value :=
  match v with
  | VArr l => l
  | VStr s => map (fun c => VStr (String c EmptyString)) (String.list_ascii_of_string s)
  | _ => []
  end.

Lemma bind_ok_inv {A B} (m : M A) (k : A -> M B) (w w1 : World) (b : B) :
  bind m k w = (w1, Ok b) -> exists a wa, m w = (wa, Ok a) /\ k a wa = (w1, Ok b).
Proof.
  unfold bind. destruct (m w) as [wa [a|e|e]]; try discriminate. eauto.
Qed.

Lemma preserved_sql {A} (m : M A) (w wa : World) (r : result A) :
  preserves sql m -> m w = (wa, r) -> sql wa = sql w.
Proof. intros Hm H. specialize (Hm w). rewrite H in Hm. exact Hm. Qed.

Lemma sql_iterate (v : value) : preserves sql (iterate v).
Proof. unfold iterate. keeps. Qed.

Lemma iterate_items (v : value) (w wa : World) (l : list value) :
  iterate v w = (wa, Ok l) -> l = items v.
Proof. destruct v; cbn; intros [= _ <-]; reflexivity. Qed.

Section Replaying.

Variable parseFloat : value -> value.
Variable validate : sqltype -> value -> option value.

Local Abbreviation replays := (replays validate).

Lemma replays_transfer (qs : list request) (w w' w1 w1' : World) :
  replays qs w w1 -> sql w' = sql w -> sql w1' = sql w1 -> replays qs w' w1'.
Proof. intros (E & HE & Ht) H H1. exists E. rewrite H, H1. auto. Qed.

Lemma submit_replays (build : value -> request) (x : value) (w w1 : World) :
  upserts (build x) -> submit validate build x w = (w1, Ok tt) -> replays [build x] w w1.
Proof.
  intros (t & cs & ics & _ & Hq). unfold submit.
  destruct (nullish x); [discriminate|]. intros H.
  destruct (execSql_spec validate (build x) w) as (o & _ & Hr & Hcase).
  rewrite H in Hr, Hcase. cbn [fst snd] in *.
  destruct o; try discriminate. destruct Hcase as [_ Hrun].
  rewrite (run_merge validate _ _ _ _ _ _ _ Hq) in Hrun.
  destruct (effect_of validate (build x) _) as [e|] eqn:He; [|discriminate].
  injection Hrun as Hrun. exists [e]. split; [repeat constructor; eauto | auto].
Qed.

(** One turn of a merge loop: the request, then steps that leave the
    connection alone. *)
Lemma turn_replays (build : value -> request) (x : value) {S : Type} (k : M S)
    (w w1 : World) (s1 : S) :
  upserts (build x) -> preserves sql k ->
  bind (submit validate build x) (fun _ => k) w = (w1, Ok s1) -> replays [build x] w w1.
Proof.
  intros Hq Hk H. apply bind_ok_inv in H as ([] & wa & Hs & Hk').
  eapply replays_transfer; [apply (submit_replays build x w wa Hq Hs) | reflexivity |].
  eapply preserved_sql; eauto.
Qed.

Lemma loop_replays (build : value -> request) {S : Type} (body : value -> S -> M S) :
  (forall x s w w1 s1, body x s w = (w1, Ok s1) -> replays [build x] w w1) ->
  forall l s w w1 s1,
    for_each l body s w = (w1, Ok s1) -> replays (map build l) w w1.
Proof.
  intros Hbody. induction l as [|x l IH]; intros s w w1 s1; cbn [for_each map].
  - intros [= <- _]. apply replays_nil. reflexivity.
  - intros H. apply bind_ok_inv in H as (sa & wa & Hx & Hl).
    change (build x :: map build l) with ([build x] ++ map build l).
    eapply replays_app; [eapply Hbody; eauto | eapply IH; eauto].
Qed.

(** The script of the five proofs below: the function logs, iterates,
    loops and logs again. *)
Ltac upsert_replays build :=
  let H := fresh "H" in
  intros H;
  apply bind_ok_inv in H as (?n & ?wa & ?Hn & H);
  apply bind_ok_inv in H as ([] & ?wb & ?Hlog & H);
  apply bind_ok_inv in H as (?l & ?wc & ?Hit & H);
  apply bind_ok_inv in H as (?c & ?wd & ?Hloop & H);
  lazymatch goal with
  | Hn : prop _ _ _ = (?wa, _), Hlog : console_log _ ?wa = (?wb, _),
    Hit : iterate _ ?wb = (?wc, Ok ?l), Hloop : for_each ?l _ _ ?wc = (?wd, _) |- _ =>
      rewrite <- (iterate_items _ _ _ _ Hit);
      apply (replays_transfer _ wc _ wd);
      [ apply (loop_replays build _) in Hloop; [exact Hloop|];
        intros ? ? ? ? ?; apply turn_replays;
        [ eexists _, _, _; split; [|reflexivity];
          unfold shapes; rewrite !elem_of_cons; tauto
        | keeps ]
      | rewrite (preserved_sql _ _ _ _ (sql_iterate _) Hit),
                (preserved_sql _ _ _ _ (sql_print _ _) Hlog),
                (preserved_sql _ _ _ _ (preserves_prop sql _ _) Hn);
        reflexivity
      | exact (preserved_sql _ _ _ _ (sql_print _ _) H) ]
  end.

Lemma updateTeams_replays (v : value) (w w1 : World) :
  updateTeams validate v w = (w1, Ok tt) -> replays (map team_request (items v)) w w1.
Proof. unfold updateTeams. upsert_replays team_request. Qed.

Lemma updateElementTypes_replays (v : value) (w w1 : World) :
  updateElementTypes validate v w = (w1, Ok tt) ->
  replays (map element_type_request (items v)) w w1.
Proof. unfold updateElementTypes. upsert_replays element_type_request. Qed.

Lemma updateEvents_replays (v : value) (w w1 : World) :
  updateEvents validate v w = (w1, Ok tt) -> replays (map event_request (items v)) w w1.
Proof. unfold updateEvents. upsert_replays event_request. Qed.

Lemma updateFixtures_replays (v : value) (w w1 : World) :
  updateFixtures validate v w = (w1, Ok tt) -> replays (map fixture_request (items v)) w w1.
Proof. unfold updateFixtures. upsert_replays fixture_request. Qed.

Lemma updatePlayers_replays (v : value) (w w1 : World) :
  updatePlayers parseFloat validate v w = (w1, Ok tt) ->
  replays (map (player_request parseFloat) (items v)) w w1.
Proof. unfold updatePlayers. upsert_replays (player_request parseFloat). Qed.

End Replaying.

(** ** Idempotence of the merge-upserts *)

Lemma prop_ok (k : string) (v x : value) (w wa : World) :
  prop k v w = (wa, Ok x) -> x = field k v /\ wa = w.
Proof. unfold prop. destruct (nullish v); intros [= <- <-]; auto. Qed.

Section Idempotence.

Variable parseFloat : value -> value.
Variable validate : sqltype -> value -> option value.

Local Abbreviation replays := (replays validate).
Local Abbreviation reference := (reference parseFloat validate).

(** The merges a reference snapshot amounts to, in the order they are sent. *)
Definition requests (b f : value) : list request :=
  map team_request (items (field "teams" b))
  ++ map element_type_request (items (field "element_types" b))
  ++ map event_request (items (field "events" b))
  ++ map fixture_request (items f)
  ++ map (player_request parseFloat) (items (field "elements" b)).

Lemma reference_replays (b f : value) (w w1 : World) :
  reference b f w = (w1, Ok tt) -> replays (requests b f) w w1.
Proof.
  unfold reference, requests. intros H.
  apply bind_ok_inv in H as (teams & w' & Hp & H). apply prop_ok in Hp as [-> ->].
  apply bind_ok_inv in H as ([] & wa & Ha & H). apply (updateTeams_replays parseFloat validate) in Ha.
  apply bind_ok_inv in H as (types & w' & Hp & H). apply prop_ok in Hp as [-> ->].
  apply bind_ok_inv in H as ([] & wb & Hb & H). apply (updateElementTypes_replays parseFloat validate) in Hb.
  apply bind_ok_inv in H as (events & w' & Hp & H). apply prop_ok in Hp as [-> ->].
  apply bind_ok_inv in H as ([] & wc & Hc & H). apply (updateEvents_replays parseFloat validate) in Hc.
  apply bind_ok_inv in H as ([] & wd & Hd & H). apply (updateFixtures_replays parseFloat validate) in Hd.
  apply bind_ok_inv in H as (elements & w' & Hp & H). apply prop_ok in Hp as [-> ->].
  apply (updatePlayers_replays parseFloat validate) in H.
  repeat (eapply replays_app; [eassumption|]). exact H.
Qed.

Lemma upserts_map (build : value -> request) (l : list value) :
  (forall x, upserts (build x)) -> Forall upserts (map build l).
Proof. intros H. induction l; constructor; auto. Qed.

Ltac shape := intros ?; eexists _, _, _; split; [|reflexivity];
              unfold shapes; rewrite !elem_of_cons; tauto.

Lemma upserts_requests (b f : value) : Forall upserts (requests b f).
Proof.
  unfold requests. repeat (apply Forall_app; split); apply upserts_map; shape.
Qed.

(** Applications of (a part of) a reference snapshot: one of the five
    merge-upsert functions, or the five in the order of [updateDatabase]. *)
Inductive merge_upsert : M unit -> Prop :=
| upsert_teams (v : value) : merge_upsert (updateTeams validate v)
| upsert_element_types (v : value) : merge_upsert (updateElementTypes validate v)
| upsert_events (v : value) : merge_upsert (updateEvents validate v)
| upsert_fixtures (v : value) : merge_upsert (updateFixtures validate v)
| upsert_players (v : value) : merge_upsert (updatePlayers parseFloat validate v)
| upsert_reference (b f : value) : merge_upsert (reference b f).

(** C7. Applying the same reference data twice in succession, both
    applications completing: after the second application every table holds
    the same rows as after the first, equal in every column except
    [last_updated]. *)
Theorem merge_upsert_is_idempotent (m : M unit) (w w1 w2 : World) :
  merge_upsert m ->
  m w = (w1, Ok tt) ->
  m w1 = (w2, Ok tt) ->
  same_rows (tables (sql w1)) (tables (sql w2)).
Proof.
  intros Hm H1 H2.
  destruct Hm as [v|v|v|v|v|b f].
  - apply (updateTeams_replays parseFloat validate) in H1, H2.
    eapply (replays_twice validate); [ | exact H1 | exact H2]; apply upserts_map; shape.
  - apply (updateElementTypes_replays parseFloat validate) in H1, H2.
    eapply (replays_twice validate); [ | exact H1 | exact H2]; apply upserts_map; shape.
  - apply (updateEvents_replays parseFloat validate) in H1, H2.
    eapply (replays_twice validate); [ | exact H1 | exact H2]; apply upserts_map; shape.
  - apply (updateFixtures_replays parseFloat validate) in H1, H2.
    eapply (replays_twice validate); [ | exact H1 | exact H2]; apply upserts_map; shape.
  - apply (updatePlayers_replays parseFloat validate) in H1, H2.
    eapply (replays_twice validate); [ | exact H1 | exact H2]; apply upserts_map; shape.
  - apply reference_replays in H1, H2.
    eapply (replays_twice validate); [ | exact H1 | exact H2]; apply upserts_requests.
Qed.

End Idempotence.

(** ** A live row without a player *)

Lemma bound_declared (validate : sqltype -> value -> option value)
    (l : list (string * (sqltype * value))) (ps : list (string * value)) (n : string) :
  bound validate l = Some ps -> n ∈ map fst l -> is_Some (declared n ps).
Proof.
  revert ps. induction l as [|[m [t v]] l IH]; intros ps; cbn [bound map fst].
  - intros _ H. inversion H.
  - destruct (validate t v) as [v'|]; [|discriminate].
    destruct (bound validate l) as [ps'|]; [|discriminate].
    intros [= <-] Hin. cbn [declared].
    destruct (String.eqb_spec n m) as [->|Hne]; [eauto|].
    apply elem_of_cons in Hin as [?|Hin]; [contradiction | eauto].
Qed.

Lemma values_declared (cs : list (string * source)) (ps : list (string * value))
    (now : value) :
  Forall (fun c => match snd c with
                   | Param n => is_Some (declared n ps)
                   | GetUtcDate => True
                   end) cs ->
  is_Some (values cs ps now).
Proof.
  induction 1 as [|[c src] cs Hc _ IH]; cbn [values]; [eauto|].
  destruct IH as [vs ->]. destruct src as [n|]; cbn in *.
  - destruct Hc as [v ->]. eauto.
  - eauto.
Qed.

Section Unmatched.

Variable parseFloat : value -> value.
Variable validate : sqltype -> value -> option value.

Local Abbreviation request_of := (request_of parseFloat).
Local Abbreviation execSql := (execSql validate).
Local Abbreviation updateOne := (updateOne parseFloat validate).

(** The UPDATE of a row whose id is NULL or names no player changes no
    table. *)
Lemma update_without_match (x : value) (now : value) (db : database)
    (ps : list (string * value)) (k : option Z) :
  bound validate (parameters (request_of x)) = Some ps ->
  declared "player_id" ps ≫= key_of = Some k ->
  (forall z, k = Some z -> db !! ("players", z) = None) ->
  run validate now (request_of x) db = Some db.
Proof.
  intros Hb Hk Hnone. unfold run. rewrite Hb.
  change (sql_text (request_of x)) with players_update. unfold players_update.
  destruct (values_declared (cols stat_columns ++ [("last_updated", GetUtcDate)]) ps now)
    as [vs ->].
  { apply Forall_app. split; [|repeat constructor].
    unfold cols. apply Forall_map. apply Forall_forall. intros n Hn. cbn.
    apply (bound_declared validate _ ps n Hb).
    change (map fst (parameters (request_of x))) with ("player_id" :: stat_columns).
    right. exact Hn. }
  rewrite Hk. destruct k as [z|]; [|reflexivity].
  rewrite (Hnone z eq_refl). reflexivity.
Qed.

End Unmatched.

(** C10. A readable live row whose parameters the driver accepts and whose
    player id is NULL or matches no row of [players]: the UPDATE is applied
    without error and changes no table, and the loop counts the row as a
    success, not as an error.  A run can end with exit code 0 although such
    a row was in the batch: on the sample world the row for player 999 is
    sent, the run exits 0, and [players] has no row 999. *)
Theorem unmatched_row_counts_as_success
    (parseFloat : value -> value) (validate : sqltype -> value -> option value)
    (x len : value) (w : World) (ps : list (string * value)) (k : option Z) (u e : nat) :
  readable x ->
  server (sql w) (length (journal (sql w))) = Accept ->
  bound validate (parameters (request_of parseFloat x)) = Some ps ->
  declared "player_id" ps ≫= key_of = Some k ->
  (forall z, k = Some z -> tables (sql w) !! ("players", z) = None) ->
  (snd (execSql validate (request_of parseFloat x) w) = Ok tt /\
   tables (sql (fst (execSql validate (request_of parseFloat x) w))) = tables (sql w) /\
   snd (updateOne parseFloat validate len x (u, e) w) = Ok (S u, e) /\
   tables (sql (fst (updateOne parseFloat validate len x (u, e) w))) = tables (sql w)) /\
  (let w' := fst (main Sample.parseFloat Sample.validate Sample.stranger) in
   snd (main Sample.parseFloat Sample.validate Sample.stranger) = 0%Z /\
   last (journal (sql w'))
     = Some (request_of Sample.parseFloat (Sample.stat 999 45), Applied) /\
   tables (sql w') !! ("players", 999%Z) = None).
Proof.
  intros Hx Hs Hb Hk Hnone. split; [|vm_compute; repeat split; reflexivity].
  pose proof (update_without_match parseFloat validate x
                (utc (sql w) (length (journal (sql w)))) (tables (sql w)) ps k Hb Hk Hnone)
    as Hrun.
  assert (Hexec : execSql validate (request_of parseFloat x) w
                  = (journaled w (request_of parseFloat x) Applied (tables (sql w)), Ok tt)).
  { unfold execSql. rewrite Hs, Hrun. reflexivity. }
  assert (Hhold : holds_for w 1).
  { intros i err Hi. replace i with 0 by lia. rewrite Nat.add_0_r, Hs. discriminate. }
  destruct (updateOne_spec parseFloat validate len x u e w Hx Hhold)
    as (o & _ & _ & Hr & _ & Hset & Ht).
  rewrite Hexec in *. cbn [fst snd] in *.
  destruct o; try discriminate.
  repeat split; auto.
Qed.

Section Persisting.

Variable parseFloat : value -> value.
Variable validate : sqltype -> value -> option value.

Local Abbreviation updateDatabase := (updateDatabase parseFloat validate).
Local Abbreviation main := (main parseFloat validate).

(** C6. In a run that reaches the write path the requests are sent in the
    order teams, element_types, events, fixtures, players, live statistics
    (phases 0 to 5); a request of a reference phase (0 to 4) that is not
    applied is the last request of the run, and the run exits with code 1. *)
Theorem writes_follow_dependency_order (w : World) (b g f : value) :
  reaches_write w b g f ->
  exists ext,
    journal (sql (fst (main w))) = journal (sql w) ++ ext /\
    StronglySorted le (phases ext) /\
    forall pre q o post,
      ext = pre ++ (q, o) :: post -> phase q < 5 -> o <> Applied ->
      post = [] /\ snd (main w) = 1%Z.
Proof.
  intros [Hreach Hvalid].
  pose proof (main_after_fetch parseFloat validate w b g f Hreach) as Hmain.
  rewrite Hvalid in Hmain. destruct Hmain as [Hsql Hcode].
  destruct (updateDatabase_journal parseFloat validate b g f (validated_world w b g f))
    as (ext & Hj & Hs & Hfatal).
  exists ext. rewrite Hsql, Hj, sql_validated_world.
  repeat split; auto.
  - eapply Hfatal; eauto.
  - destruct (Hfatal pre q o post) as (_ & e & _ & Hthrow); auto.
    rewrite Hcode, Hthrow. reflexivity.
Qed.

(** C5. When the live check answers [false] the run ends with exit code 0
    after the line "No live games. Skipping update.", and the connection
    is untouched (no request, no table changed, no connection opened).  The
    check comes before every write: a run that touched the connection at all
    had the check answer [true]. *)
Theorem no_live_game_is_a_successful_skip (w : World) :
  (snd (checkIfGameIsLive (started w)) = Ok false ->
   snd (main w) = 0%Z /\
   sql (fst (main w)) = sql w /\
   last (console (fst (main w))) = Some (Info, [VStr "No live games. Skipping update."])) /\
  (sql (fst (main w)) <> sql w -> snd (checkIfGameIsLive (started w)) = Ok true).
Proof.
  split.
  - intros Hfalse.
    destruct (main_without_live_game parseFloat validate w) as [Hsql Hcode].
    { rewrite Hfalse. discriminate. }
    rewrite Hfalse in Hcode. repeat split; auto.
    revert Hfalse. unfold main, run_main, bind, try_catch, started.
    cbn [console_log print fst].
    destruct (checkIfGameIsLive _) as [w1 r]. cbn [snd]. intros ->.
    cbn. apply last_snoc.
  - intros Hchanged.
    destruct (snd (checkIfGameIsLive (started w))) as [[|]|e|e] eqn:E; try reflexivity;
      exfalso; apply Hchanged;
      apply (main_without_live_game parseFloat validate w); rewrite E; discriminate.
Qed.

Lemma short_snapshot_violates (b g f : value) (players : list value) :
  field "elements" b = VArr players -> length players < minPlayersCount ->
  all_reasons b g f <> [].
Proof.
  intros Hel Hlen Hnil.
  assert (Hin : In (true, [VStr "Invalid player count: Expected at least ";
                           num minPlayersCount; VStr " players, but got ";
                           num (length players)])
                   (List.filter fst (hard_rules b g f))).
  { apply filter_In. split; [|reflexivity].
    unfold hard_rules. rewrite Hel. cbn [field String.eqb Ascii.eqb Bool.eqb].
    rewrite js_lt_num. apply Nat.ltb_lt in Hlen. rewrite Hlen.
    do 9 right. left. reflexivity. }
  unfold all_reasons in Hnil. destruct (List.filter fst (hard_rules b g f)).
  - contradiction.
  - discriminate.
Qed.

(** C4. A bootstrap snapshot with fewer than 400 players makes
    [validateData] answer [false] with a printed reason, whatever the rest
    of the data; a run that reaches validation with it exits with code 1
    and leaves the connection untouched: nothing is written. *)
Theorem short_snapshot_blocks_the_write (b g f : value) (players : list value) :
  field "elements" b = VArr players ->
  length players < minPlayersCount ->
  (forall w, snd (validateData b g f w) = Ok false /\
             errors (printed (validateData b g f) w) <> []) /\
  (forall w, reaches_validation w b g f ->
             snd (main w) = 1%Z /\ sql (fst (main w)) = sql w).
Proof.
  intros Hel Hlen.
  pose proof (short_snapshot_violates b g f players Hel Hlen) as Hbad.
  assert (Hfalse : forall w, snd (validateData b g f w) = Ok false).
  { intros w. destruct (validateData_outcome b g f w) as (added & -> & _).
    cbn [snd]. destruct (all_reasons b g f); [contradiction | reflexivity]. }
  split.
  - intros w. split; [apply Hfalse|].
    destruct (validateData_outcome b g f w) as (added & Hrun & Herr & _).
    unfold printed. rewrite Hrun. cbn [fst console]. rewrite drop_console, Herr.
    unfold first_reason. unfold all_reasons in Hbad.
    destruct (List.filter fst (hard_rules b g f)); [contradiction | discriminate].
  - intros w Hreach.
    pose proof (main_after_fetch parseFloat validate w b g f Hreach) as Hmain.
    rewrite Hfalse in Hmain. destruct Hmain. auto.
Qed.

(** C9. A snapshot whose team list is not empty and does not count 20
    teams, and that breaks no hard rule, passes validation: no error is
    printed, the deviation is printed as a warning, and a run that reaches
    validation with it goes on to [updateDatabase], whose outcome decides the
    exit code. *)
Theorem odd_team_count_is_only_a_warning (b g f : value) (teams : list value) :
  field "teams" b = VArr teams ->
  teams <> [] ->
  length teams <> expectedTeamsCount ->
  all_reasons b g f = [] ->
  forall w,
    snd (validateData b g f w) = Ok true /\
    errors (printed (validateData b g f) w) = [] /\
    In [VStr "Warning: Expected "; num expectedTeamsCount; VStr " teams, but got ";
        num (length teams)]
       (warnings (printed (validateData b g f) w)) /\
    (reaches_validation w b g f ->
     sql (fst (main w)) = sql (fst (updateDatabase b g f (validated_world w b g f))) /\
     snd (main w) = (match snd (updateDatabase b g f (validated_world w b g f)) with
                     | Ok _ => 0 | _ => 1 end)%Z).
Proof.
  intros Hteams _ Hcount Hok w.
  destruct (validateData_outcome b g f w) as (added & Hrun & Herr & Hwarn).
  assert (Htrue : snd (validateData b g f w) = Ok true).
  { rewrite Hrun, Hok. reflexivity. }
  split; [exact Htrue|].
  unfold printed. rewrite Hrun. cbn [fst console]. rewrite drop_console.
  split; [|split].
  - rewrite Herr. unfold first_reason. unfold all_reasons in Hok.
    destruct (List.filter fst (hard_rules b g f)); [reflexivity | discriminate].
  - rewrite (Hwarn Hok). unfold all_warnings, soft_rules.
    rewrite Hteams. cbn [field String.eqb Ascii.eqb Bool.eqb].
    rewrite js_eq_num_num. apply Nat.eqb_neq in Hcount. rewrite Hcount.
    cbn [negb List.filter fst map snd]. left. reflexivity.
  - intros Hreach.
    pose proof (main_after_fetch parseFloat validate w b g f Hreach) as Hmain.
    destruct (validateData_outcome b g f (fetched_world w)) as (added' & Hrun' & _).
    rewrite Hrun', Hok in Hmain. exact Hmain.
Qed.

End Persisting.


(** * The requests of a run and what they leave in the tables *)

(** ** The tables as a function of the journal *)

(** [m] can return [a]. *)
Definition returns {A} (m : M A) (a : A) : Prop := exists w, snd (m w) = Ok a.

Lemma bind_cases {A B} (m : M A) (k : A -> M B) (w : World) :
  match snd (m w) with
  | Ok a => bind m k w = k a (fst (m w))
  | Throw e => bind m k w = (fst (m w), Throw e)
  | Abandon e => bind m k w = (fst (m w), Abandon e)
  end.
Proof. unfold bind. destruct (m w) as [w1 [a|e|e]]; reflexivity. Qed.

Section Sending.

Variable validate : sqltype -> value -> option value.

Local Abbreviation execSql := (execSql validate).
Local Abbreviation submit := (submit validate).

(** The tables after the journal entries [ext], the first of which is
    request number [n] of the connection: an applied request has run its
    statement, any other entry has changed nothing. *)
Fixpoint replay (clock : nat -> value) (n : nat) (ext : list (request * outcome))
    (db : database) : database :=
  match ext with
  | [] => db
  | (q, o) :: rest =>
      replay clock (S n) rest
        match o with
        | Applied => default db (run validate (clock n) q db)
        | _ => db
        end
  end.

Lemma replay_app (clock : nat -> value) (n : nat) (e1 e2 : list (request * outcome))
    (db : database) :
  replay clock n (e1 ++ e2) db = replay clock (n + length e1) e2 (replay clock n e1 db).
Proof.
  revert n db. induction e1 as [|[q o] e1 IH]; intros n db; cbn [app replay length].
  - rewrite Nat.add_0_r. reflexivity.
  - rewrite IH. replace (S n + length e1) with (n + S (length e1)) by lia. reflexivity.
Qed.

(** [m] sends a prefix of the requests [l], all of them when it returns;
    the tables change by the applied ones alone, and the server stays the
    one it was. *)
Definition sends (l : list request) {A} (m : M A) : Prop :=
  forall w, exists ext,
    journal (sql (fst (m w))) = journal (sql w) ++ ext /\
    map fst ext `prefix_of` l /\
    (forall a, snd (m w) = Ok a -> map fst ext = l) /\
    tables (sql (fst (m w)))
      = replay (utc (sql w)) (length (journal (sql w))) ext (tables (sql w)) /\
    env (fst (m w)) = env w.

Lemma sends_eq (l l' : list request) {A} (m : M A) : l = l' -> sends l m -> sends l' m.
Proof. intros ->. auto. Qed.

Lemma sends_still {A} (m : M A) : preserves sql m -> sends [] m.
Proof.
  intros Hm w. exists []. unfold env. rewrite (Hm w), app_nil_r.
  repeat split; auto.
Qed.

Lemma sends_nothing (l : list request) {A} (m : M A) :
  preserves sql m -> (forall w a, snd (m w) <> Ok a) -> sends l m.
Proof.
  intros Hm Hno w. exists []. unfold env. rewrite (Hm w), app_nil_r.
  repeat split; auto.
  - apply prefix_nil.
  - intros a Ha. destruct (Hno w a Ha).
Qed.

Lemma sends_bind (l1 l2 : list request) {A B} (m : M A) (k : A -> M B) :
  sends l1 m -> (forall a, returns m a -> sends l2 (k a)) -> sends (l1 ++ l2) (bind m k).
Proof.
  intros Hm Hk w. destruct (Hm w) as (ext1 & Hj1 & Hp1 & Hok1 & Ht1 & He1).
  pose proof (bind_cases m k w) as Hb.
  destruct (snd (m w)) as [a|e|e] eqn:Hr.
  - destruct (Hk a (ex_intro _ w Hr) (fst (m w))) as (ext2 & Hj2 & Hp2 & Hok2 & Ht2 & He2).
    exists (ext1 ++ ext2). rewrite Hb. rewrite Hj2, Hj1, <- app_assoc, map_app.
    rewrite (Hok1 a eq_refl).
    split; [reflexivity|]. split; [apply prefix_app; exact Hp2|].
    split; [intros b Hb'; rewrite (Hok2 b Hb'); reflexivity|].
    split.
    + rewrite Ht2, Hj1, length_app, Ht1, replay_app.
      unfold env in He1. injection He1 as _ _ Hu. rewrite Hu. reflexivity.
    + congruence.
  - exists ext1. rewrite Hb. cbn [fst snd].
    repeat split; auto; [apply prefix_app_r; exact Hp1 | discriminate].
  - exists ext1. rewrite Hb. cbn [fst snd].
    repeat split; auto; [apply prefix_app_r; exact Hp1 | discriminate].
Qed.

Lemma sends_bind_l (l : list request) {A B} (m : M A) (k : A -> M B) :
  sends l m -> (forall a, returns m a -> sends [] (k a)) -> sends l (bind m k).
Proof.
  intros Hm Hk. apply (sends_eq (l ++ [])); [apply app_nil_r|]. apply sends_bind; assumption.
Qed.

Lemma sends_bind_r (l : list request) {A B} (m : M A) (k : A -> M B) :
  sends [] m -> (forall a, returns m a -> sends l (k a)) -> sends l (bind m k).
Proof. intros Hm Hk. apply (sends_bind [] l); assumption. Qed.

(** A [catch] that sends nothing and does not return. *)
Lemma sends_rethrow (l : list request) {A} (m : M A) (h : error -> M A) :
  sends l m -> (forall e, sends [] (h e)) -> (forall e w a, snd (h e w) <> Ok a) ->
  sends l (try_catch m h).
Proof.
  intros Hm Hh Hno w. destruct (Hm w) as (ext & Hj & Hp & Hok & Ht & He).
  unfold try_catch. destruct (m w) as [w1 [a|e|e]] eqn:Hr; cbn [fst snd] in *;
    try (exists ext; repeat split; assumption).
  destruct (Hh e w1) as (ext' & Hj' & Hp' & _ & Ht' & He').
  apply prefix_nil_inv in Hp'. apply map_eq_nil in Hp'. subst ext'.
  rewrite app_nil_r in Hj'. cbn [replay] in Ht'.
  exists ext. repeat split; try congruence.
  intros a Ha. destruct (Hno e w1 a Ha).
Qed.

Lemma sends_settled (l : list request) {A} (m : M A) : sends l m -> sends l (settled m).
Proof.
  intros Hm w. destruct (Hm w) as (ext & Hj & Hp & Hok & Ht & He).
  unfold settled. destruct (m w) as [w1 [a|e|e]]; cbn [fst snd] in *;
    exists ext; repeat split; auto; discriminate.
Qed.

Lemma sends_for_each (lx : value -> list request) {S : Type} (body : value -> S -> M S) :
  (forall x s, sends (lx x) (body x s)) ->
  forall l s, sends (flat_map lx l) (for_each l body s).
Proof.
  intros Hbody. induction l as [|x l IH]; intros s; cbn [flat_map for_each].
  - apply sends_still. apply preserves_ret.
  - apply sends_bind; auto.
Qed.

Lemma sends_loop (build : value -> request) {S : Type} (body : value -> S -> M S) :
  (forall x s, sends [build x] (body x s)) ->
  forall l s, sends (map build l) (for_each l body s).
Proof.
  intros Hbody l s. apply (sends_eq (flat_map (fun x => [build x]) l)).
  - induction l as [|x l IH]; cbn; [reflexivity | rewrite IH; reflexivity].
  - apply sends_for_each. exact Hbody.
Qed.

Lemma sends_execSql (q : request) : sends [q] (execSql q).
Proof.
  intros w. destruct (execSql_spec validate q w) as (o & Hj & Hr & Hcase).
  exists [(q, o)]. split; [exact Hj|]. split; [reflexivity|]. split; [reflexivity|].
  split; [|apply env_execSql].
  cbn [replay]. destruct o as [|e|e].
  - destruct Hcase as [_ ->]. reflexivity.
  - apply Hcase.
  - apply Hcase.
Qed.

Lemma sends_submit (build : value -> request) (x : value) : sends [build x] (submit build x).
Proof.
  unfold submit. destruct (nullish x).
  - apply sends_nothing; [apply preserves_throw | discriminate].
  - apply sends_execSql.
Qed.

Lemma sends_close : sends [] (close : M unit).
Proof.
  intros w. exists []. rewrite app_nil_r. repeat split; auto.
Qed.

Lemma sends_established : sends [] (established : M unit).
Proof.
  intros w. exists []. rewrite app_nil_r. repeat split; auto.
Qed.

End Sending.

(** Follows a computation down to its requests. *)
Ltac sends_step :=
  first
    [ apply sends_still; solve [keeps]
    | apply sends_submit
    | apply sends_execSql
    | apply sends_close ].

Lemma prop_returns (k : string) (v a : value) : returns (prop k v) a -> a = field k v.
Proof.
  intros [w H]. unfold prop in H. destruct (nullish v); cbn in H; congruence.
Qed.

Lemma iterate_returns (v : value) (l : list value) : returns (iterate v) l -> l = items v.
Proof.
  intros [w H]. destruct v; cbn in H; try discriminate; injection H as <-; reflexivity.
Qed.

(** A loop bound of zero: [v.length === 0] leaves [for (i < v.length)]
    nothing to visit. *)
Lemma zero_length (v : value) :
  js_eq_num (field "length" v) (num 0) = true -> indexed v = [].
Proof.
  destruct v as [| |b|x| |s|d|l|fs]; cbn [field]; try discriminate.
  - cbn [String.eqb Ascii.eqb Bool.eqb]. rewrite js_eq_num_num.
    destruct s; [reflexivity | discriminate].
  - cbn [String.eqb Ascii.eqb Bool.eqb]. rewrite js_eq_num_num.
    destruct l; [reflexivity | discriminate].
  - cbn [indexed]. destruct (assoc "length" fs) as [| |b|x| |s|d|l|fs']; try discriminate.
    unfold js_eq_num, num. intros H. apply Qeq_bool_eq in H.
    rewrite this_inject in H. rewrite H. reflexivity.
Qed.

Section Persisted.

Variable parseFloat : value -> value.
Variable validate : sqltype -> value -> option value.

Local Abbreviation sends := (sends validate).
Local Abbreviation request_of := (request_of parseFloat).
Local Abbreviation requests := (requests parseFloat).

(** The shape shared by the five merge-upserts. *)
Ltac upsert_sends :=
  let Hl := fresh "Hl" in
  apply sends_bind_r; [sends_step | intros ? _];
  apply sends_bind_r; [sends_step | intros _ _];
  apply sends_bind_r; [apply sends_still, sql_iterate | intros ? Hl];
  apply iterate_returns in Hl as ->;
  apply sends_bind_l; [| intros; sends_step];
  apply sends_loop; intros ? ?;
  apply sends_bind_l; [sends_step | intros; sends_step].

Lemma updateTeams_sends (v : value) :
  sends (map team_request (items v)) (updateTeams validate v).
Proof. unfold updateTeams. upsert_sends. Qed.

Lemma updateElementTypes_sends (v : value) :
  sends (map element_type_request (items v)) (updateElementTypes validate v).
Proof. unfold updateElementTypes. upsert_sends. Qed.

Lemma updateEvents_sends (v : value) :
  sends (map event_request (items v)) (updateEvents validate v).
Proof. unfold updateEvents. upsert_sends. Qed.

Lemma updateFixtures_sends (v : value) :
  sends (map fixture_request (items v)) (updateFixtures validate v).
Proof. unfold updateFixtures. upsert_sends. Qed.

Lemma updatePlayers_sends (v : value) :
  sends (map (player_request parseFloat) (items v)) (updatePlayers parseFloat validate v).
Proof. unfold updatePlayers. upsert_sends. Qed.

(** The request of a live row, if the loop gets to send one: a row whose
    [stats] are missing is counted as an error before any request is built. *)
Definition live_request (x : value) : list request :=
  if nullish (field "stats" x) then [] else [request_of x].

(** The requests of the live-statistics phase for the payload [g]. *)
Definition live_requests (g : value) : list request :=
  flat_map live_request (indexed (field "elements" g)).

Lemma updateOne_sends (len x : value) (c : nat * nat) :
  sends (live_request x) (updateOne parseFloat validate len x c).
Proof.
  destruct c as [u e]. intros w. unfold live_request.
  pose proof (env_updateOne parseFloat validate len x (u, e) w) as Henv.
  revert Henv. unfold updateOne, bind, prop.
  destruct (nullish x) eqn:Hx.
  - assert (Hs : field "stats" x = VUndefined) by (destruct x; try discriminate; reflexivity).
    rewrite Hs. cbn. intros _. exists []. rewrite app_nil_r.
    repeat split; auto; discriminate.
  - cbn [ret]. destruct (nullish (field "stats" x)) eqn:Hs.
    + cbn. intros _. exists []. rewrite app_nil_r. repeat split; auto.
    + destruct (execSql_spec validate (request_of x) w) as (o & Hj & Hr & Hcase).
      unfold try_catch.
      change (stats_request parseFloat x (field "stats" x)) with (request_of x).
      destruct (execSql validate (request_of x) w) as [w1 r1]. cbn [fst snd] in *. subst r1.
      exists [(request_of x, o)]. cbn [replay map fst].
      destruct o as [|err|err]; cbn [settles] in *;
        [destruct (Nat.eqb (S u mod 100) 0)| |]; cbn in *;
        (split; [exact Hj|]); (split; [reflexivity|]); (split; [reflexivity|]);
        (split; [|exact Henv]).
      * destruct Hcase as [_ ->]. reflexivity.
      * destruct Hcase as [_ ->]. reflexivity.
      * apply Hcase.
      * apply Hcase.
Qed.

Lemma updateAll_sends (elements : value) :
  sends (flat_map live_request (indexed elements)) (updateAll parseFloat validate elements).
Proof.
  unfold updateAll.
  apply sends_bind_r; [sends_step | intros _ _].
  apply sends_bind_l; [| intros; sends_step].
  apply sends_for_each. intros x s. apply updateOne_sends.
Qed.

Lemma updatePlayerStats_sends (g : value) :
  sends (live_requests g) (updatePlayerStats parseFloat validate g).
Proof.
  unfold updatePlayerStats, live_requests.
  apply sends_bind_r; [sends_step | intros id _].
  apply sends_bind_r; [sends_step | intros elements He].
  apply prop_returns in He as ->.
  apply sends_bind_r; [sends_step | intros len Hlen].
  apply prop_returns in Hlen as ->.
  destruct (js_eq_num _ _) eqn:Hz.
  - rewrite (zero_length _ Hz). sends_step.
  - apply sends_bind_l; [apply updateAll_sends | intros; sends_step].
Qed.

Lemma persist_sends (b g f : value) :
  sends (requests b f ++ live_requests g) (persist parseFloat validate b g f).
Proof.
  unfold persist, requests. rewrite <- !app_assoc.
  apply sends_bind_r; [sends_step | intros ? H]; apply prop_returns in H as ->.
  apply sends_bind; [apply updateTeams_sends | intros _ _].
  apply sends_bind_r; [sends_step | intros ? H]; apply prop_returns in H as ->.
  apply sends_bind; [apply updateElementTypes_sends | intros _ _].
  apply sends_bind_r; [sends_step | intros ? H]; apply prop_returns in H as ->.
  apply sends_bind; [apply updateEvents_sends | intros _ _].
  apply sends_bind; [apply updateFixtures_sends | intros _ _].
  apply sends_bind_r; [sends_step | intros ? H]; apply prop_returns in H as ->.
  apply sends_bind; [apply updatePlayers_sends | intros _ _].
  apply sends_bind_l; [apply updatePlayerStats_sends | intros; sends_step].
Qed.

(** One call of [updateDatabase]: the requests it sends are the merges of
    the reference snapshot followed by the updates of the live rows, in that
    order and up to the point where it stops. *)
Lemma updateDatabase_sends (b g f : value) :
  sends (requests b f ++ live_requests g) (updateDatabase parseFloat validate b g f).
Proof.
  intros w. destruct (login (sql w)) as [err|] eqn:Hlogin.
  - destruct (updateDatabase_refused parseFloat validate b g f w err Hlogin) as [Hs Hr].
    exists []. unfold env. rewrite Hs, Hr, app_nil_r.
    repeat split; auto; [apply prefix_nil | discriminate].
  - rewrite (updateDatabase_connected parseFloat validate b g f w Hlogin).
    apply (sends_settled validate _ _
             (sends_rethrow validate _ _ _ (persist_sends b g f)
                (fun e => sends_bind_r validate [] _ _ (sends_close validate)
                            (fun _ _ => sends_still validate _ (preserves_throw sql e)))
                (fun e w a => ltac:(discriminate)))
             (connected w)).
Qed.

End Persisted.

(** ** Returning means every request was applied *)

(** When [m] returns, every request it sent was applied. *)
Definition clean {A} (m : M A) : Prop :=
  forall w a, snd (m w) = Ok a ->
    exists ext,
      journal (sql (fst (m w))) = journal (sql w) ++ ext /\
      Forall (fun e => snd e = Applied) ext.

Lemma clean_still {A} (m : M A) : preserves sql m -> clean m.
Proof. intros Hm w a _. exists []. rewrite (Hm w), app_nil_r. auto. Qed.

Lemma clean_bind {A B} (m : M A) (k : A -> M B) :
  clean m -> (forall a, clean (k a)) -> clean (bind m k).
Proof.
  intros Hm Hk w b. pose proof (bind_cases m k w) as Hb.
  destruct (snd (m w)) as [a|e|e] eqn:Hr; rewrite Hb; cbn [snd]; try discriminate.
  intros Hkb. destruct (Hm w a Hr) as (ext1 & Hj1 & Ha1).
  destruct (Hk a (fst (m w)) b Hkb) as (ext2 & Hj2 & Ha2).
  exists (ext1 ++ ext2). rewrite Hj2, Hj1, <- app_assoc. split; [reflexivity|].
  apply Forall_app. auto.
Qed.

Lemma clean_for_each {S : Type} (l : list value) (body : value -> S -> M S) :
  (forall x s, clean (body x s)) -> forall s, clean (for_each l body s).
Proof.
  intros Hbody. induction l as [|x l IH]; intros s; cbn [for_each].
  - apply clean_still, preserves_ret.
  - apply clean_bind; auto.
Qed.

Lemma clean_rethrow {A} (m : M A) (h : error -> M A) :
  clean m -> (forall e w a, snd (h e w) <> Ok a) -> clean (try_catch m h).
Proof.
  intros Hm Hno w a. specialize (Hm w). unfold try_catch.
  destruct (m w) as [w1 [a'|e|e]]; cbn [fst snd] in *; try discriminate.
  - intros [= ->]. apply (Hm _ eq_refl).
  - intros H. destruct (Hno e w1 a H).
Qed.

Lemma clean_settled {A} (m : M A) : clean m -> clean (settled m).
Proof.
  intros Hm w a. specialize (Hm w). unfold settled.
  destruct (m w) as [w1 [a'|e|e]]; cbn [fst snd] in *; try discriminate.
  intros [= ->]. apply (Hm _ eq_refl).
Qed.

Lemma clean_close : clean (close : M unit).
Proof. intros w a _. exists []. rewrite app_nil_r. auto. Qed.

Section Clean.

Variable parseFloat : value -> value.
Variable validate : sqltype -> value -> option value.

Lemma clean_execSql (q : request) : clean (execSql validate q).
Proof.
  intros w a Ha. destruct (execSql_spec validate q w) as (o & Hj & Hr & _).
  exists [(q, o)]. split; [exact Hj|]. rewrite Ha in Hr.
  destruct o; try discriminate. repeat constructor.
Qed.

Lemma clean_submit (build : value -> request) (x : value) : clean (submit validate build x).
Proof.
  unfold submit. destruct (nullish x); [apply clean_still, preserves_throw | apply clean_execSql].
Qed.

Ltac clean_step :=
  first [ apply clean_still; solve [keeps] | apply clean_submit | apply clean_close ].

Ltac upsert_clean :=
  repeat first
    [ progress intros
    | apply clean_bind
    | apply clean_for_each
    | clean_step
    | apply clean_still, sql_iterate ].

Lemma clean_updateTeams (v : value) : clean (updateTeams validate v).
Proof. unfold updateTeams. upsert_clean. Qed.

Lemma clean_updateElementTypes (v : value) : clean (updateElementTypes validate v).
Proof. unfold updateElementTypes. upsert_clean. Qed.

Lemma clean_updateEvents (v : value) : clean (updateEvents validate v).
Proof. unfold updateEvents. upsert_clean. Qed.

Lemma clean_updateFixtures (v : value) : clean (updateFixtures validate v).
Proof. unfold updateFixtures. upsert_clean. Qed.

Lemma clean_updatePlayers (v : value) : clean (updatePlayers parseFloat validate v).
Proof. unfold updatePlayers. upsert_clean. Qed.

(** One turn of the live loop that returns: either the error counter
    moved, or the one request it sent, if any, was applied. *)
Lemma updateOne_counts (len x : value) (u e u' e' : nat) (w : World) :
  snd (updateOne parseFloat validate len x (u, e) w) = Ok (u', e') ->
  exists ext,
    journal (sql (fst (updateOne parseFloat validate len x (u, e) w)))
      = journal (sql w) ++ ext /\
    (e' = S e \/ e' = e /\ Forall (fun en => snd en = Applied) ext).
Proof.
  unfold updateOne, bind, prop. destruct (nullish x); [discriminate|]. cbn [ret].
  destruct (nullish (field "stats" x)).
  - cbn. intros [= <- <-]. exists []. rewrite app_nil_r. auto.
  - destruct (execSql_spec validate (stats_request parseFloat x (field "stats" x)) w)
      as (o & Hj & Hr & _).
    unfold try_catch.
    destruct (execSql validate _ w) as [w1 r1]. cbn [fst snd] in *. subst r1.
    exists [(stats_request parseFloat x (field "stats" x), o)].
    destruct o as [|err|err]; cbn [settles] in *;
      [destruct (Nat.eqb (S u mod 100) 0)| |]; cbn in *; try discriminate;
      injection H as <- <-; (split; [exact Hj|]); auto.
Qed.

Lemma loop_counts (len : value) (l : list value) :
  forall (u e u' e' : nat) (w : World),
    snd (for_each l (updateOne parseFloat validate len) (u, e) w) = Ok (u', e') ->
    e <= e' /\
    exists ext,
      journal (sql (fst (for_each l (updateOne parseFloat validate len) (u, e) w)))
        = journal (sql w) ++ ext /\
      (e' = e -> Forall (fun en => snd en = Applied) ext).
Proof.
  induction l as [|x l IH]; intros u e u' e' w; cbn [for_each].
  - cbn. intros [= <- <-]. split; [lia|]. exists []. rewrite app_nil_r. auto.
  - pose proof (bind_cases (updateOne parseFloat validate len x (u, e))
                  (fun s' => for_each l (updateOne parseFloat validate len) s') w) as Hb.
    destruct (snd (updateOne parseFloat validate len x (u, e) w)) as [[u1 e1]|err|err] eqn:Hr;
      rewrite Hb; cbn [snd]; try discriminate.
    intros Hrest.
    destruct (updateOne_counts len x u e u1 e1 w Hr) as (ext1 & Hj1 & Hc1).
    destruct (IH u1 e1 u' e' _ Hrest) as (Hle & ext2 & Hj2 & Hc2).
    split; [destruct Hc1 as [->|[-> _]]; lia|].
    exists (ext1 ++ ext2). rewrite Hj2, Hj1, <- app_assoc. split; [reflexivity|].
    intros ->. destruct Hc1 as [->|[-> Ha1]]; [lia|].
    apply Forall_app. auto.
Qed.

Lemma clean_updatePlayerStats (g : value) : clean (updatePlayerStats parseFloat validate g).
Proof.
  unfold updatePlayerStats.
  apply clean_bind; [clean_step | intros id].
  apply clean_bind; [clean_step | intros elements].
  apply clean_bind; [clean_step | intros len].
  destruct (js_eq_num len (num 0)); [clean_step|].
  intros w a. unfold updateAll, bind.
  cbn [console_log print fst snd]. set (w0 := mkWorld _ _ _).
  pose proof (loop_counts (field "length" elements) (indexed elements) 0 0) as Hloop.
  specialize (fun u' e' => Hloop u' e' w0).
  destruct (for_each _ _ (0, 0) w0) as [w1 [[u' e']|err|err]]; cbn [fst snd] in *;
    try discriminate.
  destruct (Hloop u' e' eq_refl) as (_ & ext & Hj & Hc).
  destruct e' as [|e']; cbn; [|discriminate].
  intros _. exists ext. split; [exact Hj | auto].
Qed.

Lemma clean_persist (b g f : value) : clean (persist parseFloat validate b g f).
Proof.
  unfold persist.
  repeat first
    [ progress intros
    | apply clean_updateTeams | apply clean_updateElementTypes | apply clean_updateEvents
    | apply clean_updateFixtures | apply clean_updatePlayers | apply clean_updatePlayerStats
    | clean_step
    | apply clean_bind ].
Qed.

Lemma clean_updateDatabase (b g f : value) : clean (updateDatabase parseFloat validate b g f).
Proof.
  intros w a. destruct (login (sql w)) as [err|] eqn:Hlogin.
  - destruct (updateDatabase_refused parseFloat validate b g f w err Hlogin) as [_ ->].
    discriminate.
  - rewrite (updateDatabase_connected parseFloat validate b g f w Hlogin).
    apply (clean_settled _ (clean_rethrow _ (fun error => close;; throw error)
                              (clean_persist b g f)
                              (fun e w a => ltac:(cbn; discriminate))) (connected w)).
Qed.

End Clean.

(** ** The ways a run can go *)

Section Runs.

Variable parseFloat : value -> value.
Variable validate : sqltype -> value -> option value.

Local Abbreviation main := (main parseFloat validate).
Local Abbreviation run_main := (run_main parseFloat validate).
Local Abbreviation updateDatabase := (updateDatabase parseFloat validate).
Local Abbreviation requests := (requests parseFloat).
Local Abbreviation live_requests := (live_requests parseFloat).

(** Either the run never gets to the connection, or it validates the three
    snapshots it fetched and hands them to [updateDatabase]. *)
Lemma main_cases (w : World) :
  (sql (fst (main w)) = sql w /\
   (snd (main w) = 0%Z -> snd (checkIfGameIsLive (started w)) = Ok false)) \/
  exists b g f,
    reaches_write w b g f /\
    sql (fst (main w)) = sql (fst (updateDatabase b g f (validated_world w b g f))) /\
    snd (main w) = (match snd (updateDatabase b g f (validated_world w b g f)) with
                    | Ok _ => 0 | _ => 1 end)%Z.
Proof.
  destruct (snd (checkIfGameIsLive (started w))) as [[|]|e|e] eqn:Hlive.
  - destruct (snd (fetch_all (detected w))) as [[[b g] f]|e|e] eqn:Hfetch.
    + assert (Hreach : reaches_validation w b g f) by (split; assumption).
      pose proof (main_after_fetch parseFloat validate w b g f Hreach) as Hmain.
      destruct (validateData_outcome b g f (fetched_world w)) as (added & Hrun & _).
      destruct (all_reasons b g f) eqn:Hall.
      * right. exists b, g, f. rewrite Hrun in Hmain. cbn [snd] in Hmain.
        split; [|exact Hmain]. split; [exact Hreach|]. rewrite Hrun. reflexivity.
      * left. rewrite Hrun in Hmain. cbn [snd] in Hmain. destruct Hmain as [-> ->].
        split; [reflexivity | discriminate].
    + left. destruct (main_fetch_fails parseFloat validate w Hlive) as [-> ->].
      * intros x. rewrite Hfetch. discriminate.
      * split; [reflexivity | discriminate].
    + left. destruct (main_fetch_fails parseFloat validate w Hlive) as [-> ->].
      * intros x. rewrite Hfetch. discriminate.
      * split; [reflexivity | discriminate].
  - left. destruct (main_without_live_game parseFloat validate w) as [-> _].
    + rewrite Hlive. discriminate.
    + auto.
  - left. destruct (main_without_live_game parseFloat validate w) as [-> ->].
    + rewrite Hlive. discriminate.
    + rewrite Hlive. split; [reflexivity | discriminate].
  - left. destruct (main_without_live_game parseFloat validate w) as [-> ->].
    + rewrite Hlive. discriminate.
    + rewrite Hlive. split; [reflexivity | discriminate].
Qed.

Lemma reaches_write_valid (w : World) (b g f : value) :
  reaches_write w b g f -> all_reasons b g f = [].
Proof.
  intros [_ Hvalid].
  destruct (validateData_outcome b g f (fetched_world w)) as (added & Hrun & _).
  rewrite Hrun in Hvalid. cbn [snd] in Hvalid.
  destruct (all_reasons b g f); [reflexivity | discriminate].
Qed.

(** X1. A run that changes anything of the connection (a request sent, a
    table changed, a connection opened or closed) had the live check answer
    [true], fetched the three snapshots and had [validateData] accept them:
    the data handed to [updateDatabase] violates no hard rule. *)
Theorem nothing_is_written_unvalidated (w : World) :
  sql (fst (main w)) <> sql w ->
  exists b g f,
    snd (checkIfGameIsLive (started w)) = Ok true /\
    snd (fetch_all (detected w)) = Ok (b, g, f) /\
    snd (validateData b g f (fetched_world w)) = Ok true /\
    all_reasons b g f = [].
Proof.
  intros Hchanged. destruct (main_cases w) as [[Hsame _]|(b & g & f & Hreach & _)].
  - contradiction.
  - exists b, g, f. pose proof (reaches_write_valid w b g f Hreach) as Hall.
    destruct Hreach as [[Hlive Hfetch] Hvalid]. auto.
Qed.

(** X5. In a run that reaches the write path with the snapshots [b], [g],
    [f] the requests are, in this order, one merge for each team, position
    type, gameweek, fixture and player of the snapshots and then one update
    for each live row that has [stats]: a prefix of that list whatever
    happens, the whole list when the run exits with code 0. *)
Theorem one_request_per_record (w : World) (b g f : value) :
  reaches_write w b g f ->
  exists ext,
    journal (sql (fst (main w))) = journal (sql w) ++ ext /\
    map fst ext `prefix_of` (requests b f ++ live_requests g) /\
    (snd (main w) = 0%Z -> map fst ext = requests b f ++ live_requests g).
Proof.
  intros Hreach.
  pose proof (main_after_fetch parseFloat validate w b g f (proj1 Hreach)) as Hmain.
  rewrite (proj2 Hreach) in Hmain. destruct Hmain as [Hsql Hcode].
  destruct (updateDatabase_sends parseFloat validate b g f (validated_world w b g f))
    as (ext & Hj & Hp & Hok & _).
  exists ext. rewrite Hsql, Hj, sql_validated_world. repeat split; auto.
  rewrite Hcode. destruct (snd (updateDatabase b g f _)) as [a|e|e]; try discriminate.
  intros _. eapply Hok. reflexivity.
Qed.

(** X2. A run that exits with code 0 sent only requests that were applied,
    none failed and none was lost, and it closed the connection as often as
    it opened one. *)
Theorem exit_zero_means_all_applied (w : World) :
  snd (main w) = 0%Z ->
  exists ext,
    journal (sql (fst (main w))) = journal (sql w) ++ ext /\
    Forall (fun e => snd e = Applied) ext /\
    opened (sql (fst (main w))) + closed (sql w)
      = opened (sql w) + closed (sql (fst (main w))).
Proof.
  intros Hzero. destruct (main_cases w) as [[Hsame _]|(b & g & f & Hreach & Hsql & Hcode)].
  - exists []. rewrite Hsame, app_nil_r. auto.
  - rewrite Hzero in Hcode.
    destruct (snd (updateDatabase b g f (validated_world w b g f))) as [[]|e|e] eqn:Hr;
      try discriminate.
    destruct (clean_updateDatabase parseFloat validate b g f _ tt Hr) as (ext & Hj & Ha).
    assert (Hlogin : login (sql (validated_world w b g f)) = None).
    { destruct (login (sql (validated_world w b g f))) as [err|] eqn:Hl; [|reflexivity].
      destruct (updateDatabase_refused parseFloat validate b g f _ err Hl) as [_ Hthrow].
      rewrite Hthrow in Hr. discriminate. }
    destruct (updateDatabase_release parseFloat validate b g f _ Hlogin)
      as (ext' & Hj' & Ho & Hc).
    rewrite Hj in Hj'. apply app_inv_head in Hj'. subst ext'.
    assert (Hnl : existsb lost ext = false).
    { clear -Ha. induction Ha as [|[q o] l Hx _ IH]; [reflexivity|].
      cbn in *. subst o. exact IH. }
    rewrite Hnl in Hc.
    exists ext. rewrite Hsql, Hj, Ho, Hc, sql_validated_world.
    repeat split; auto. lia.
Qed.

(** X3. When the server refuses the login, no run sends a request,
    changes a table or gets a connection; a run that still ends with code 0 is
    one whose live check answered [false], and a run that reaches the write
    path ends with code 1. *)
Theorem refused_login_changes_nothing (w : World) (err : error) :
  login (sql w) = Some err ->
  sql (fst (main w)) = sql w /\
  (snd (main w) = 0%Z -> snd (checkIfGameIsLive (started w)) = Ok false) /\
  (forall b g f, reaches_write w b g f -> snd (main w) = 1%Z).
Proof.
  intros Hlogin.
  assert (Hwrite : forall b g f, reaches_write w b g f ->
                     sql (fst (main w)) = sql w /\ snd (main w) = 1%Z).
  { intros b g f Hreach.
    pose proof (main_after_fetch parseFloat validate w b g f (proj1 Hreach)) as Hmain.
    rewrite (proj2 Hreach) in Hmain. destruct Hmain as [Hsql Hcode].
    destruct (updateDatabase_refused parseFloat validate b g f (validated_world w b g f) err)
      as [Hs Hr].
    { rewrite sql_validated_world. exact Hlogin. }
    rewrite Hsql, Hcode, Hs, Hr, sql_validated_world. auto. }
  destruct (main_cases w) as [[Hsame Hzero]|(b & g & f & Hreach & _)].
  - split; [exact Hsame|]. split; [exact Hzero|].
    intros b g f Hreach. apply (Hwrite b g f Hreach).
  - destruct (Hwrite b g f Hreach) as [Hsame Hone].
    split; [exact Hsame|]. split; [rewrite Hone; discriminate|].
    intros b' g' f' Hreach'. apply (Hwrite b' g' f' Hreach').
Qed.

End Runs.

(** ** What a statement can change *)

Definition table_of (q : request) : string :=
  match sql_text q with
  | Merge t _ _ _ | Update t _ _ => t
  end.

(** The columns a statement assigns in a row that exists. *)
Definition assigned (q : request) : list string :=
  match sql_text q with
  | Merge _ _ set _ | Update _ set _ => map fst set
  end.

Definition creates_rows (q : request) : bool :=
  match sql_text q with
  | Merge _ _ _ _ => true
  | Update _ _ _ => false
  end.

(** [d'] differs from [d] in table [t] alone; the rows of [d] are still
    there, changed in the columns [cs] at most. *)
Definition confined (t : string) (cs : list string) (d d' : database) : Prop :=
  (forall t' z, t' <> t -> d' !! (t', z) = d !! (t', z)) /\
  (forall z r, d !! (t, z) = Some r ->
     exists r', d' !! (t, z) = Some r' /\ forall c, c ∉ cs -> r' !! c = r !! c).

(** [d'] has no row that [d] has not. *)
Definition no_new_row (d d' : database) : Prop :=
  forall k, d !! k = None -> d' !! k = None.

Lemma confined_refl (t : string) (cs : list string) (d : database) : confined t cs d d.
Proof. split; [reflexivity | eauto]. Qed.

Lemma confined_trans (t : string) (cs : list string) (d1 d2 d3 : database) :
  confined t cs d1 d2 -> confined t cs d2 d3 -> confined t cs d1 d3.
Proof.
  intros [Hf1 Hr1] [Hf2 Hr2]. split.
  - intros t' z Ht. rewrite Hf2, Hf1; auto.
  - intros z r Hr. destruct (Hr1 z r Hr) as (r' & Hr' & Hc').
    destruct (Hr2 z r' Hr') as (r'' & Hr'' & Hc'').
    exists r''. split; [exact Hr''|]. intros c Hc. rewrite Hc'', Hc'; auto.
Qed.

Lemma values_fst (cs : list (string * source)) (ps : list (string * value)) (now : value)
    (vs : list (string * value)) :
  values cs ps now = Some vs -> map fst vs = map fst cs.
Proof.
  revert vs. induction cs as [|[c s] cs IH]; intros vs; cbn [values].
  - intros [= <-]. reflexivity.
  - destruct (eval s ps now); [|discriminate].
    destruct (values cs ps now) as [vs'|]; [|discriminate].
    intros [= <-]. cbn. rewrite (IH vs' eq_refl). reflexivity.
Qed.

Lemma written_none (vs : list (string * value)) (c : string) :
  c ∉ map fst vs -> written vs c = None.
Proof.
  induction vs as [|[c' v] vs IH]; cbn [map fst written]; [reflexivity|].
  intros Hc. apply not_elem_of_cons in Hc as [Hne Hc]. rewrite (IH Hc).
  destruct (String.eqb_spec c c'); [contradiction | reflexivity].
Qed.

Lemma other_row (d : database) (k k' : string * Z) (r : row) :
  k <> k' -> <[k := r]> d !! k' = d !! k'.
Proof. apply lookup_insert_ne. Qed.

Section Statements.

Variable validate : sqltype -> value -> option value.

(** The three ways a statement that runs leaves the tables. *)
Lemma run_cases (now : value) (q : request) (d d' : database) :
  run validate now q d = Some d' ->
  d' = d \/
  exists z vs,
    map fst vs = assigned q /\
    match d !! (table_of q, z) with
    | Some r => d' = <[(table_of q, z) := write vs r]> d
    | None => creates_rows q = true /\ exists r', d' = <[(table_of q, z) := r']> d
    end.
Proof.
  unfold run, table_of, assigned, creates_rows.
  destruct (bound validate (parameters q)) as [ps|]; [|discriminate].
  destruct (sql_text q) as [t k set ins|t set k].
  - destruct (values set ps now) as [vs|] eqn:Hvs; [|discriminate].
    destruct (values ins ps now) as [vi|]; [|discriminate].
    destruct (declared k ps ≫= key_of) as [[z|]|]; try discriminate.
    intros H. right. exists z, vs. split; [eapply values_fst; eauto|].
    destruct (d !! (t, z)); injection H as <-; eauto.
  - destruct (values set ps now) as [vs|] eqn:Hvs; [|discriminate].
    destruct (declared k ps ≫= key_of) as [[z|]|]; try discriminate.
    + destruct (d !! (t, z)) eqn:Hrow; intros [= <-]; [|left; reflexivity].
      right. exists z, vs. split; [eapply values_fst; eauto|]. rewrite Hrow. reflexivity.
    + intros [= <-]. left. reflexivity.
Qed.

Lemma run_confined (now : value) (q : request) (d d' : database) :
  run validate now q d = Some d' -> confined (table_of q) (assigned q) d d'.
Proof.
  intros H. destruct (run_cases now q d d' H) as [->|(z & vs & Hvs & Hrow)];
    [apply confined_refl|].
  assert (Hd' : exists r', d' = <[(table_of q, z) := r']> d).
  { destruct (d !! (table_of q, z)); [eauto | apply Hrow]. }
  destruct Hd' as [r0 Hd']. split.
  - intros t' z' Ht. rewrite Hd'. apply other_row. congruence.
  - intros z' r Hr. destruct (decide (z' = z)) as [->|Hne].
    + clear Hd'. rewrite Hr in Hrow. subst d'.
      eexists. split; [apply lookup_insert_eq|]. intros c Hc.
      rewrite write_lookup, written_none; [reflexivity | rewrite Hvs; exact Hc].
    + exists r. split; [|reflexivity]. rewrite Hd', other_row; [exact Hr | congruence].
Qed.

Lemma run_no_new_row (now : value) (q : request) (d d' : database) :
  creates_rows q = false -> run validate now q d = Some d' -> no_new_row d d'.
Proof.
  intros Hq H k Hk. destruct (run_cases now q d d' H) as [->|(z & vs & Hvs & Hrow)]; [auto|].
  destruct (d !! (table_of q, z)) as [r0|] eqn:Hr0.
  - subst d'. rewrite other_row; [exact Hk | congruence].
  - destruct Hrow as [Hc _]. congruence.
Qed.

(** A property of the tables that every applied request of a kind keeps
    is kept by any journal of requests of that kind. *)
Lemma replay_relates (R : database -> database -> Prop) (P : request -> Prop) :
  (forall d, R d d) ->
  (forall d1 d2 d3, R d1 d2 -> R d2 d3 -> R d1 d3) ->
  (forall now q d d', P q -> run validate now q d = Some d' -> R d d') ->
  forall ext clock n d, Forall P (map fst ext) -> R d (replay validate clock n ext d).
Proof.
  intros Hrefl Htrans Hstep. induction ext as [|[q o] ext IH]; intros clock n d HP.
  - apply Hrefl.
  - cbn [map fst] in HP. apply Forall_cons in HP as [Hq HP]. cbn [replay].
    eapply Htrans; [|apply IH; exact HP].
    destruct o; try apply Hrefl.
    destruct (run validate (clock n) q d) as [d'|] eqn:Hrun; cbn; [eauto | apply Hrefl].
Qed.

Lemma sends_relates (R : database -> database -> Prop) (P : request -> Prop)
    (l : list request) {A} (m : M A) :
  (forall d, R d d) ->
  (forall d1 d2 d3, R d1 d2 -> R d2 d3 -> R d1 d3) ->
  (forall now q d d', P q -> run validate now q d = Some d' -> R d d') ->
  sends validate l m -> Forall P l ->
  forall w, R (tables (sql w)) (tables (sql (fst (m w)))).
Proof.
  intros Hrefl Htrans Hstep Hm HP w. destruct (Hm w) as (ext & _ & [k ->] & _ & -> & _).
  apply (replay_relates R P Hrefl Htrans Hstep). apply Forall_app in HP. apply HP.
Qed.

End Statements.

(** ** What each phase can change *)

Section Frames.

Variable parseFloat : value -> value.
Variable validate : sqltype -> value -> option value.

Local Abbreviation main := (main parseFloat validate).

(** The merge-upsert functions with the request they build for a record,
    their table and the columns of their UPDATE SET list. *)
Inductive upsert_loop : (value -> M unit) -> (value -> request) -> string -> list string -> Prop :=
| loop_teams : upsert_loop (updateTeams validate) team_request "teams" team_columns
| loop_element_types :
    upsert_loop (updateElementTypes validate) element_type_request
      "element_types" element_type_columns
| loop_events : upsert_loop (updateEvents validate) event_request "events" event_columns
| loop_fixtures : upsert_loop (updateFixtures validate) fixture_request "fixtures" fixture_columns
| loop_players :
    upsert_loop (updatePlayers parseFloat validate) (player_request parseFloat)
      "players" player_columns.

Lemma upsert_loop_sends (f : value -> M unit) (build : value -> request) (t : string)
    (cs : list string) (v : value) :
  upsert_loop f build t cs ->
  sends validate (map build (items v)) (f v) /\
  forall x, table_of (build x) = t /\ assigned (build x) = cs ++ ["last_updated"].
Proof.
  intros [| | | |]; (split; [|intros x; split; reflexivity]).
  - apply updateTeams_sends.
  - apply updateElementTypes_sends.
  - apply updateEvents_sends.
  - apply updateFixtures_sends.
  - apply updatePlayers_sends.
Qed.

(** X16. Each of the five merge-upsert functions, whatever its argument
    and however it ends, changes its own table only; there it removes no row,
    and in a row that existed it changes at most the columns of its UPDATE SET
    list and [last_updated]. *)
Theorem upsert_stays_in_its_table (f : value -> M unit) (build : value -> request)
    (t : string) (cs : list string) (v : value) (w : World) :
  upsert_loop f build t cs ->
  confined t (cs ++ ["last_updated"]) (tables (sql w)) (tables (sql (fst (f v w)))).
Proof.
  intros Hf. destruct (upsert_loop_sends f build t cs v Hf) as [Hsends Hshape].
  apply (sends_relates validate (confined t (cs ++ ["last_updated"]))
           (fun q => table_of q = t /\ assigned q = cs ++ ["last_updated"])
           (map build (items v)) (f v)).
  - apply confined_refl.
  - apply confined_trans.
  - intros now q d d' [<- <-]. apply run_confined.
  - exact Hsends.
  - apply Forall_map. apply Forall_forall. intros x _. apply Hshape.
Qed.

Lemma reference_sends (b f : value) :
  sends validate (requests parseFloat b f) (reference parseFloat validate b f).
Proof.
  unfold reference, requests.
  apply sends_bind_r; [sends_step | intros ? H]; apply prop_returns in H as ->.
  apply sends_bind; [apply updateTeams_sends | intros _ _].
  apply sends_bind_r; [sends_step | intros ? H]; apply prop_returns in H as ->.
  apply sends_bind; [apply updateElementTypes_sends | intros _ _].
  apply sends_bind_r; [sends_step | intros ? H]; apply prop_returns in H as ->.
  apply sends_bind; [apply updateEvents_sends | intros _ _].
  apply sends_bind; [apply updateFixtures_sends | intros _ _].
  apply sends_bind_r; [sends_step | intros ? H]; apply prop_returns in H as ->.
  apply updatePlayers_sends.
Qed.

(** The columns of [players] no merge of the reference phase assigns: the
    key, the code and the live statistics. *)
Definition kept_by_reference : list string := "id" :: "code" :: stat_columns.

Lemma kept_apart :
  Forall (fun c => c ∉ player_columns ++ ["last_updated"]) kept_by_reference.
Proof. apply (bool_decide_unpack _). vm_compute. exact I. Qed.

(** The players rows of [d] are in [d'] with the columns [cs] as they were. *)
Definition players_keep (cs : list string) (d d' : database) : Prop :=
  forall z r, d !! ("players", z) = Some r ->
    exists r', d' !! ("players", z) = Some r' /\ forall c, c ∈ cs -> r' !! c = r !! c.

Lemma players_keep_trans (cs : list string) (d1 d2 d3 : database) :
  players_keep cs d1 d2 -> players_keep cs d2 d3 -> players_keep cs d1 d3.
Proof.
  intros H1 H2 z r Hr. destruct (H1 z r Hr) as (r' & Hr' & Hc').
  destruct (H2 z r' Hr') as (r'' & Hr'' & Hc'').
  exists r''. split; [exact Hr''|]. intros c Hc. rewrite Hc'', Hc'; auto.
Qed.

Lemma confined_players_keep (t : string) (cs kept : list string) (d d' : database) :
  (t = "players" -> forall c, c ∈ kept -> c ∉ cs) ->
  confined t cs d d' -> players_keep kept d d'.
Proof.
  intros Hdisj [Hframe Hrows] z r Hr. destruct (decide (t = "players")) as [->|Hne].
  - destruct (Hrows z r Hr) as (r' & Hr' & Hc). exists r'. split; [exact Hr'|].
    intros c Hc'. apply Hc. apply Hdisj; auto.
  - exists r. rewrite Hframe by congruence. auto.
Qed.

(** The requests of the reference phase: a merge of another table, or the
    players merge. *)
Definition reference_request (q : request) : Prop :=
  table_of q <> "players" \/
  table_of q = "players" /\ assigned q = player_columns ++ ["last_updated"].

Lemma reference_requests (b f : value) : Forall reference_request (requests parseFloat b f).
Proof.
  unfold requests. repeat (apply Forall_app; split);
    apply Forall_map; apply Forall_forall; intros x _;
    try (left; cbn; discriminate).
  right. split; reflexivity.
Qed.

(** X15. The reference phase (the five merge-upserts in the order of
    [updateDatabase]), however it ends, leaves every row of [players] in
    place with its [id], its [code] and its eighteen live-statistics columns
    as they were: refreshing the bootstrap data never overwrites live
    statistics, and [code] is written on insertion only. *)
Theorem reference_keeps_live_statistics (b f : value) (w : World) :
  players_keep kept_by_reference
    (tables (sql w)) (tables (sql (fst (reference parseFloat validate b f w)))).
Proof.
  apply (sends_relates validate (players_keep kept_by_reference) reference_request
           (requests parseFloat b f) (reference parseFloat validate b f)).
  - intros d z r Hr. eauto.
  - apply players_keep_trans.
  - intros now q d d' Hq Hrun. apply run_confined in Hrun.
    eapply confined_players_keep; [|exact Hrun].
    intros Ht c Hc. destruct Hq as [Hq|[_ ->]]; [contradiction|].
    pose proof kept_apart as Hk. rewrite Forall_forall in Hk. apply Hk. exact Hc.
  - apply reference_sends.
  - apply reference_requests.
Qed.

(** X14. [updatePlayerStats], whatever its argument and however it ends,
    changes no table but [players], creates no row anywhere, and in a row of
    [players] changes at most the eighteen live-statistics columns and
    [last_updated]. *)
Theorem live_update_is_confined (g : value) (w : World) :
  confined "players" (stat_columns ++ ["last_updated"])
    (tables (sql w)) (tables (sql (fst (updatePlayerStats parseFloat validate g w)))) /\
  no_new_row (tables (sql w)) (tables (sql (fst (updatePlayerStats parseFloat validate g w)))).
Proof.
  assert (Hl : Forall (fun q => sql_text q = players_update) (live_requests parseFloat g)).
  { unfold live_requests. apply Forall_flat_map. apply Forall_forall. intros x _.
    unfold live_request. destruct (nullish _); repeat constructor. }
  split.
  - apply (sends_relates validate (confined "players" (stat_columns ++ ["last_updated"]))
             (fun q => sql_text q = players_update) (live_requests parseFloat g)
             (updatePlayerStats parseFloat validate g)); auto.
    + apply confined_refl.
    + apply confined_trans.
    + intros now q d d' Hq Hrun. apply run_confined in Hrun.
      unfold table_of, assigned in Hrun. rewrite Hq in Hrun. exact Hrun.
    + apply updatePlayerStats_sends.
  - apply (sends_relates validate no_new_row
             (fun q => sql_text q = players_update) (live_requests parseFloat g)
             (updatePlayerStats parseFloat validate g)); auto.
    + intros d k Hk. exact Hk.
    + intros d1 d2 d3 H1 H2 k Hk. auto.
    + intros now q d d' Hq Hrun. eapply run_no_new_row; [|exact Hrun].
      unfold creates_rows. rewrite Hq. reflexivity.
    + apply updatePlayerStats_sends.
Qed.

End Frames.

(** ** Reading back what a merge-upsert wrote *)

Lemma last_writer_skip (k : string * Z) (acc : option effect) (E : list effect) :
  Forall (fun e => cell e <> k) E -> last_writer k acc E = acc.
Proof.
  intros H. revert acc. induction H as [|e E He _ IH]; intros acc; cbn; [reflexivity|].
  rewrite decide_False by exact He. apply IH.
Qed.

Lemma last_writer_at (k : string * Z) (E1 E2 : list effect) (e : effect) :
  cell e = k -> Forall (fun e' => cell e' <> k) E2 ->
  last_writer k None (E1 ++ e :: E2) = Some e.
Proof.
  intros Hk H2. unfold last_writer. rewrite foldl_app. cbn [foldl].
  rewrite decide_True by exact Hk. apply (last_writer_skip k (Some e) E2 H2).
Qed.

Lemma Forall2_map_left {A B C} (P : B -> C -> Prop) (f : A -> B) (l : list A) (k : list C) :
  Forall2 P (map f l) k -> Forall2 (fun x y => P (f x) y) l k.
Proof.
  revert k. induction l as [|x l IH]; intros k H; inversion H; subst; constructor; auto.
Qed.

Section RoundTrip.

Variable parseFloat : value -> value.
Variable validate : sqltype -> value -> option value.

Local Abbreviation upsert_loop := (upsert_loop parseFloat validate).
Local Abbreviation effect_of := (effect_of validate).

(** The primary key a request carries once its parameters are validated. *)
Definition sent_key (q : request) : option Z :=
  match bound validate (parameters q) with
  | Some ps =>
      match declared "id" ps ≫= key_of with
      | Some (Some z) => Some z
      | _ => None
      end
  | None => None
  end.

Lemma upsert_loop_shape (f : value -> M unit) (build : value -> request) (t : string)
    (cs : list string) :
  upsert_loop f build t cs ->
  ("last_updated" ∉ cs) /\
  exists ics, (t, cs, ics) ∈ shapes /\ forall x, sql_text (build x) = merge_of t cs ics.
Proof.
  intros [| | | |]; (split; [apply (bool_decide_unpack _); vm_compute; exact I|]);
    eexists; (split; [|intros x; reflexivity]);
    unfold shapes; rewrite !elem_of_cons; tauto.
Qed.

Lemma upsert_loop_replays (f : value -> M unit) (build : value -> request) (t : string)
    (cs : list string) (v : value) (w w1 : World) :
  upsert_loop f build t cs -> f v w = (w1, Ok tt) ->
  replays validate (map build (items v)) w w1.
Proof.
  intros [| | | |] H.
  - apply (updateTeams_replays parseFloat validate); exact H.
  - apply (updateElementTypes_replays parseFloat validate); exact H.
  - apply (updateEvents_replays parseFloat validate); exact H.
  - apply (updateFixtures_replays parseFloat validate); exact H.
  - apply (updatePlayers_replays parseFloat validate); exact H.
Qed.

(** X17. Reading back a completed merge-upsert: for the last record [x]
    of the list that carries the key [z], the table holds a row [z] whose
    columns of the UPDATE SET list have the values of the parameters bound for
    [x] (as the driver validated them), whether the row was inserted or
    updated and whatever earlier records with the same key said. *)
Theorem upsert_round_trip (f : value -> M unit) (build : value -> request) (t : string)
    (cs : list string) (v : value) (w w1 : World) (pre post : list value) (x : value) (z : Z) :
  upsert_loop f build t cs ->
  f v w = (w1, Ok tt) ->
  items v = pre ++ x :: post ->
  sent_key (build x) = Some z ->
  (forall y, y ∈ post -> sent_key (build y) <> Some z) ->
  exists ps r,
    bound validate (parameters (build x)) = Some ps /\
    tables (sql w1) !! (t, z) = Some r /\
    forall c, c ∈ cs -> is_Some (declared c ps) /\ r !! c = declared c ps.
Proof.
  intros Hf Hrun Hitems Hkey Hlast.
  destruct (upsert_loop_shape f build t cs Hf) as (Hstamp & ics & Hshape & Hq).
  assert (Hup : forall y, upserts (build y)) by (intros y; exists t, cs, ics; auto).
  destruct (upsert_loop_replays f build t cs v w w1 Hf Hrun) as (E & HE & Htables).
  rewrite Hitems, map_app in HE. cbn [map] in HE.
  apply Forall2_app_inv_l in HE as (E1 & E' & HE1 & HE' & ->).
  apply Forall2_cons_inv_l in HE' as (e & E2 & (now & He) & HE2 & ->).
  destruct (effect_columns validate (build x) now e t cs ics (Hq x) He)
    as (ps & z0 & Hb & Hk & Hcell & _ & Hset & _ & Hdecl).
  assert (z0 = z) as ->.
  { unfold sent_key in Hkey. rewrite Hb, Hk in Hkey. congruence. }
  assert (Hothers : Forall (fun e' => cell e' <> (t, z)) E2).
  { apply Forall2_map_left in HE2.
    eapply Forall2_Forall_r; [exact HE2|].
    apply Forall_forall. intros y Hy e' (now' & He').
    destruct (effect_columns validate (build y) now' e' t cs ics (Hq y) He')
      as (ps' & z' & Hb' & Hk' & -> & _).
    intros [= ->]. apply (Hlast y Hy).
    unfold sent_key. rewrite Hb', Hk'. reflexivity. }
  assert (Hshaped : Forall shaped (E1 ++ e :: E2)).
  { apply Forall_app. split; [|constructor].
    - apply Forall2_map_left in HE1.
      eapply Forall2_Forall_r; [exact HE1|].
      apply Forall_forall. intros y _ e' (now' & He').
      eapply (effect_shaped validate); eauto.
    - eapply (effect_shaped validate); eauto.
    - apply Forall2_map_left in HE2.
      eapply Forall2_Forall_r; [exact HE2|].
      apply Forall_forall. intros y _ e' (now' & He').
      eapply (effect_shaped validate); eauto. }
  pose proof (first_pass (t, z) (E1 ++ e :: E2) (tables (sql w) !! (t, z)) Hshaped) as Hpass.
  rewrite (last_writer_at (t, z) E1 E2 e Hcell Hothers) in Hpass.
  destruct Hpass as (r & Hr & Hcols).
  exists ps, r. split; [exact Hb|]. split.
  - rewrite Htables, replay_lookup. exact Hr.
  - intros c Hc. split; [apply Hdecl; exact Hc|].
    assert (Hne : c <> "last_updated") by (intros ->; contradiction).
    destruct (Hdecl c Hc) as [val Hval]. rewrite Hval.
    apply Hcols; [exact Hne|]. rewrite (Hset c Hne), decide_True by exact Hc. exact Hval.
Qed.

End RoundTrip.

(** ** The statements against the schema *)

Definition find_table (t : string) : option table :=
  List.find (fun tb => String.eqb (table_name tb) t) schema.

Definition find_column (tb : table) (c : string) : option column :=
  List.find (fun col => String.eqb (column_name col) c) (columns tb).

(** The driver type of a parameter fits the type of a column. *)
Definition fits (ty : sqltype) (ct : coltype) : bool :=
  match ty, ct with
  | Int, INT | NVarChar, NVARCHAR _ | Bit, BIT | DateTime2, DATETIME2
  | Decimal, DECIMAL _ _ => true
  | _, _ => false
  end.

Fixpoint declared_type (n : string) (ps : list (string * (sqltype * value))) : option sqltype :=
  match ps with
  | [] => None
  | (m, (ty, _)) :: rest => if String.eqb n m then Some ty else declared_type n rest
  end.

(** [c = @n] or [c = GETUTCDATE()] names a column of the table, of the type
    of what it is assigned. *)
Definition assignment_fits (tb : table) (ps : list (string * (sqltype * value)))
    (a : string * source) : bool :=
  match find_column tb (fst a) with
  | None => false
  | Some col =>
      match snd a with
      | Param n =>
          match declared_type n ps with
          | Some ty => fits ty (column_type col)
          | None => false
          end
      | GetUtcDate =>
          match column_type col with DATETIME2 => true | _ => false end
      end
  end.

(** A column an INSERT may leave out: nullable, or with a default. *)
Definition optional (col : column) : bool :=
  negb (not_null col) ||
  match column_default col with NoDefault => false | _ => true end.

Definition key_fits (tb : table) (ps : list (string * (sqltype * value))) (k : string) : bool :=
  String.eqb (primary_key tb) "id" &&
  match find_column tb "id", declared_type k ps with
  | Some col, Some ty => fits ty (column_type col)
  | _, _ => false
  end.

(** The statement of [q] is well-formed for the schema: its table exists,
    it is keyed by the primary key [id] with a parameter of the key's type,
    every assignment fits, and the INSERT branch of a MERGE supplies every
    column that is NOT NULL without a default. *)
Definition conforms (q : request) : bool :=
  match sql_text q with
  | Merge t k set ins =>
      match find_table t with
      | None => false
      | Some tb =>
          key_fits tb (parameters q) k &&
          forallb (assignment_fits tb (parameters q)) set &&
          forallb (assignment_fits tb (parameters q)) ins &&
          forallb (fun col => optional col ||
                              existsb (String.eqb (column_name col)) (map fst ins))
                  (columns tb)
      end
  | Update t set k =>
      match find_table t with
      | None => false
      | Some tb =>
          key_fits tb (parameters q) k &&
          forallb (assignment_fits tb (parameters q)) set
      end
  end.

(** The places of the tables in the sequence of [updateDatabase]. *)
Definition ranks : list (string * nat) :=
  [("teams", 0); ("element_types", 1); ("events", 2); ("fixtures", 3);
   ("players", 4); ("players", 5)].

(** A request of the script: it fits the schema and sits at the place of
    its table. *)
Definition scripted (q : request) : Prop :=
  conforms q = true /\ (table_of q, phase q) ∈ ranks.

(** Every foreign key of the schema points to a table of an earlier place. *)
Lemma foreign_keys_point_back :
  Forall (fun tb =>
    Forall (fun fk =>
      Forall (fun r => fst r = table_name tb ->
        Forall (fun r' => fst r' = snd fk -> snd r' < snd r) ranks) ranks)
      (foreign_keys tb)) schema.
Proof. apply (bool_decide_unpack _). vm_compute. exact I. Qed.

Lemma sorted_at {A} (R : A -> A -> Prop) (pre mid post : list A) (x y : A) :
  StronglySorted R (pre ++ x :: mid ++ y :: post) -> R x y.
Proof.
  intros H. apply StronglySorted_app_1_r in H.
  apply StronglySorted_inv in H as [_ H]. rewrite Forall_forall in H.
  apply H. apply elem_of_app. right. left.
Qed.

Section Schema.

Variable parseFloat : value -> value.
Variable validate : sqltype -> value -> option value.

Local Abbreviation main := (main parseFloat validate).

Lemma scripted_requests (b g f : value) :
  Forall scripted (requests parseFloat b f ++ live_requests parseFloat g).
Proof.
  apply Forall_app. split.
  - unfold requests. repeat (apply Forall_app; split);
      apply Forall_map; apply Forall_forall; intros x _; split;
      [vm_compute; reflexivity | unfold ranks; cbn; rewrite !elem_of_cons; tauto
      |vm_compute; reflexivity | unfold ranks; cbn; rewrite !elem_of_cons; tauto
      |vm_compute; reflexivity | unfold ranks; cbn; rewrite !elem_of_cons; tauto
      |vm_compute; reflexivity | unfold ranks; cbn; rewrite !elem_of_cons; tauto
      |vm_compute; reflexivity | unfold ranks; cbn; rewrite !elem_of_cons; tauto].
  - unfold live_requests. apply Forall_flat_map. apply Forall_forall. intros x _.
    unfold live_request. destruct (nullish _); constructor; [|constructor].
    split; [vm_compute; reflexivity | unfold ranks; cbn; rewrite !elem_of_cons; tauto].
Qed.

(** The journal of a run: requests of the script, sorted by place. *)
Lemma main_journal (w : World) :
  exists ext,
    journal (sql (fst (main w))) = journal (sql w) ++ ext /\
    Forall scripted (map fst ext) /\
    StronglySorted le (phases ext).
Proof.
  destruct (main_cases parseFloat validate w) as [[-> _]|(b & g & f & Hreach & -> & _)].
  - exists []. rewrite app_nil_r. repeat split; constructor.
  - destruct (updateDatabase_sends parseFloat validate b g f (validated_world w b g f))
      as (ext & Hj & [k Hk] & _).
    destruct (updateDatabase_journal parseFloat validate b g f (validated_world w b g f))
      as (ext' & Hj' & Hsorted & _).
    rewrite Hj in Hj'. apply app_inv_head in Hj'. subst ext'.
    exists ext. rewrite Hj, sql_validated_world. repeat split; auto.
    pose proof (scripted_requests b g f) as Hs. rewrite Hk in Hs.
    apply Forall_app in Hs. apply Hs.
Qed.

(** X9. Every request a run sends fits schema.sql: its table exists, the
    statement is keyed by the primary key [id] with an [Int] parameter, every
    assigned column is a column of the table of the type of the parameter
    (or DATETIME2 for GETUTCDATE()), and the INSERT branch of a merge
    supplies every column that is NOT NULL without a default. *)
Theorem every_request_fits_the_schema (w : World) :
  exists ext,
    journal (sql (fst (main w))) = journal (sql w) ++ ext /\
    Forall (fun e => conforms (fst e) = true) ext.
Proof.
  destruct (main_journal w) as (ext & Hj & Hs & _).
  exists ext. split; [exact Hj|].
  rewrite List.Forall_map in Hs. eapply Forall_impl; [exact Hs|].
  intros [q o] [Hc _]. exact Hc.
Qed.

(** X10. The writes respect the foreign keys of schema.sql: in the
    journal of a run no request on a table is followed by a request on a
    table the first one references (teams and element_types come before
    players, teams and events before fixtures). *)
Theorem parents_are_written_first (w : World) :
  exists ext,
    journal (sql (fst (main w))) = journal (sql w) ++ ext /\
    forall pre q o mid q' o' post,
      ext = pre ++ (q, o) :: mid ++ (q', o') :: post ->
      forall tb c,
        tb ∈ schema -> table_name tb = table_of q ->
        (c, table_of q') ∉ foreign_keys tb.
Proof.
  destruct (main_journal w) as (ext & Hj & Hs & Hsorted).
  exists ext. split; [exact Hj|].
  intros pre q o mid q' o' post -> tb c Htb Hname Hfk.
  unfold phases in Hsorted. rewrite map_app in Hsorted. cbn [map] in Hsorted.
  rewrite map_app in Hsorted. cbn [map fst] in Hsorted.
  apply sorted_at in Hsorted.
  rewrite map_app in Hs. cbn [map] in Hs. rewrite map_app in Hs. cbn [map fst] in Hs.
  apply Forall_app in Hs as [_ Hs]. apply Forall_cons in Hs as [[_ Hq] Hs].
  apply Forall_app in Hs as [_ Hs]. apply Forall_cons in Hs as [[_ Hq'] _].
  pose proof foreign_keys_point_back as Hback.
  rewrite Forall_forall in Hback. specialize (Hback tb Htb).
  rewrite Forall_forall in Hback. specialize (Hback _ Hfk).
  rewrite Forall_forall in Hback. specialize (Hback _ Hq (eq_sym Hname)).
  rewrite Forall_forall in Hback. specialize (Hback _ Hq' eq_refl).
  cbn [fst snd] in *. lia.
Qed.

End Schema.

(** ** Live rows the loop cannot read *)

Lemma for_each_app {S : Type} (l1 l2 : list value) (body : value -> S -> M S) (s : S)
    (w : World) :
  for_each (l1 ++ l2) body s w = bind (for_each l1 body s) (fun s' => for_each l2 body s') w.
Proof.
  revert s w. induction l1 as [|x l1 IH]; intros s w; cbn [app for_each].
  - reflexivity.
  - rewrite bind_assoc. apply bind_cong. intros s' w'. apply IH.
Qed.

Section Unreadable.

Variable parseFloat : value -> value.
Variable validate : sqltype -> value -> option value.

Local Abbreviation request_of := (request_of parseFloat).
Local Abbreviation updateOne := (updateOne parseFloat validate).
Local Abbreviation updatePlayerStats := (updatePlayerStats parseFloat validate).

(** X7. A [null] or [undefined] entry of the live payload aborts the
    batch: the rows before it are sent, reading [element.stats] raises a
    TypeError outside the [try] of the loop, and no row after it is sent. *)
Theorem null_row_aborts_the_batch (g x : value) (pre post : list value) (w : World) :
  nullish g = false ->
  field "elements" g = VArr (pre ++ x :: post) ->
  Forall readable pre ->
  nullish x = true ->
  holds_for w (length pre) ->
  exists ext,
    journal (sql (fst (updatePlayerStats g w))) = journal (sql w) ++ ext /\
    map fst ext = map request_of pre /\
    snd (updatePlayerStats g w)
      = Throw (TypeError [VStr "Cannot read properties of "; x; VStr " (reading 'stats')"]).
Proof.
  intros Hg Hel Hpre Hx Hhold.
  unfold updatePlayerStats, bind, prop. rewrite Hg. cbn [ret]. rewrite Hel.
  cbn [nullish ret].
  change (field "length" (VArr (pre ++ x :: post))) with (num (length (pre ++ x :: post))).
  rewrite js_eq_num_num.
  assert (Hlen : Nat.eqb (length (pre ++ x :: post)) 0 = false).
  { apply Nat.eqb_neq. rewrite length_app. cbn. lia. }
  rewrite Hlen. unfold updateAll, bind. cbn [console_log print indexed].
  set (w1 := mkWorld _ _ _).
  rewrite for_each_app. unfold bind.
  destruct (stats_loop parseFloat validate (num (length (pre ++ x :: post))) pre Hpre 0 0 w1 Hhold)
    as (ext & Hj & Hm & _ & Hr & _).
  destruct (for_each pre _ (0, 0) w1) as [w2 r2]. cbn [fst snd] in *. subst r2.
  cbn [for_each]. unfold updateOne, bind, prop. rewrite Hx. cbn.
  exists ext. auto.
Qed.

(** A row that has no [stats]: the error is caught before any request is
    built, and counted. *)
Lemma row_without_stats (len x : value) (u e : nat) (w : World) :
  nullish x = false ->
  nullish (field "stats" x) = true ->
  updateOne len x (u, e) w
    = (mkWorld (net w)
         (console w ++
            [(Severe, [VStr "Error updating player "; field "id" x; VStr ":";
                       VStr "Cannot read properties of "; field "stats" x;
                       VStr " (reading 'total_points')"])])
         (sql w),
       Ok (u, S e)).
Proof.
  intros Hx Hs. unfold updateOne, bind, prop, try_catch.
  rewrite Hx. cbn [ret]. rewrite Hs. reflexivity.
Qed.

Definition without_stats (x : value) : bool := nullish (field "stats" x).

Lemma holds_for_fewer (w w1 : World) (n : nat) :
  holds_for w (S n) -> sql w1 = sql w -> holds_for w1 n.
Proof. intros H Hs i err Hi. rewrite Hs. apply H. lia. Qed.

(** The loop over rows that are objects: a request for each row that has
    [stats], an error for each that has none. *)
Lemma batch_loop (len : value) (rows : list value) :
  Forall (fun x => nullish x = false) rows ->
  forall (u e : nat) (w : World),
    holds_for w (length rows) ->
    exists ext,
      journal (sql (fst (for_each rows (updateOne len) (u, e) w))) = journal (sql w) ++ ext /\
      map fst ext = flat_map (live_request parseFloat) rows /\
      Forall (fun en => forall err, snd en <> Lost err) ext /\
      snd (for_each rows (updateOne len) (u, e) w)
        = Ok (u + length (List.filter applied ext),
              e + length (List.filter failed ext)
                + length (List.filter without_stats rows)) /\
      env (fst (for_each rows (updateOne len) (u, e) w)) = env w.
Proof.
  induction 1 as [|x rows Hx _ IH]; intros u e w Hhold.
  - exists []. cbn. rewrite app_nil_r, !Nat.add_0_r. repeat split; auto.
  - cbn [for_each flat_map List.filter].
    change (live_request parseFloat x)
      with (if nullish (field "stats" x) then [] else [request_of x]).
    change (without_stats x) with (nullish (field "stats" x)).
    destruct (nullish (field "stats" x)) eqn:Hs.
    + unfold bind. rewrite (row_without_stats len x u e w Hx Hs).
      set (w1 := mkWorld _ _ _).
      destruct (IH u (S e) w1) as (ext & Hj & Hm & Hnl & Hr & Henv).
      { apply (holds_for_fewer w); [exact Hhold | reflexivity]. }
      exists ext. rewrite Hj, Hr. cbn [app length].
      repeat split; auto. f_equal. f_equal. lia.
    + assert (H1 : holds_for w 1) by (intros i err Hi; apply Hhold; cbn; lia).
      destruct (updateOne_spec parseFloat validate len x u e w (conj Hx Hs) H1)
        as (o & Hno & Hj & Hr & Henv & _).
      unfold bind.
      destruct (updateOne len x (u, e) w) as [w1 r1]. cbn [fst snd] in *. subst r1.
      pose proof (holds_for_next w w1 (length rows) _ Hhold Hj Henv) as Hhold1.
      destruct (applied (request_of x, o)) eqn:Ha.
      * destruct (IH (S u) e w1 Hhold1) as (ext & Hj' & Hm & Hnl & Hr' & Henv').
        exists ((request_of x, o) :: ext). rewrite Hj', Hj, <- app_assoc, Hr'.
        cbn [map fst List.filter length app]. rewrite Ha.
        assert (Hf : failed (request_of x, o) = false) by (destruct o; cbn in *; congruence).
        rewrite Hf. cbn [length].
        split; [reflexivity|]. split; [f_equal; exact Hm|].
        split; [constructor; [exact Hno | exact Hnl]|].
        split; [f_equal; f_equal; lia | congruence].
      * destruct (IH u (S e) w1 Hhold1) as (ext & Hj' & Hm & Hnl & Hr' & Henv').
        exists ((request_of x, o) :: ext). rewrite Hj', Hj, <- app_assoc, Hr'.
        cbn [map fst List.filter length app]. rewrite Ha.
        assert (Hf : failed (request_of x, o) = true).
        { destruct o as [|err|err]; cbn in *; try congruence; destruct (Hno err eq_refl). }
        rewrite Hf. cbn [length].
        split; [reflexivity|]. split; [f_equal; exact Hm|].
        split; [constructor; [exact Hno | exact Hnl]|].
        split; [f_equal; f_equal; lia | congruence].
Qed.

Lemma sent_or_without_stats (rows : list value) :
  length (flat_map (live_request parseFloat) rows) + length (List.filter without_stats rows)
    = length rows.
Proof.
  induction rows as [|x rows IH]; [reflexivity|].
  cbn [flat_map List.filter].
  change (live_request parseFloat x)
    with (if nullish (field "stats" x) then [] else [request_of x]).
  change (without_stats x) with (nullish (field "stats" x)).
  destruct (nullish (field "stats" x)); cbn [app length]; lia.
Qed.

(** X8. In a batch of N rows that are objects, on a connection that stays
    up, a row without [stats] is an error for which no request is sent:
    requests plus rows without stats make N, successes plus K make N where K
    counts the failed requests and the rows without stats, and the function
    raises "Failed to update K players" iff K > 0. *)
Theorem rows_without_stats_count_as_errors (g : value) (rows : list value) (w : World) :
  nullish g = false ->
  field "elements" g = VArr rows ->
  Forall (fun x => nullish x = false) rows ->
  holds_for w (length rows) ->
  exists ext,
    let K := length (List.filter failed ext) + length (List.filter without_stats rows) in
    journal (sql (fst (updatePlayerStats g w))) = journal (sql w) ++ ext /\
    map fst ext = live_requests parseFloat g /\
    length ext + length (List.filter without_stats rows) = length rows /\
    length (List.filter applied ext) + K = length rows /\
    snd (updatePlayerStats g w)
      = (if Nat.eqb K 0 then Ok tt
         else Throw (new_Error [VStr "Failed to update "; num K; VStr " players"])).
Proof.
  intros Hg Hel Hrows Hhold.
  unfold updatePlayerStats, live_requests, bind, prop. rewrite Hg. cbn [ret].
  rewrite Hel. cbn [nullish ret indexed].
  change (field "length" (VArr rows)) with (num (length rows)).
  rewrite js_eq_num_num.
  destruct rows as [|x rows'].
  - exists []. cbn. rewrite app_nil_r. repeat split; reflexivity.
  - cbn [length Nat.eqb]. unfold updateAll, bind. cbn [console_log print indexed].
    set (w1 := mkWorld _ _ _).
    destruct (batch_loop (num (length (x :: rows'))) (x :: rows') Hrows 0 0 w1 Hhold)
      as (ext & Hj & Hm & Hnl & Hr & _).
    pose proof (applied_or_failed ext Hnl) as Hsum.
    pose proof (sent_or_without_stats (x :: rows')) as Hsent.
    rewrite <- Hm, length_map in Hsent.
    exists ext. cbn zeta.
    destruct (for_each (x :: rows') _ (0, 0) w1) as [w2 r2]. cbn [fst snd] in *. subst r2.
    cbn [fst snd Nat.add ret console_log print].
    destruct (length (List.filter failed ext) + length (List.filter without_stats (x :: rows')))
      eqn:HK; cbn [Nat.ltb Nat.leb Nat.eqb throw ret fst snd sql];
      (split; [exact Hj|]); (split; [exact Hm|]); (split; [exact Hsent|]);
      (split; [|reflexivity]); change (length (x :: rows')) with (S (length rows')) in Hsent;
      lia.
Qed.

End Unreadable.

(** ** Defaults that swallow a zero *)

(** The first binding of the parameter [n]. *)
Fixpoint binding (n : string) (ps : list (string * (sqltype * value)))
  : option (sqltype * value) :=
  match ps with
  | [] => None
  | (m, tv) :: rest => if String.eqb n m then Some tv else binding n rest
  end.

Lemma bound_binding (validate : sqltype -> value -> option value)
    (l : list (string * (sqltype * value))) (ps : list (string * value)) (n : string) :
  bound validate l = Some ps ->
  declared n ps = binding n l ≫= (fun tv => validate (fst tv) (snd tv)).
Proof.
  revert ps. induction l as [|[m [t v]] l IH]; intros ps; cbn [bound binding].
  - intros [= <-]. reflexivity.
  - destruct (validate t v) as [v'|] eqn:Hv; [|discriminate].
    destruct (bound validate l) as [ps'|]; [|discriminate].
    intros [= <-]. cbn [declared].
    destruct (String.eqb n m); [cbn; rewrite Hv; reflexivity | apply IH; reflexivity].
Qed.

(** X11. A score of 0 is sent as NULL: when [team_a_score] or
    [team_h_score] of a fixture is falsy (0, [null], missing), the parameter
    is bound to [null], and what the row gets is what the driver makes of
    NULL for an [Int]. *)
Theorem goalless_score_is_stored_as_null (validate : sqltype -> value -> option value)
    (fixture : value) (ps : list (string * value)) (side : string) :
  side = "team_a_score" \/ side = "team_h_score" ->
  truthy (field side fixture) = false ->
  bound validate (parameters (fixture_request fixture)) = Some ps ->
  binding side (parameters (fixture_request fixture)) = Some (Int, VNull) /\
  declared side ps = validate Int VNull.
Proof.
  intros Hside Hfalsy Hb.
  assert (Hbind : binding side (parameters (fixture_request fixture)) = Some (Int, VNull)).
  { destruct Hside as [-> | ->]; cbn; unfold or_else; rewrite Hfalsy; reflexivity. }
  split; [exact Hbind|].
  rewrite (bound_binding validate _ ps side Hb), Hbind. reflexivity.
Qed.

(** ** The rows the batch updates *)

(** C2 as the spec words it, at three live rows for the players 1, 2 and 3
    on tables that hold player 1 alone: no request fails (K = 0, N - K = 3),
    three rows are counted as updated, and the tables hold one row.  With a
    [null] entry between two rows the batch is aborted at the entry: one
    request of three rows is sent. *)
Lemma three_successes_one_row :
  let rows := [Sample.stat 1 90; Sample.stat 2 90; Sample.stat 3 90] in
  let after := updatePlayerStats Sample.parseFloat Sample.validate (Sample.gameweek rows)
                 Sample.seeded in
  let cut := updatePlayerStats Sample.parseFloat Sample.validate
               (Sample.gameweek [Sample.stat 1 90; VNull; Sample.stat 3 90]) Sample.seeded in
  snd after = Ok tt /\
  map snd (journal (sql (fst after))) = [Applied; Applied; Applied] /\
  snd (updateAll Sample.parseFloat Sample.validate (VArr rows) Sample.seeded) = Ok (3, 0) /\
  map fst (map_to_list (tables (sql (fst after)))) = [("players", 1%Z)] /\
  length (journal (sql (fst cut))) = 1 /\
  snd cut = Throw (TypeError [VStr "Cannot read properties of "; VNull;
                              VStr " (reading 'stats')"]).
Proof. vm_compute. repeat split; reflexivity. Qed.

Lemma settles_inj (o o' : outcome) : settles o = settles o' -> o = o'.
Proof. destruct o, o'; cbn; congruence. Qed.

Section BatchRows.

Variable parseFloat : value -> value.
Variable validate : sqltype -> value -> option value.

Local Abbreviation request_of := (request_of parseFloat).
Local Abbreviation execSql := (execSql validate).
Local Abbreviation updateOne := (updateOne parseFloat validate).
Local Abbreviation updateAll := (updateAll parseFloat validate).
Local Abbreviation updatePlayerStats := (updatePlayerStats parseFloat validate).
Local Abbreviation main := (main parseFloat validate).

(** The primary key of [players] the live row [x] names: [x.id] as the
    driver validates it for an [Int] parameter; none when the driver rejects
    it, or when it is NULL. *)
Definition row_key (x : value) : option Z :=
  match validate Int (field "id" x) ≫= key_of with
  | Some (Some z) => Some z
  | _ => None
  end.

(** The row of [d] that [UPDATE dbo.players ... WHERE id = @player_id] for
    the live row [x] changes: the one [x.id] names, if [d] has it. *)
Definition target (d : database) (x : value) : option Z :=
  match row_key x with
  | Some z => match d !! ("players", z) with Some _ => Some z | None => None end
  | None => None
  end.

(** The rows changed by the batch, one entry for each applied request that
    found its row ([ext] are the journal entries of [rows], in order). *)
Fixpoint hits (d : database) (rows : list value) (ext : list (request * outcome)) : list Z :=
  match rows, ext with
  | x :: rows', e :: ext' =>
      match (if applied e then target d x else None) with
      | Some z => z :: hits d rows' ext'
      | None => hits d rows' ext'
      end
  | _, _ => []
  end.

(** The tables before and after the journal entries [ext] of [rows], the
    first of which is request number [n]: an applied request has run its
    statement, the others have left the tables alone. *)
Fixpoint batch_tables (clock : nat -> value) (n : nat) (rows : list value)
    (ext : list (request * outcome)) (d d' : database) : Prop :=
  match rows, ext with
  | [], [] => d' = d
  | x :: rows', (q, o) :: ext' =>
      exists d1,
        match o with
        | Applied => run validate (clock n) (request_of x) d = Some d1
        | _ => d1 = d
        end /\
        batch_tables clock (S n) rows' ext' d1 d'
  | _, _ => False
  end.

Definition same_keys (d d' : database) : Prop :=
  forall k, d' !! k = None <-> d !! k = None.

Lemma key_bound (x : value) (ps : list (string * value)) :
  bound validate (parameters (request_of x)) = Some ps ->
  declared "player_id" ps = validate Int (field "id" x).
Proof.
  intros Hb. rewrite (bound_binding validate _ ps "player_id" Hb). reflexivity.
Qed.

Lemma stat_columns_stamp (c : string) : c ∈ stat_columns -> c <> "last_updated".
Proof.
  intros Hc ->. revert Hc. apply (bool_decide_unpack _). vm_compute. exact I.
Qed.

(** One UPDATE that runs: it changes the row its live row names, if there
    is one, and nothing otherwise. *)
Lemma update_cases (x : value) (now : value) (d d' : database) :
  run validate now (request_of x) d = Some d' ->
  exists ps vs,
    bound validate (parameters (request_of x)) = Some ps /\
    values (cols stat_columns ++ [("last_updated", GetUtcDate)]) ps now = Some vs /\
    match target d x with
    | Some z => exists r, d !! ("players", z) = Some r /\ d' = <[("players", z) := write vs r]> d
    | None => d' = d
    end.
Proof.
  unfold run. destruct (bound validate (parameters (request_of x))) as [ps|] eqn:Hb; [|discriminate].
  change (sql_text (request_of x)) with players_update. unfold players_update.
  destruct (values _ ps now) as [vs|] eqn:Hvs; [|discriminate].
  rewrite (key_bound x ps Hb). unfold target, row_key.
  destruct (validate Int (field "id" x) ≫= key_of) as [[z|]|]; [| |discriminate].
  - destruct (d !! ("players", z)) as [r|] eqn:Hr; intros [= <-]; exists ps, vs; eauto.
  - intros [= <-]. exists ps, vs. auto.
Qed.

Lemma this_row (d : database) (k : string * Z) (r : row) : <[k := r]> d !! k = Some r.
Proof. apply lookup_insert_eq. Qed.

Lemma update_same_keys (x : value) (now : value) (d d' : database) :
  run validate now (request_of x) d = Some d' -> same_keys d d'.
Proof.
  intros H. destruct (update_cases x now d d' H) as (ps & vs & _ & _ & Hcase).
  destruct (target d x) as [z|]; [|subst; intros k; reflexivity].
  destruct Hcase as (r & Hr & ->). intros k.
  destruct (decide (k = ("players", z))) as [->|Hne].
  - rewrite this_row, Hr. split; discriminate.
  - rewrite other_row by congruence. reflexivity.
Qed.

Lemma update_frame (x : value) (now : value) (d d' : database) (k : string * Z) :
  run validate now (request_of x) d = Some d' ->
  (forall z, target d x = Some z -> k <> ("players", z)) ->
  d' !! k = d !! k.
Proof.
  intros H Hk. destruct (update_cases x now d d' H) as (ps & vs & _ & _ & Hcase).
  destruct (target d x) as [z|]; [|subst; reflexivity].
  destruct Hcase as (r & Hr & ->). apply other_row. intros <-. apply (Hk z); reflexivity.
Qed.

(** The row an applied UPDATE found holds the validated parameters in the
    eighteen statistics columns. *)
Lemma update_hit (x : value) (now : value) (d d' : database) (z : Z) :
  run validate now (request_of x) d = Some d' ->
  target d x = Some z ->
  exists ps r',
    bound validate (parameters (request_of x)) = Some ps /\
    d' !! ("players", z) = Some r' /\
    forall c, c ∈ stat_columns -> is_Some (declared c ps) /\ r' !! c = declared c ps.
Proof.
  intros H Hz. destruct (update_cases x now d d' H) as (ps & vs & Hb & Hvs & Hcase).
  rewrite Hz in Hcase. destruct Hcase as (r & Hr & ->).
  exists ps, (write vs r). split; [exact Hb|]. split; [apply this_row|].
  intros c Hc.
  assert (Hsome : is_Some (declared c ps)).
  { apply (bound_declared validate _ ps c Hb).
    change (map fst (parameters (request_of x))) with ("player_id" :: stat_columns).
    right. exact Hc. }
  split; [exact Hsome|].
  apply values_app in Hvs as (v1 & v2 & Hv1 & Hv2 & ->).
  rewrite write_lookup, written_app.
  injection Hv2 as <-. cbn [written].
  destruct (String.eqb_spec c "last_updated") as [->|_];
    [destruct (stat_columns_stamp _ Hc eq_refl)|].
  rewrite (values_cols stat_columns ps now v1 Hv1 c), decide_True by exact Hc.
  destruct Hsome as [v ->]. reflexivity.
Qed.

Lemma same_keys_refl (d : database) : same_keys d d.
Proof. intros k. reflexivity. Qed.

Lemma same_keys_trans (d1 d2 d3 : database) :
  same_keys d1 d2 -> same_keys d2 d3 -> same_keys d1 d3.
Proof. intros H1 H2 k. rewrite (H2 k). apply H1. Qed.

Lemma target_same_keys (d d' : database) (x : value) :
  same_keys d d' -> target d' x = target d x.
Proof.
  intros H. unfold target. destruct (row_key x) as [z|]; [|reflexivity].
  specialize (H ("players", z)).
  destruct (d !! ("players", z)), (d' !! ("players", z)); try reflexivity.
  - destruct H as [H _]. specialize (H eq_refl). discriminate.
  - destruct H as [_ H]. specialize (H eq_refl). discriminate.
Qed.

Lemma hits_same_keys (d d' : database) (rows : list value) (ext : list (request * outcome)) :
  same_keys d d' -> hits d' rows ext = hits d rows ext.
Proof.
  intros H. revert ext. induction rows as [|x rows IH]; intros [|e ext]; cbn [hits];
    try reflexivity.
  rewrite (target_same_keys d d' x H), IH. reflexivity.
Qed.

Lemma batch_step (clock : nat -> value) (n : nat) (x : value) (o : outcome) (d d1 : database) :
  match o with
  | Applied => run validate (clock n) (request_of x) d = Some d1
  | _ => d1 = d
  end ->
  same_keys d d1 /\
  forall k, (forall z, (if applied (request_of x, o) then target d x else None) = Some z ->
                       k <> ("players", z)) ->
            d1 !! k = d !! k.
Proof.
  destruct o as [|e|e]; cbn [applied snd].
  - intros H. split; [eapply update_same_keys; eauto | intros k Hk; eapply update_frame; eauto].
  - intros ->. split; [apply same_keys_refl | reflexivity].
  - intros ->. split; [apply same_keys_refl | reflexivity].
Qed.

Lemma batch_same_keys (rows : list value) :
  forall ext clock n d d', batch_tables clock n rows ext d d' -> same_keys d d'.
Proof.
  induction rows as [|x rows IH]; intros [|[q o] ext] clock n d d'; cbn [batch_tables];
    try contradiction.
  - intros ->. apply same_keys_refl.
  - intros (d1 & Hstep & Hrest).
    destruct (batch_step clock n x o d d1 Hstep) as [Hk _].
    eapply same_keys_trans; [exact Hk | eapply IH; exact Hrest].
Qed.

(** Rows no applied request found are as they were. *)
Lemma batch_frame (rows : list value) :
  forall ext clock n d d',
    batch_tables clock n rows ext d d' ->
    map fst ext = map request_of rows ->
    forall k, k ∉ map (pair "players") (hits d rows ext) -> d' !! k = d !! k.
Proof.
  induction rows as [|x rows IH]; intros [|[q o] ext] clock n d d'; cbn [batch_tables];
    try contradiction.
  - intros -> _ k _. reflexivity.
  - intros (d1 & Hstep & Hrest) Hm k Hk. cbn [map fst] in Hm. injection Hm as -> Hm.
    destruct (batch_step clock n x o d d1 Hstep) as [Hkeys Hframe].
    cbn [hits] in Hk.
    rewrite (IH ext clock (S n) d1 d' Hrest Hm k).
    + apply Hframe. intros z Hz ->. rewrite Hz in Hk. apply Hk. left.
    + rewrite (hits_same_keys d d1 rows ext Hkeys).
      destruct (if applied (request_of x, o) then target d x else None);
        [intros Hin; apply Hk; right; exact Hin | exact Hk].
Qed.

Lemma batch_split (pre : list value) :
  forall epre rs es clock n d d',
    length epre = length pre ->
    batch_tables clock n (pre ++ rs) (epre ++ es) d d' ->
    exists d1, batch_tables clock n pre epre d d1 /\
               batch_tables clock (n + length pre) rs es d1 d'.
Proof.
  induction pre as [|x pre IH]; intros [|[q o] epre] rs es clock n d d' Hlen;
    try discriminate; cbn [app batch_tables length].
  - intros H. exists d. rewrite Nat.add_0_r. auto.
  - intros (d1 & Hstep & Hrest). injection Hlen as Hlen.
    destruct (IH epre rs es clock (S n) d1 d' Hlen Hrest) as (d2 & H1 & H2).
    exists d2. split; [exists d1; auto|].
    replace (n + S (length pre)) with (S n + length pre) by lia. exact H2.
Qed.

(** A row holds what the last applied request that found it wrote. *)
Lemma batch_last (rows : list value) (ext : list (request * outcome))
    (clock : nat -> value) (n : nat) (d d' : database)
    (pre post : list value) (epre epost : list (request * outcome)) (x : value) (z : Z) :
  batch_tables clock n rows ext d d' ->
  rows = pre ++ x :: post ->
  ext = epre ++ (request_of x, Applied) :: epost ->
  length epre = length pre ->
  map fst epost = map request_of post ->
  target d x = Some z ->
  z ∉ hits d post epost ->
  exists ps r',
    bound validate (parameters (request_of x)) = Some ps /\
    d' !! ("players", z) = Some r' /\
    forall c, c ∈ stat_columns -> is_Some (declared c ps) /\ r' !! c = declared c ps.
Proof.
  intros Hb -> -> Hlen Hm Hz Hlast.
  destruct (batch_split pre epre _ _ clock n d d' Hlen Hb) as (d1 & Hpre & Hrest).
  cbn [batch_tables] in Hrest. destruct Hrest as (d2 & Hrun & Hpost).
  pose proof (batch_same_keys pre epre clock n d d1 Hpre) as Hk1.
  pose proof (update_same_keys x _ d1 d2 Hrun) as Hk2.
  rewrite <- (target_same_keys d d1 x Hk1) in Hz.
  destruct (update_hit x _ d1 d2 z Hrun Hz) as (ps & r' & Hbound & Hr' & Hcols).
  exists ps, r'. split; [exact Hbound|]. split; [|exact Hcols].
  rewrite (batch_frame post epost clock _ d2 d' Hpost Hm); [exact Hr'|].
  rewrite (hits_same_keys d d2 post epost (same_keys_trans _ _ _ Hk1 Hk2)).
  intros Hin. apply Hlast. apply list_elem_of_fmap in Hin as (z0 & Heq & Hin). injection Heq as <-. exact Hin.
Qed.

Lemma hits_applied (d : database) (rows : list value) :
  forall ext, length (hits d rows ext) <= length (List.filter applied ext).
Proof.
  induction rows as [|x rows IH]; intros [|e ext]; cbn [hits List.filter length]; try lia.
  specialize (IH ext). destruct (applied e); [destruct (target d x)|]; cbn [length]; lia.
Qed.

Lemma hits_all (d : database) (rows : list value) :
  Forall (fun x => is_Some (target d x)) rows ->
  forall ext, length ext = length rows ->
              length (hits d rows ext) = length (List.filter applied ext).
Proof.
  induction 1 as [|x rows [z Hz] _ IH]; intros [|e ext] Hlen; try discriminate;
    cbn [hits List.filter length]; [reflexivity|].
  injection Hlen as Hlen. rewrite Hz.
  destruct (applied e); cbn [length]; rewrite (IH ext Hlen); reflexivity.
Qed.

(** The loop over readable rows, request by request. *)
Lemma stats_loop_tables (len : value) (rows : list value) :
  Forall readable rows ->
  forall (u e : nat) (w : World) (ext : list (request * outcome)),
    holds_for w (length rows) ->
    journal (sql (fst (for_each rows (updateOne len) (u, e) w))) = journal (sql w) ++ ext ->
    batch_tables (utc (sql w)) (length (journal (sql w))) rows ext
      (tables (sql w)) (tables (sql (fst (for_each rows (updateOne len) (u, e) w)))).
Proof.
  induction 1 as [|x rows Hx Hrows IH]; intros u e w ext Hhold Hj.
  - cbn in Hj. rewrite <- (app_nil_r (journal (sql w))) in Hj at 1.
    apply app_inv_head in Hj. subst ext. reflexivity.
  - assert (H1 : holds_for w 1) by (intros i err Hi; apply Hhold; cbn; lia).
    destruct (updateOne_spec parseFloat validate len x u e w Hx H1)
      as (o & Hno & Hj1 & Hr & Henv & Hset & Ht).
    destruct (execSql_spec validate (request_of x) w) as (o' & _ & Hset' & Hcase).
    rewrite Hset in Hset'. apply settles_inj in Hset'. subst o'.
    revert Hj. cbn [for_each]. unfold bind.
    destruct (updateOne len x (u, e) w) as [w1 r1]. cbn [fst snd] in *. subst r1.
    pose proof (holds_for_next w w1 (length rows) _ Hhold Hj1 Henv) as Hhold1.
    set (c := if applied (request_of x, o) then (S u, e) else (u, S e)).
    destruct c as [u1 e1].
    destruct (stats_loop parseFloat validate len rows Hrows u1 e1 w1 Hhold1)
      as (ext1 & Hj2 & _).
    intros Hj. rewrite Hj2, Hj1, <- app_assoc in Hj. apply app_inv_head in Hj. subst ext.
    cbn [app batch_tables]. exists (tables (sql w1)). split.
    + rewrite Ht. destruct o as [|err|err]; [apply Hcase | apply Hcase | apply Hcase].
    + specialize (IH u1 e1 w1 ext1 Hhold1 Hj2).
      unfold env in Henv. injection Henv as _ _ Hutc.
      rewrite Hutc, Hj1, length_app, Nat.add_comm in IH. exact IH.
Qed.

(** What [updatePlayerStats] leaves on the connection is what its loop
    leaves. *)
Lemma updatePlayerStats_loop (g : value) (rows : list value) (w : World) :
  nullish g = false ->
  field "elements" g = VArr rows ->
  sql (fst (updatePlayerStats g w))
    = sql (fst (for_each rows (updateOne (num (length rows))) (0, 0)
                  (mkWorld (net w)
                     (console w ++ [(Info, [VStr "Updating "; num (length rows);
                                            VStr " players..."])])
                     (sql w)))).
Proof.
  intros Hg Hel. unfold updatePlayerStats, bind, prop. rewrite Hg. cbn [ret]. rewrite Hel.
  cbn [nullish ret].
  change (field "length" (VArr rows)) with (num (length rows)).
  rewrite js_eq_num_num.
  destruct rows as [|x rows']; [reflexivity|].
  cbn [length Nat.eqb]. unfold updateAll, bind. cbn [console_log print indexed].
  change (field "length" (VArr (x :: rows'))) with (num (length (x :: rows'))).
  destruct (for_each (x :: rows') _ (0, 0) _) as [w2 [[u e]|err|err]]; cbn; try reflexivity.
  destruct e; reflexivity.
Qed.

(** A [null] or [undefined] entry ends the loop: [element.stats] is read
    outside the [try] block. *)
Lemma batch_stops (g x : value) (pre post : list value) (w : World) :
  nullish g = false ->
  field "elements" g = VArr (pre ++ x :: post) ->
  Forall readable pre ->
  nullish x = true ->
  holds_for w (length pre) ->
  exists ext,
    journal (sql (fst (updatePlayerStats g w))) = journal (sql w) ++ ext /\
    map fst ext = map request_of pre /\
    snd (updatePlayerStats g w)
      = Throw (TypeError [VStr "Cannot read properties of "; x; VStr " (reading 'stats')"]).
Proof.
  intros Hg Hel Hpre Hx Hhold.
  unfold updatePlayerStats, bind, prop. rewrite Hg. cbn [ret]. rewrite Hel.
  cbn [nullish ret].
  change (field "length" (VArr (pre ++ x :: post))) with (num (length (pre ++ x :: post))).
  rewrite js_eq_num_num.
  assert (Hlen : Nat.eqb (length (pre ++ x :: post)) 0 = false).
  { apply Nat.eqb_neq. rewrite length_app. cbn. lia. }
  rewrite Hlen. unfold updateAll, bind. cbn [console_log print indexed].
  set (w1 := mkWorld _ _ _).
  rewrite for_each_app. unfold bind.
  destruct (stats_loop parseFloat validate (num (length (pre ++ x :: post))) pre Hpre 0 0 w1 Hhold)
    as (ext & Hj & Hm & _ & Hr & _).
  destruct (for_each pre _ (0, 0) w1) as [w2 r2]. cbn [fst snd] in *. subst r2.
  cbn [for_each]. unfold updateOne, bind, prop. rewrite Hx. cbn.
  exists ext. auto.
Qed.

(** C2, amended.  A batch of N live rows that are objects with [stats], on
    a connection that does not raise 'error' during it: every row is sent,
    once and in order; with K the number of requests that failed, N - K
    requests are applied and counted as updated and K as errors; the function
    raises "Failed to update K players" after the whole batch iff K > 0, and
    a run whose live-statistics phase this is exits with code 1 iff K > 0.
    An applied request changes the row of [players] that the [id] of its live
    row names, if there is one, and no row otherwise: at most N - K requests
    change a row, and N - K do when every [id] names a row; every row of
    every table that no applied request found is as it was; and a row that
    was found holds, in the eighteen statistics columns, the parameters of
    the last applied request that found it.  A [null] or [undefined] entry
    in the list aborts the batch: the rows before it are sent, and reading its
    [stats] raises outside the [try] block of the loop. *)
Theorem batch_update_is_best_effort (g : value) (rows : list value) (w : World) :
  nullish g = false ->
  field "elements" g = VArr rows ->
  holds_for w (length rows) ->
  (Forall readable rows ->
   exists ext,
    let K := length (List.filter failed ext) in
    let d := tables (sql w) in
    let d' := tables (sql (fst (updatePlayerStats g w))) in
    journal (sql (fst (updatePlayerStats g w))) = journal (sql w) ++ ext /\
    map fst ext = map request_of rows /\
    length (List.filter applied ext) = length rows - K /\
    K <= length rows /\
    snd (updateAll (VArr rows) w) = Ok (length rows - K, K) /\
    snd (updatePlayerStats g w)
      = (if Nat.eqb K 0 then Ok tt
         else Throw (new_Error [VStr "Failed to update "; num K; VStr " players"])) /\
    (forall w0 b f,
       reaches_stats parseFloat validate w0 b g f ->
       w = stats_world parseFloat validate w0 b g f ->
       snd (main w0) = if Nat.eqb K 0 then 0%Z else 1%Z) /\
    length (hits d rows ext) <= length rows - K /\
    (Forall (fun x => is_Some (target d x)) rows -> length (hits d rows ext) = length rows - K) /\
    (forall k, k ∉ map (pair "players") (hits d rows ext) -> d' !! k = d !! k) /\
    (forall pre x post epre epost z,
       rows = pre ++ x :: post ->
       ext = epre ++ (request_of x, Applied) :: epost ->
       length epre = length pre ->
       target d x = Some z ->
       z ∉ hits d post epost ->
       exists ps r',
         bound validate (parameters (request_of x)) = Some ps /\
         d' !! ("players", z) = Some r' /\
         forall c, c ∈ stat_columns -> is_Some (declared c ps) /\ r' !! c = declared c ps)) /\
  (forall pre x post,
     rows = pre ++ x :: post -> Forall readable pre -> nullish x = true ->
     exists ext,
       journal (sql (fst (updatePlayerStats g w))) = journal (sql w) ++ ext /\
       map fst ext = map request_of pre /\
       snd (updatePlayerStats g w)
         = Throw (TypeError [VStr "Cannot read properties of "; x;
                             VStr " (reading 'stats')"])).
Proof.
  intros Hg Hel Hhold. split.
  2:{ intros pre x post -> Hpre Hx. apply (batch_stops g x pre post w Hg Hel Hpre Hx).
      intros i err Hi. apply Hhold. rewrite length_app. lia. }
  intros Hrows.
  destruct (batch_counts parseFloat validate g rows w Hg Hel Hrows Hhold)
    as (ext & Hj & Hm & Happlied & HK & Hall & Hres & Hmain).
  exists ext. cbn zeta.
  do 7 (split; [assumption|]).
  assert (Hlen : length ext = length rows).
  { rewrite <- (length_map fst ext), Hm, length_map. reflexivity. }
  pose proof (updatePlayerStats_loop g rows w Hg Hel) as Hsql.
  set (w1 := mkWorld _ _ _) in Hsql.
  assert (Hb : batch_tables (utc (sql w)) (length (journal (sql w))) rows ext
                 (tables (sql w)) (tables (sql (fst (updatePlayerStats g w))))).
  { rewrite Hsql.
    apply (stats_loop_tables (num (length rows)) rows Hrows 0 0 w1 ext Hhold).
    rewrite <- Hsql. exact Hj. }
  split; [rewrite <- Happlied; apply hits_applied|].
  split; [intros Hfound; rewrite <- Happlied; apply hits_all; assumption|].
  split; [apply (batch_frame rows ext _ _ _ _ Hb Hm)|].
  intros pre x post epre epost z Hrows' Hext Hpre Hz Hlast.
  apply (batch_last rows ext _ _ _ _ pre post epre epost x z Hb Hrows' Hext Hpre); auto.
  subst rows ext. rewrite !map_app in Hm. cbn [map fst] in Hm.
  apply app_inj_1 in Hm as [_ Hm]; [|rewrite !length_map; exact Hpre].
  injection Hm as Hm. exact Hm.
Qed.

End BatchRows.

(** ** What the fetch functions hand to validation *)

Lemma net_print (l : level) (t : text) : preserves net (print l t).
Proof. intros w. reflexivity. Qed.

#[export] Hint Resolve net_print : keeps.

Lemma net_report {A} (label : string) (e : error) : preserves net (@report A label e).
Proof. unfold report. keeps. Qed.

Lemma net_find_by (k : string) (l : list value) : preserves net (find_by k l).
Proof. induction l; simpl; keeps. Qed.

Lemma net_filter_live (l : list value) : preserves net (filter_live l).
Proof. induction l; simpl; keeps. Qed.

#[export] Hint Resolve net_report net_find_by net_filter_live : keeps.

Lemma net_find_current (events : value) : preserves net (find_current events).
Proof. unfold find_current. keeps. Qed.

Lemma net_validateData (b g f : value) : preserves net (validateData b g f).
Proof.
  intros w. destruct (validateData_outcome b g f w) as (added & -> & _ & _). reflexivity.
Qed.

#[export] Hint Resolve net_find_current net_validateData : keeps.

Lemma report_throws {A} (label : string) (e : error) (w : World) :
  snd (@report A label e w) = Throw e.
Proof. unfold report, bind, console_error, print. destruct (response e) as [[s t]|]; reflexivity. Qed.

(** A fetch function returns what its [try] block returns. *)
Lemma reported_ok {A} (m : M A) (label : string) (w w1 : World) (a : A) :
  try_catch m (report label) w = (w1, Ok a) -> m w = (w1, Ok a).
Proof.
  unfold try_catch. destruct (m w) as [w' [a'|e|e]]; try discriminate; [auto|].
  intros H. pose proof (report_throws (A:=A) label e w') as Ht.
  rewrite H in Ht. discriminate.
Qed.

Lemma axios_ok (url : endpoint) (w w1 : World) (data : value) :
  axios_get url w = (w1, Ok data) ->
  api (net w) (fetched (net w)) url = Replied data /\
  w1 = mkWorld (mkNet (api (net w)) (S (fetched (net w)))) (console w) (sql w).
Proof.
  unfold axios_get. destruct (api (net w) (fetched (net w)) url); intros [= <- <-]; auto.
Qed.

Lemma truthy_not_nullish (v : value) : truthy v = true -> nullish v = false.
Proof. destruct v; cbn; congruence. Qed.

Lemma getBootstrapData_ok (w w1 : World) (b : value) :
  getBootstrapData w = (w1, Ok b) ->
  truthy b = true /\
  api (net w) (fetched (net w)) BootstrapStatic = Replied b.
Proof.
  intros H. apply reported_ok in H.
  apply bind_ok_inv in H as ([] & wa & Hlog & H). injection Hlog as <-.
  apply bind_ok_inv in H as (data & wb & Hget & H). apply axios_ok in Hget as [Hapi ->].
  destruct (truthy data) eqn:Ht; cbn [negb] in H; [|discriminate].
  apply bind_ok_inv in H as ([] & wc & _ & H). injection H as _ <-. auto.
Qed.

Lemma getCurrentGameweekData_ok (w w1 : World) (g : value) :
  getCurrentGameweekData w = (w1, Ok g) ->
  exists data gw liveData,
    api (net w) (fetched (net w)) BootstrapStatic = Replied data /\
    truthy gw = true /\
    api (net w) (S (fetched (net w))) (EventLive (field "id" gw)) = Replied liveData /\
    truthy liveData = true /\
    truthy (field "elements" liveData) = true /\
    g = VObj [("gameweekId", field "id" gw); ("elements", field "elements" liveData)] /\
    (exists wa, find_current (field "events" data)
                  (mkWorld (mkNet (api (net w)) (S (fetched (net w)))) (console w) (sql w))
                = (wa, Ok gw) /\ net wa = mkNet (api (net w)) (S (fetched (net w)))).
Proof.
  intros H. apply reported_ok in H.
  apply bind_ok_inv in H as (data & wa & Hget & H). apply axios_ok in Hget as [Hapi ->].
  apply bind_ok_inv in H as ([] & wb & Hcheck & H).
  destruct (negb (truthy data) || negb (truthy (field "events" data))); [discriminate|].
  injection Hcheck as <-.
  apply bind_ok_inv in H as (gw & wc & Hfind & H).
  assert (Hnet : net wc = mkNet (api (net w)) (S (fetched (net w)))).
  { pose proof (net_find_current (field "events" data)
                  (mkWorld (mkNet (api (net w)) (S (fetched (net w)))) (console w) (sql w)))
      as Hk.
    rewrite Hfind in Hk. exact Hk. }
  destruct (truthy gw) eqn:Hgw; cbn [negb] in H; [|discriminate].
  apply bind_ok_inv in H as ([] & wd & Hlog & H). injection Hlog as <-.
  apply bind_ok_inv in H as (liveData & we & Hlive & H).
  apply axios_ok in Hlive as [Hapi' ->]. cbn [net console sql] in *.
  rewrite Hnet in Hapi'. cbn [api fetched] in Hapi'.
  destruct (truthy liveData) eqn:Hl; cbn [negb orb] in H; [|discriminate].
  destruct (truthy (field "elements" liveData)) eqn:He; cbn [negb] in H; [|discriminate].
  apply bind_ok_inv in H as ([] & wf & _ & H). cbv [ret] in H. injection H as _ <-.
  exists data, gw, liveData. repeat split; eauto.
Qed.

Lemma getFixturesData_ok (w w1 : World) (f : value) :
  getFixturesData w = (w1, Ok f) -> exists l, f = VArr l.
Proof.
  intros H. apply reported_ok in H.
  apply bind_ok_inv in H as ([] & wa & _ & H).
  apply bind_ok_inv in H as (data & wb & _ & H).
  destruct (negb (truthy data) || negb (isArray data)) eqn:Hc; [discriminate|].
  apply orb_false_elim in Hc as [_ Ha].
  cbv [bind console_log print ret] in H. injection H as _ <-.
  destruct data; try discriminate Ha. eauto.
Qed.

Lemma fetch_all_ok (w : World) (b g f : value) :
  snd (fetch_all w) = Ok (b, g, f) ->
  exists w1 w2 w3,
    getBootstrapData w = (w1, Ok b) /\
    getCurrentGameweekData w1 = (w2, Ok g) /\
    getFixturesData w2 = (w3, Ok f).
Proof.
  unfold fetch_all, bind.
  destruct (getBootstrapData w) as [w1 [b'|e|e]] eqn:Hb; try discriminate.
  destruct (getCurrentGameweekData w1) as [w2 [g'|e|e]] eqn:Hg; try discriminate.
  destruct (getFixturesData w2) as [w3 [f'|e|e]] eqn:Hf; try discriminate.
  cbn. intros [= -> -> ->]. exists w1, w2, w3. auto.
Qed.

(** X6. What the three fetch functions hand to validation in any run
    that gets there: a truthy bootstrap payload, a live payload that is an
    object [{ gameweekId, elements }] with truthy [elements], an array of
    fixtures; so the rules "Bootstrap data is null or undefined" and
    "Gameweek data is null or undefined" are never violated in a run. *)
Theorem fetched_snapshots_are_well_formed (w : World) (b g f : value) :
  reaches_validation w b g f ->
  truthy b = true /\
  (exists id elements,
     g = VObj [("gameweekId", id); ("elements", elements)] /\ truthy elements = true) /\
  (exists fixtures, f = VArr fixtures) /\
  firstn 1 (hard_rules b g f) = [(false, [VStr "Bootstrap data is null or undefined"])] /\
  nth_error (hard_rules b g f) 5 = Some (false, [VStr "Gameweek data is null or undefined"]).
Proof.
  intros [_ Hfetch]. apply fetch_all_ok in Hfetch as (w1 & w2 & w3 & Hb & Hg & Hf).
  apply getBootstrapData_ok in Hb as [Hb _].
  apply getCurrentGameweekData_ok in Hg as (data & gw & live & _ & _ & _ & _ & Hel & -> & _).
  apply getFixturesData_ok in Hf as [l ->].
  repeat split; eauto.
  cbn. rewrite Hb. reflexivity.
Qed.

(** ** The first variant's fetch *)

(** X18. The validating [getCurrentGameweekData] only restricts the one
    of the first variant: whenever it returns a payload, the first variant
    run in the same world returns the same payload after the same requests,
    with as many console lines. *)
Theorem validating_fetch_refines_the_first (w w1 : World) (g : value) :
  getCurrentGameweekData w = (w1, Ok g) ->
  exists w2,
    Legacy.getCurrentGameweekData w = (w2, Ok g) /\
    net w2 = net w1 /\ sql w2 = sql w1 /\
    length (console w2) = length (console w1).
Proof.
  intros H. apply reported_ok in H.
  apply bind_ok_inv in H as (data & wa & Hget & H).
  apply bind_ok_inv in H as ([] & wb & Hcheck & H).
  destruct (truthy data) eqn:Hd; cbn [negb orb] in Hcheck; [|discriminate].
  destruct (truthy (field "events" data)) eqn:Hev; cbn [negb] in Hcheck; [|discriminate].
  injection Hcheck as <-.
  apply bind_ok_inv in H as (gw & wc & Hfind & H).
  destruct (truthy gw) eqn:Hgw; cbn [negb] in H; [|discriminate].
  apply bind_ok_inv in H as ([] & wd & Hlog & H).
  apply bind_ok_inv in H as (liveData & we & Hlive & H).
  destruct (truthy liveData) eqn:Hl; cbn [negb orb] in H; [|discriminate].
  destruct (truthy (field "elements" liveData)) eqn:He; cbn [negb] in H; [|discriminate].
  apply bind_ok_inv in H as ([] & wf & Hlog' & H). injection H as <- <-.
  injection Hlog' as <-.
  eexists. split.
  - unfold Legacy.getCurrentGameweekData, try_catch, bind, prop.
    rewrite Hget, (truthy_not_nullish _ Hd). cbn [ret]. rewrite Hfind, Hgw. cbn [negb].
    rewrite Hlog, Hlive, (truthy_not_nullish _ Hl). cbn [ret].
    rewrite (truthy_not_nullish _ He). cbn [ret console_log print]. reflexivity.
  - cbn. rewrite !length_app. auto.
Qed.

(** ** The requests to the API *)

(** [m] leaves the API as it is and makes between [lo] and [hi] requests
    to it. *)
Definition polls (lo hi : nat) {A} (m : M A) : Prop :=
  forall w,
    api (net (fst (m w))) = api (net w) /\
    fetched (net w) + lo <= fetched (net (fst (m w))) <= fetched (net w) + hi.

Lemma polls_still (hi : nat) {A} (m : M A) : preserves net m -> polls 0 hi m.
Proof. intros Hm w. rewrite (Hm w). split; [reflexivity | lia]. Qed.

Lemma polls_axios (lo hi : nat) (url : endpoint) :
  lo <= 1 <= hi -> polls lo hi (axios_get url).
Proof.
  intros Hn w. unfold axios_get. destruct (api (net w) (fetched (net w)) url); cbn; split;
    auto; lia.
Qed.

Lemma polls_bind (lo1 hi1 lo2 hi2 lo hi : nat) {A B} (m : M A) (k : A -> M B) :
  polls lo1 hi1 m -> (forall a, polls lo2 hi2 (k a)) -> lo <= lo1 -> hi1 + hi2 <= hi ->
  polls lo hi (bind m k).
Proof.
  intros Hm Hk Hlo Hhi w. destruct (Hm w) as [Ha Hf].
  pose proof (bind_cases m k w) as Hb.
  destruct (snd (m w)) as [a|e|e]; rewrite Hb; cbn [fst].
  - destruct (Hk a (fst (m w))) as [Ha' Hf']. split; [congruence | lia].
  - split; [exact Ha | lia].
  - split; [exact Ha | lia].
Qed.

(** After a console line the count is that of what follows. *)
Lemma polls_after (lo hi : nat) (l : level) (t : text) {B} (k : unit -> M B) :
  polls lo hi (k tt) -> polls lo hi (bind (print l t) k).
Proof. intros Hk w. apply (Hk (fst (print l t w))). Qed.

Lemma polls_try (lo hi : nat) {A} (m : M A) (h : error -> M A) :
  polls lo hi m -> (forall e, preserves net (h e)) -> polls lo hi (try_catch m h).
Proof.
  intros Hm Hh w. destruct (Hm w) as [Ha Hf]. unfold try_catch.
  destruct (m w) as [w1 [a|e|e]]; cbn [fst] in *; auto.
  rewrite (Hh e w1). auto.
Qed.

Lemma polls_checkIfGameIsLive : polls 1 2 checkIfGameIsLive.
Proof.
  unfold checkIfGameIsLive. apply polls_try; [|intros; apply net_report].
  apply (polls_bind 1 1 0 1); [apply polls_axios; lia | intros data | lia | lia].
  apply (polls_bind 0 0 0 1); [apply polls_still; keeps | intros _ | lia | lia].
  apply (polls_bind 0 0 0 1); [apply polls_still; keeps | intros gw | lia | lia].
  destruct (negb (truthy gw)); [apply polls_still; keeps|].
  apply (polls_bind 0 0 0 1); [apply polls_still; keeps | intros _ | lia | lia].
  apply (polls_bind 1 1 0 0); [apply polls_axios; lia | intros fixtures | lia | lia].
  apply polls_still. keeps.
Qed.

Lemma polls_getBootstrapData : polls 0 1 getBootstrapData.
Proof.
  unfold getBootstrapData. apply polls_try; [|intros; apply net_report].
  apply (polls_bind 0 0 0 1); [apply polls_still; keeps | intros _ | lia | lia].
  apply (polls_bind 1 1 0 0); [apply polls_axios; lia | intros data | lia | lia].
  apply polls_still. keeps.
Qed.

Lemma polls_getCurrentGameweekData : polls 0 2 getCurrentGameweekData.
Proof.
  unfold getCurrentGameweekData. apply polls_try; [|intros; apply net_report].
  apply (polls_bind 1 1 0 1); [apply polls_axios; lia | intros data | lia | lia].
  apply (polls_bind 0 0 0 1); [apply polls_still; keeps | intros _ | lia | lia].
  apply (polls_bind 0 0 0 1); [apply polls_still; keeps | intros gw | lia | lia].
  destruct (negb (truthy gw)); [apply polls_still; keeps|].
  apply (polls_bind 0 0 0 1); [apply polls_still; keeps | intros _ | lia | lia].
  apply (polls_bind 1 1 0 0); [apply polls_axios; lia | intros liveData | lia | lia].
  apply polls_still. keeps.
Qed.

Lemma polls_getFixturesData : polls 0 1 getFixturesData.
Proof.
  unfold getFixturesData. apply polls_try; [|intros; apply net_report].
  apply (polls_bind 0 0 0 1); [apply polls_still; keeps | intros _ | lia | lia].
  apply (polls_bind 1 1 0 0); [apply polls_axios; lia | intros data | lia | lia].
  apply polls_still. keeps.
Qed.

Section Polling.

Variable parseFloat : value -> value.
Variable validate : sqltype -> value -> option value.

Local Abbreviation main := (main parseFloat validate).

Lemma net_execSql (q : request) : preserves net (execSql validate q).
Proof.
  intros w. unfold execSql.
  destruct (server _ _); [destruct (run _ _ _ _)| |]; reflexivity.
Qed.

Lemma net_iterate (v : value) : preserves net (iterate v).
Proof. unfold iterate. keeps. Qed.

Lemma net_close : preserves net (close : M unit).
Proof. intros w. reflexivity. Qed.

Hint Resolve net_execSql net_iterate net_close : keeps.

Lemma net_submit (build : value -> request) (x : value) :
  preserves net (submit validate build x).
Proof. unfold submit. keeps. Qed.

Hint Resolve net_submit : keeps.

Lemma net_updateOne (len x : value) (c : nat * nat) :
  preserves net (updateOne parseFloat validate len x c).
Proof. unfold updateOne. destruct c. keeps. Qed.

Hint Resolve net_updateOne : keeps.

Lemma net_persist (b g f : value) : preserves net (persist parseFloat validate b g f).
Proof.
  unfold persist, updateTeams, updateElementTypes, updateEvents, updateFixtures,
    updatePlayers, updatePlayerStats, updateAll.
  keeps.
Qed.

(** The write path makes no request to the API. *)
Lemma net_updateDatabase (b g f : value) :
  preserves net (updateDatabase parseFloat validate b g f).
Proof.
  intros w. destruct (login (sql w)) as [err|] eqn:Hlogin.
  - unfold updateDatabase. rewrite Hlogin. reflexivity.
  - rewrite (updateDatabase_connected parseFloat validate b g f w Hlogin).
    pose proof (preserves_try net _ (fun error => close;; throw error)
                  (net_persist b g f) ltac:(keeps) (connected w)) as Hk.
    unfold settled. fold (connected w).
    destruct (try_catch _ _ (connected w)) as [w1 [a|e|e]]; exact Hk.
Qed.

Lemma polls_run_main : polls 1 6 (run_main parseFloat validate).
Proof.
  unfold run_main. apply polls_after.
  apply polls_try; [|intros; keeps].
  apply (polls_bind 1 2 0 4); [apply polls_checkIfGameIsLive | intros live | lia | lia].
  destruct (negb live); [apply polls_still; keeps|].
  apply (polls_bind 0 0 0 4); [apply polls_still; keeps | intros _ | lia | lia].
  apply (polls_bind 0 1 0 3); [apply polls_getBootstrapData | intros b | lia | lia].
  apply (polls_bind 0 2 0 1); [apply polls_getCurrentGameweekData | intros g | lia | lia].
  apply (polls_bind 0 1 0 0); [apply polls_getFixturesData | intros f | lia | lia].
  apply (polls_bind 0 0 0 0); [apply polls_still; keeps | intros valid | lia | lia].
  destruct (negb valid); [apply polls_still; keeps|].
  apply (polls_bind 0 0 0 0); [apply polls_still, net_updateDatabase | intros _ | lia | lia].
  apply polls_still. keeps.
Qed.

(** Without a live game the run stops after the check. *)
Lemma net_without_live_game (w : World) :
  snd (checkIfGameIsLive (started w)) <> Ok true ->
  net (fst (main w)) = net (fst (checkIfGameIsLive (started w))).
Proof.
  intros Hnot. unfold main, run_main, bind, try_catch.
  unfold started in *. cbn [console_log print fst] in *.
  destruct (checkIfGameIsLive _) as [w1 [[|]|e|e]]; cbn [fst snd negb ret sql] in *;
    try reflexivity.
  contradiction.
Qed.

(** X4. Whatever the API answers, a run makes at least one and at most
    six requests to it, and at most two when the live check does not answer
    [true]. *)
Theorem a_run_makes_at_most_six_requests (w : World) :
  api (net (fst (main w))) = api (net w) /\
  fetched (net w) < fetched (net (fst (main w))) <= fetched (net w) + 6 /\
  (snd (checkIfGameIsLive (started w)) <> Ok true ->
   fetched (net (fst (main w))) <= fetched (net w) + 2).
Proof.
  assert (Hfst : fst (main w) = fst (run_main parseFloat validate w)).
  { unfold main. destruct (run_main parseFloat validate w) as [w' [c|e|e]];
      reflexivity. }
  destruct (polls_run_main w) as [Hapi Hcount]. rewrite <- Hfst in Hapi, Hcount.
  split; [exact Hapi|]. split; [lia|].
  intros Hnot. rewrite (net_without_live_game w Hnot).
  destruct (polls_checkIfGameIsLive (started w)) as [_ Hc].
  change (net (started w)) with (net w) in Hc. lia.
Qed.

End Polling.

(** ** The initialization check *)

(** X19. The exit code of the initialization check: 0 exactly when the
    login succeeds, the request is answered and [dbo.players] exists.  With
    the table missing the request itself succeeds, the 'row' handler rejects
    the promise with the ERROR message it printed, and that rejection
    stands. *)
Theorem missing_table_fails_the_check (srv : Init.Server) :
  snd (Init.script srv)
    = Some (match Init.connect_error srv, Init.request_course srv with
            | None, Init.Answered _ => if Init.has_players srv then 0 else 1
            | _, _ => 1
            end)%Z /\
  (Init.connect_error srv = None ->
   forall callback, Init.request_course srv = Init.Answered callback ->
   Init.has_players srv = false ->
   exists e,
     Init.promise (fst (Init.script srv)) = Some (Some e) /\
     message e = [VStr (Init.checkTableQuery false)] /\
     In (Info, [VStr (Init.checkTableQuery false)]) (Init.out (fst (Init.script srv)))).
Proof.
  destruct srv as [[e0|] [|] [[|]|e1|e1 [[[|] e2]|]]]; (split; [reflexivity|]); cbn;
    intros Hc callback Hr Hp; try discriminate;
    (eexists; split; [reflexivity|]; split; [reflexivity|]; cbn; auto).
Qed.

(** X20. The initialization check calls [connection.close()] at most
    once, and only in the callback of its request: it has called it once when
    it exits with code 0 and whenever that callback gets an error, and not at
    all when the login fails.  When the connection raises 'error' with the
    request in flight, the 'error' handler does not close; the connection is
    closed exactly when the driver also calls the callback of the request. *)
Theorem check_closes_its_connection (srv : Init.Server) :
  Init.closes (fst (Init.script srv)) <= 1 /\
  (snd (Init.script srv) = Some 0%Z -> Init.closes (fst (Init.script srv)) = 1) /\
  (forall e, Init.connect_error srv = None -> Init.request_course srv = Init.Errored e ->
             Init.closes (fst (Init.script srv)) = 1) /\
  (forall e, Init.connect_error srv = Some e -> Init.closes (fst (Init.script srv)) = 0) /\
  (forall e callback,
     Init.connect_error srv = None -> Init.request_course srv = Init.Broken e callback ->
     Init.closes (fst (Init.script srv)) = match callback with Some _ => 1 | None => 0 end /\
     In (Severe, VStr "Connection error:" :: message e) (Init.out (fst (Init.script srv))) /\
     (forall first e', callback = Some (first, e') ->
        In (Severe, VStr "Query error:" :: message e') (Init.out (fst (Init.script srv))))).
Proof.
  destruct srv as [[e0|] [|] [[|]|e1|e1 [[[|] e2]|]]]; cbn;
    repeat split; intros; try discriminate; auto; try lia;
    repeat match goal with
           | H : Init.Broken _ _ = Init.Broken _ _ |- _ => injection H as ? ?; subst
           | H : Some _ = Some _ |- _ => injection H as ? ?; subst
           end;
    try discriminate; cbn; tauto.
Qed.

(** ** Runs that fail *)

Section Failing.

Variable parseFloat : value -> value.
Variable validate : sqltype -> value -> option value.

Local Abbreviation updateDatabase := (updateDatabase parseFloat validate).
Local Abbreviation main := (main parseFloat validate).


(** X22. An API that rejects the first request is a failure, not a skip:
    the check rethrows the error, the run exits with code 1 after exactly one
    request, nothing of the connection is touched, and the console gets the
    two error lines (three when the error carries an HTTP response). *)
Theorem api_outage_is_a_failure (w : World) (e : error) :
  api (net w) (fetched (net w)) BootstrapStatic = Rejected e ->
  snd (main w) = 1%Z /\
  sql (fst (main w)) = sql w /\
  fetched (net (fst (main w))) = S (fetched (net w)) /\
  console (fst (main w))
    = console w
      ++ [(Info, [VStr "*** Update script started at:"; VDate VUndefined]);
          (Severe, VStr "Error checking if game is live:" :: message e)]
      ++ match response e with
         | Some (status, statusText) =>
             [(Severe, [VStr "API returned status "; status; VStr ": "; statusText])]
         | None => []
         end
      ++ [(Severe, VStr "Error in update script:" :: message e)].
Proof.
  intros Hapi.
  unfold main, run_main, bind, try_catch, checkIfGameIsLive, try_catch, bind, axios_get.
  cbn [console_log print net api fetched fst snd]. rewrite Hapi.
  unfold report, bind, console_error, print.
  destruct (response e) as [[status statusText]|]; cbn;
    rewrite <- ?app_assoc; repeat split; reflexivity.
Qed.

End Failing.

(** * The theorems at sample worlds *)

(** On a match day the check answers [true]; off season it answers
    [false] without raising. *)
Lemma live_check_decides_witness :
  (exists w', checkIfGameIsLive Sample.matchday = (w', Ok true)) /\
  (exists w', checkIfGameIsLive Sample.off_season = (w', Ok false) /\
              sql w' = sql Sample.off_season).
Proof.
  split.
  - destruct (live_check_decides Sample.matchday (Sample.bootstrap 20 400 true)
                [Sample.event 4 false; Sample.event 5 true; Sample.event 6 false])
      as [_ Hlive]; [reflexivity | reflexivity | repeat constructor |].
    destruct (Hlive (Sample.event 5 true)
                [Sample.fixture 1 true false; Sample.fixture 2 false false])
      as (b & w' & Hrun & _ & Hiff & _); [reflexivity | reflexivity | repeat constructor |].
    exists w'. rewrite Hrun. f_equal. f_equal. apply Hiff.
    exists (Sample.fixture 1 true false). repeat split. left. reflexivity.
  - destruct (live_check_decides Sample.off_season (Sample.bootstrap 20 400 false)
                [Sample.event 4 false; Sample.event 5 false; Sample.event 6 false])
      as [Hnone _]; [reflexivity | reflexivity | repeat constructor |].
    destruct (Hnone eq_refl) as (w' & Hrun & _ & _ & Hsql).
    exists w'. split; assumption.
Defined.

Lemma sample_reaches_validation (nteams nplayers : nat) (srv : nat -> verdict) :
  reaches_validation
    (Sample.world (Sample.api (Sample.bootstrap nteams nplayers true)
                     (VArr [Sample.fixture 1 true false]) Sample.rows11) srv)
    (Sample.bootstrap nteams nplayers true)
    (Sample.gameweek Sample.rows11)
    (VArr [Sample.fixture 1 true false]).
Proof. split; reflexivity. Qed.

(** Off season the run is a successful skip. *)
Lemma no_live_game_is_a_successful_skip_witness :
  snd (main Sample.parseFloat Sample.validate Sample.off_season) = 0%Z /\
  sql (fst (main Sample.parseFloat Sample.validate Sample.off_season))
    = sql Sample.off_season /\
  last (console (fst (main Sample.parseFloat Sample.validate Sample.off_season)))
    = Some (Info, [VStr "No live games. Skipping update."]).
Proof.
  apply (no_live_game_is_a_successful_skip Sample.parseFloat Sample.validate
           Sample.off_season).
  reflexivity.
Defined.

(** With 399 players the run stops at validation. *)
Lemma short_snapshot_blocks_the_write_witness :
  snd (main Sample.parseFloat Sample.validate Sample.truncated) = 1%Z /\
  sql (fst (main Sample.parseFloat Sample.validate Sample.truncated)) = sql Sample.truncated.
Proof.
  apply (short_snapshot_blocks_the_write Sample.parseFloat Sample.validate
           (Sample.bootstrap 20 399 true) (Sample.gameweek Sample.rows11)
           (VArr [Sample.fixture 1 true false]) (map Sample.player (seq 1 399))).
  - reflexivity.
  - rewrite length_map, length_seq. unfold minPlayersCount. lia.
  - apply sample_reaches_validation.
Defined.

(** The element_types request is refused: it is the 21st and last request
    of the run, which exits with code 1. *)
Lemma writes_follow_dependency_order_witness :
  snd (main Sample.parseFloat Sample.validate Sample.refused_position) = 1%Z /\
  length (journal (sql (fst (main Sample.parseFloat Sample.validate
                               Sample.refused_position)))) = 21.
Proof.
  destruct (writes_follow_dependency_order Sample.parseFloat Sample.validate
              Sample.refused_position
              (Sample.bootstrap 20 400 true) (Sample.gameweek Sample.rows11)
              (VArr [Sample.fixture 1 true false]))
    as (ext & Hj & _ & Hfatal).
  { split; [apply sample_reaches_validation | reflexivity]. }
  assert (Hext : ext = map (fun t => (team_request t, Applied)) (map Sample.team (seq 1 20))
                       ++ (element_type_request (Sample.position 1),
                           Failed (Error [VStr "Timeout: Request failed to complete"] None))
                       :: []).
  { change (journal (sql Sample.refused_position) ++ ext) with ext in Hj.
    rewrite <- Hj. vm_compute. reflexivity. }
  destruct (Hfatal _ _ _ _ Hext) as [_ Hcode]; [cbn; lia | discriminate |].
  split; [exact Hcode|].
  rewrite Hj, Hext. reflexivity.
Defined.

(** Nineteen teams: validation passes with the warning and the run writes. *)
Lemma odd_team_count_is_only_a_warning_witness :
  snd (validateData (Sample.bootstrap 19 400 true) (Sample.gameweek Sample.rows11)
         (VArr [Sample.fixture 1 true false]) (fetched_world Sample.nineteen)) = Ok true /\
  snd (main Sample.parseFloat Sample.validate Sample.nineteen) = 0%Z.
Proof.
  destruct (odd_team_count_is_only_a_warning Sample.parseFloat Sample.validate
              (Sample.bootstrap 19 400 true) (Sample.gameweek Sample.rows11)
              (VArr [Sample.fixture 1 true false]) (map Sample.team (seq 1 19))
              eq_refl ltac:(discriminate) ltac:(vm_compute; lia) ltac:(vm_compute; reflexivity)
              (fetched_world Sample.nineteen))
    as (Hok & _ & _ & _).
  split; [exact Hok|].
  destruct (odd_team_count_is_only_a_warning Sample.parseFloat Sample.validate
              (Sample.bootstrap 19 400 true) (Sample.gameweek Sample.rows11)
              (VArr [Sample.fixture 1 true false]) (map Sample.team (seq 1 19))
              eq_refl ltac:(discriminate) ltac:(vm_compute; lia) ltac:(vm_compute; reflexivity)
              Sample.nineteen)
    as (_ & _ & _ & Hrun).
  destruct (Hrun (sample_reaches_validation 19 400 Sample.accepting)) as [_ ->].
  vm_compute. reflexivity.
Defined.

(** C8 at a concrete run: the connection is established, raises 'error'
    during the fourth request, and the run ends with exit code 1 without a
    single call of [connection.close()]. *)
Theorem connection_error_skips_release :
  let w' := fst (main Sample.parseFloat Sample.validate Sample.connection_lost) in
  snd (main Sample.parseFloat Sample.validate Sample.connection_lost) = 1%Z /\
  opened (sql w') = 1 /\
  closed (sql w') = 0 /\
  length (journal (sql w')) = 4 /\
  existsb lost (journal (sql w')) = true.
Proof. vm_compute. repeat split; reflexivity. Qed.

(** The third live row of a match day is refused: ten rows are counted as
    updated, one as an error, and the run exits with code 1.  On tables that
    hold player 1, with the second of three requests refused: the function
    raises for one player, and the row holds the minutes of the third row,
    the last one applied for player 1. *)
Lemma batch_update_is_best_effort_witness :
  let w := stats_world Sample.parseFloat Sample.validate Sample.refused_row
             (Sample.bootstrap 20 400 true) (Sample.gameweek Sample.rows11)
             (VArr [Sample.fixture 1 true false]) in
  let g := Sample.gameweek [Sample.stat 1 90; Sample.stat 2 45; Sample.stat 1 30] in
  let after := updatePlayerStats Sample.parseFloat Sample.validate g Sample.seeded_refusing in
  (snd (updateAll Sample.parseFloat Sample.validate (VArr Sample.rows11) w) = Ok (10, 1) /\
   snd (main Sample.parseFloat Sample.validate Sample.refused_row) = 1%Z) /\
  (snd after = Throw (new_Error [VStr "Failed to update "; num 1; VStr " players"]) /\
   exists r', tables (sql (fst after)) !! ("players", 1%Z) = Some r' /\
              r' !! "minutes" = Some (num 30)).
Proof.
  cbn zeta. split.
  - set (w := stats_world _ _ _ _ _ _).
    assert (Hsrv : server (sql w) = Sample.refusing 427) by (vm_compute; reflexivity).
    assert (Hcount : snd (updateAll Sample.parseFloat Sample.validate (VArr Sample.rows11) w)
                     = Ok (10, 1)) by (vm_compute; reflexivity).
    destruct (batch_update_is_best_effort Sample.parseFloat Sample.validate
                (Sample.gameweek Sample.rows11) Sample.rows11 w)
      as [Hbatch _].
    + reflexivity.
    + reflexivity.
    + intros i err _. rewrite Hsrv. unfold Sample.refusing.
      destruct (Nat.eqb _ 427); discriminate.
    + destruct Hbatch as (ext & _ & _ & _ & _ & Hall & _ & Hmain & _);
        [repeat constructor|].
      split; [exact Hcount|].
      rewrite Hall in Hcount. injection Hcount as _ HK.
      rewrite (Hmain Sample.refused_row (Sample.bootstrap 20 400 true)
                 (VArr [Sample.fixture 1 true false])).
      * rewrite HK. reflexivity.
      * split; [split; [apply sample_reaches_validation | vm_compute; reflexivity]|].
        split; [reflexivity | vm_compute; reflexivity].
      * reflexivity.
  - destruct (batch_update_is_best_effort Sample.parseFloat Sample.validate
                (Sample.gameweek [Sample.stat 1 90; Sample.stat 2 45; Sample.stat 1 30])
                [Sample.stat 1 90; Sample.stat 2 45; Sample.stat 1 30] Sample.seeded_refusing)
      as [Hbatch _].
    + reflexivity.
    + reflexivity.
    + intros i err _. cbn [Sample.seeded_refusing sql server]. unfold Sample.refusing.
      destruct (Nat.eqb _ 1); discriminate.
    + destruct Hbatch as (ext & Hj & _ & _ & _ & _ & Hres & _ & _ & _ & _ & Hlast);
        [repeat constructor|].
      change (journal (sql Sample.seeded_refusing) ++ ext) with ext in Hj. subst ext.
      split; [rewrite Hres; vm_compute; reflexivity|].
      destruct (Hlast [Sample.stat 1 90; Sample.stat 2 45] (Sample.stat 1 30) []
                  [(request_of Sample.parseFloat (Sample.stat 1 90), Applied);
                   (request_of Sample.parseFloat (Sample.stat 2 45),
                    Failed (Error [VStr "Timeout: Request failed to complete"] None))]
                  [] 1%Z)
        as (ps & r' & Hb & Hr' & Hcols).
      * reflexivity.
      * vm_compute. reflexivity.
      * reflexivity.
      * vm_compute. reflexivity.
      * apply not_elem_of_nil.
      * exists r'. split; [exact Hr'|].
        destruct (Hcols "minutes") as [_ ->].
        { unfold stat_columns. right. left. }
        assert (Hps : bound Sample.validate
                        (parameters (request_of Sample.parseFloat (Sample.stat 1 30)))
                      = Some (default [] (bound Sample.validate
                                 (parameters (request_of Sample.parseFloat (Sample.stat 1 30))))))
          by (vm_compute; reflexivity).
        rewrite Hps in Hb. injection Hb as <-. vm_compute. reflexivity.
Defined.

Lemma run_to {A} (m : M A) (w : World) (a : A) :
  snd (m w) = Ok a -> m w = (fst (m w), Ok a).
Proof. destruct (m w); cbn; intros ->; reflexivity. Qed.

(** The snapshot of the match day applied twice to empty tables. *)
Lemma merge_upsert_is_idempotent_witness :
  let m := reference Sample.parseFloat Sample.validate (Sample.bootstrap 20 400 true)
             (VArr [Sample.fixture 1 true false; Sample.fixture 2 false false]) in
  let w1 := fst (m Sample.matchday) in
  let w2 := fst (m w1) in
  same_rows (tables (sql w1)) (tables (sql w2)).
Proof.
  cbn zeta.
  set (m := reference _ _ _ _).
  apply (merge_upsert_is_idempotent Sample.parseFloat Sample.validate m Sample.matchday
           (fst (m Sample.matchday)) (fst (m (fst (m Sample.matchday))))).
  - constructor.
  - apply run_to. vm_compute. reflexivity.
  - apply run_to. vm_compute. reflexivity.
Defined.

(** The live row of player 999 on tables without that player. *)
Lemma unmatched_row_counts_as_success_witness :
  snd (updateOne Sample.parseFloat Sample.validate (num 2) (Sample.stat 999 45) (0, 0)
         Sample.matchday) = Ok (1, 0) /\
  tables (sql (fst (updateOne Sample.parseFloat Sample.validate (num 2) (Sample.stat 999 45)
                      (0, 0) Sample.matchday))) = tables (sql Sample.matchday).
Proof.
  destruct (unmatched_row_counts_as_success Sample.parseFloat Sample.validate
              (Sample.stat 999 45) (num 2) Sample.matchday
              (default [] (bound Sample.validate
                             (parameters (request_of Sample.parseFloat (Sample.stat 999 45)))))
              (Some 999%Z) 0 0)
    as [(_ & _ & Hcount & Htables) _].
  - split; reflexivity.
  - reflexivity.
  - vm_compute. reflexivity.
  - vm_compute. reflexivity.
  - intros z _. apply lookup_empty.
  - split; assumption.
Defined.

(** * The further properties at sample worlds *)

Lemma matchday_reaches_write :
  reaches_write Sample.matchday (Sample.bootstrap 20 400 true) (Sample.gameweek Sample.rows11)
    (VArr [Sample.fixture 1 true false; Sample.fixture 2 false false]).
Proof. split; [split|]; vm_compute; reflexivity. Qed.

(** The match-day run writes, so it validated first. *)
Lemma nothing_is_written_unvalidated_witness :
  exists b g f,
    snd (checkIfGameIsLive (started Sample.matchday)) = Ok true /\
    snd (fetch_all (detected Sample.matchday)) = Ok (b, g, f) /\
    snd (validateData b g f (fetched_world Sample.matchday)) = Ok true /\
    all_reasons b g f = [].
Proof.
  apply (nothing_is_written_unvalidated Sample.parseFloat Sample.validate Sample.matchday).
  intros H. apply (f_equal opened) in H. vm_compute in H. discriminate.
Defined.

(** The match-day run exits 0: 436 requests, all applied. *)
Lemma exit_zero_means_all_applied_witness :
  exists ext,
    journal (sql (fst (main Sample.parseFloat Sample.validate Sample.matchday)))
      = journal (sql Sample.matchday) ++ ext /\
    Forall (fun e => snd e = Applied) ext /\
    opened (sql (fst (main Sample.parseFloat Sample.validate Sample.matchday)))
      + closed (sql Sample.matchday)
      = opened (sql Sample.matchday)
        + closed (sql (fst (main Sample.parseFloat Sample.validate Sample.matchday))).
Proof.
  apply (exit_zero_means_all_applied Sample.parseFloat Sample.validate Sample.matchday).
  vm_compute. reflexivity.
Defined.

(** The login is refused: exit code 1, nothing touched. *)
Lemma refused_login_changes_nothing_witness :
  sql (fst (main Sample.parseFloat Sample.validate Sample.locked_out)) = sql Sample.locked_out /\
  snd (main Sample.parseFloat Sample.validate Sample.locked_out) = 1%Z.
Proof.
  destruct (refused_login_changes_nothing Sample.parseFloat Sample.validate Sample.locked_out
              (Error [VStr "Login failed for user 'sqladmin'."] None) eq_refl)
    as (Hsql & _ & Hcode).
  split; [exact Hsql|].
  apply (Hcode (Sample.bootstrap 20 400 true) (Sample.gameweek Sample.rows11)
           (VArr [Sample.fixture 1 true false])).
  split; [split|]; vm_compute; reflexivity.
Defined.

(** The requests of the match-day run. *)
Lemma one_request_per_record_witness :
  exists ext,
    journal (sql (fst (main Sample.parseFloat Sample.validate Sample.matchday)))
      = journal (sql Sample.matchday) ++ ext /\
    length ext = 20 + 1 + 3 + 2 + 400 + 11.
Proof.
  destruct (one_request_per_record Sample.parseFloat Sample.validate Sample.matchday
              (Sample.bootstrap 20 400 true) (Sample.gameweek Sample.rows11)
              (VArr [Sample.fixture 1 true false; Sample.fixture 2 false false])
              matchday_reaches_write)
    as (ext & Hj & _ & Hall).
  exists ext. split; [exact Hj|].
  rewrite <- (length_map fst), Hall by (vm_compute; reflexivity).
  vm_compute. reflexivity.
Defined.

Lemma fetched_snapshots_are_well_formed_witness :
  truthy (Sample.bootstrap 20 400 true) = true /\
  exists fixtures,
    VArr [Sample.fixture 1 true false; Sample.fixture 2 false false] = VArr fixtures.
Proof.
  destruct (fetched_snapshots_are_well_formed Sample.matchday
              (Sample.bootstrap 20 400 true) (Sample.gameweek Sample.rows11)
              (VArr [Sample.fixture 1 true false; Sample.fixture 2 false false])
              (proj1 matchday_reaches_write))
    as (Hb & _ & Hf & _).
  split; assumption.
Defined.

(** A null between two rows: the first is sent, the third never is. *)
Lemma null_row_aborts_the_batch_witness :
  exists ext,
    journal (sql (fst (updatePlayerStats Sample.parseFloat Sample.validate
                         (Sample.gameweek [Sample.stat 1 90; VNull; Sample.stat 3 90])
                         Sample.matchday)))
      = journal (sql Sample.matchday) ++ ext /\
    map fst ext = [request_of Sample.parseFloat (Sample.stat 1 90)] /\
    snd (updatePlayerStats Sample.parseFloat Sample.validate
           (Sample.gameweek [Sample.stat 1 90; VNull; Sample.stat 3 90]) Sample.matchday)
      = Throw (TypeError [VStr "Cannot read properties of "; VNull; VStr " (reading 'stats')"]).
Proof.
  apply (null_row_aborts_the_batch Sample.parseFloat Sample.validate
           (Sample.gameweek [Sample.stat 1 90; VNull; Sample.stat 3 90]) VNull
           [Sample.stat 1 90] [Sample.stat 3 90] Sample.matchday).
  - reflexivity.
  - reflexivity.
  - repeat constructor.
  - reflexivity.
  - intros i err _. discriminate.
Defined.

(** A row without [stats] between two rows: two requests, one error. *)
Lemma rows_without_stats_count_as_errors_witness :
  snd (updatePlayerStats Sample.parseFloat Sample.validate
         (Sample.gameweek [Sample.stat 1 90; VObj [("id", num 2)]; Sample.stat 3 90])
         Sample.matchday)
    = Throw (new_Error [VStr "Failed to update "; num 1; VStr " players"]) /\
  length (journal (sql (fst (updatePlayerStats Sample.parseFloat Sample.validate
                    (Sample.gameweek [Sample.stat 1 90; VObj [("id", num 2)]; Sample.stat 3 90])
                    Sample.matchday)))) = 2.
Proof.
  destruct (rows_without_stats_count_as_errors Sample.parseFloat Sample.validate
              (Sample.gameweek [Sample.stat 1 90; VObj [("id", num 2)]; Sample.stat 3 90])
              [Sample.stat 1 90; VObj [("id", num 2)]; Sample.stat 3 90] Sample.matchday)
    as (ext & Hj & Hm & _ & _ & Hr).
  - reflexivity.
  - reflexivity.
  - repeat constructor.
  - intros i err _. discriminate.
  - change (journal (sql Sample.matchday) ++ ext) with ext in Hj. subst ext.
    split; [rewrite Hr|]; vm_compute; reflexivity.
Defined.

(** A goalless draw: both scores are bound to NULL. *)
Lemma goalless_score_is_stored_as_null_witness :
  binding "team_a_score" (parameters (fixture_request Sample.goalless)) = Some (Int, VNull) /\
  binding "team_h_score" (parameters (fixture_request Sample.goalless)) = Some (Int, VNull).
Proof.
  split.
  - apply (goalless_score_is_stored_as_null Sample.validate Sample.goalless
             (default [] (bound Sample.validate (parameters (fixture_request Sample.goalless))))
             "team_a_score").
    + left. reflexivity.
    + vm_compute. reflexivity.
    + vm_compute. reflexivity.
  - apply (goalless_score_is_stored_as_null Sample.validate Sample.goalless
             (default [] (bound Sample.validate (parameters (fixture_request Sample.goalless))))
             "team_h_score").
    + right. reflexivity.
    + vm_compute. reflexivity.
    + vm_compute. reflexivity.
Defined.

(** The reference phase on the seeded tables keeps the code and the minutes
    of player 1. *)
Lemma reference_keeps_live_statistics_witness :
  exists r',
    tables (sql (fst (reference Sample.parseFloat Sample.validate
                        (Sample.bootstrap 20 400 true) (VArr [Sample.fixture 1 true false])
                        Sample.seeded)))
      !! ("players", 1%Z) = Some r' /\
    forall c, c ∈ kept_by_reference -> r' !! c = Sample.old_row !! c.
Proof.
  apply (reference_keeps_live_statistics Sample.parseFloat Sample.validate).
  vm_compute. reflexivity.
Defined.

(** [updateTeams] on the seeded tables leaves the players row alone. *)
Lemma upsert_stays_in_its_table_witness :
  tables (sql (fst (updateTeams Sample.validate
                      (VArr [Sample.team 1; Sample.team 2]) Sample.seeded)))
    !! ("players", 1%Z) = Some Sample.old_row.
Proof.
  destruct (upsert_stays_in_its_table Sample.parseFloat Sample.validate
              (updateTeams Sample.validate) team_request "teams" team_columns
              (VArr [Sample.team 1; Sample.team 2]) Sample.seeded)
    as [Hframe _].
  - constructor.
  - rewrite Hframe by discriminate. vm_compute. reflexivity.
Defined.

(** Team 1 sent twice: the row holds the name sent last. *)
Lemma upsert_round_trip_witness :
  exists r,
    tables (sql (fst (updateTeams Sample.validate
                        (VArr [Sample.team 1; Sample.team 2; Sample.renamed])
                        Sample.matchday)))
      !! ("teams", 1%Z) = Some r /\
    r !! "name" = Some (VStr "Renamed").
Proof.
  destruct (upsert_round_trip Sample.parseFloat Sample.validate
              (updateTeams Sample.validate) team_request "teams" team_columns
              (VArr [Sample.team 1; Sample.team 2; Sample.renamed])
              Sample.matchday
              (fst (updateTeams Sample.validate
                      (VArr [Sample.team 1; Sample.team 2; Sample.renamed]) Sample.matchday))
              [Sample.team 1; Sample.team 2] [] Sample.renamed 1%Z)
    as (ps & r & Hb & Hr & Hcols).
  - constructor.
  - apply run_to. vm_compute. reflexivity.
  - reflexivity.
  - vm_compute. reflexivity.
  - intros y Hy. inversion Hy.
  - exists r. split; [exact Hr|].
    destruct (Hcols "name") as [_ ->].
    + unfold team_columns. left.
    + assert (Hps : bound Sample.validate (parameters (team_request Sample.renamed))
                    = Some (default [] (bound Sample.validate
                                          (parameters (team_request Sample.renamed)))))
        by (vm_compute; reflexivity).
      rewrite Hps in Hb. injection Hb as <-. vm_compute. reflexivity.
Defined.

(** On the match day both variants fetch the same live payload. *)
Lemma validating_fetch_refines_the_first_witness :
  exists w2,
    Legacy.getCurrentGameweekData Sample.matchday = (w2, Ok (Sample.gameweek Sample.rows11)).
Proof.
  destruct (validating_fetch_refines_the_first Sample.matchday
              (fst (getCurrentGameweekData Sample.matchday)) (Sample.gameweek Sample.rows11))
    as (w2 & Hrun & _).
  - apply run_to. vm_compute. reflexivity.
  - exists w2. exact Hrun.
Defined.


(** The API answers the first request with status 503. *)
Lemma api_outage_is_a_failure_witness :
  let down := Error [VStr "Request failed with status code 503"]
                (Some (num 503, VStr "Service Unavailable")) in
  let w := Sample.world (fun _ _ => Rejected down) Sample.accepting in
  snd (main Sample.parseFloat Sample.validate w) = 1%Z /\
  sql (fst (main Sample.parseFloat Sample.validate w)) = sql w.
Proof.
  cbn zeta.
  destruct (api_outage_is_a_failure Sample.parseFloat Sample.validate
              (Sample.world (fun _ _ => Rejected
                 (Error [VStr "Request failed with status code 503"]
                    (Some (num 503, VStr "Service Unavailable")))) Sample.accepting)
              (Error [VStr "Request failed with status code 503"]
                 (Some (num 503, VStr "Service Unavailable"))) eq_refl)
    as (Hcode & Hsql & _).
  split; assumption.
Defined.
